(** * Workflow orchestration layer: semantic cron, winnowing, projections

    A shallow embedding of the workflow helpers, the [lifecycle.harvest]
    workflow, the item projection and the semantic-cron evaluator, with the
    properties stated about them.

    Conventions of the embedding.
    - A JavaScript [number] that is read from configuration is a rational
      ([Q]); [NaN] and the infinities are separate constructors of [Num].
      Exact rational arithmetic stands for IEEE doubles, except in the
      time windows of the co-occurrence and temporal joins, where a product
      or a difference at the edge of the window decides the result: there
      the rational stands for the double nearest to it and every operation
      is rounded as IEEE 754 rounds it ([toDouble]).
    - A timestamp in milliseconds is an integer ([Z]); a time value of
      [Date] has a magnitude of at most 8.64e15 and is a double.
    - A string is [string]; the empty string is written [EmptyString].
    - [null] and [undefined] of a typed optional value are [None].
    - A thrown exception is the [Throws] constructor of [Outcome].
    - An [async] function is a function from a [World] to an outcome and a
      [World]: the world counts the calls made so far and logs them, and an
      environment [Env] says what the clock, the task store and the upstream
      answer to each call. A loop that may run for ever takes fuel. *)

From stdpp Require Import base strings list gmap pretty.
From Stdlib Require Import QArith Qabs Qround ZArith Lia Ascii.

Open Scope string_scope.
Open Scope list_scope.

(* ================================================================== *)
(** * JavaScript values and built-ins                                  *)
(* ================================================================== *)

Module JS.

(** Exceptions the modelled code can raise. [WorkflowError] is the class of
    helpers.ts: message, step, recoverable (default false). *)
Inductive Exn : Type :=
| WorkflowError (message step : string) (recoverable : bool)
| PlainError (message : string)
| TypeError
| SyntaxError
| UpstreamError.

Inductive Outcome (A : Type) : Type :=
| Returns (a : A)
| Throws (e : Exn).
Arguments Returns {A} a.
Arguments Throws {A} e.

Definition bindO {A B} (m : Outcome A) (k : A -> Outcome B) : Outcome B :=
  match m with
  | Returns a => k a
  | Throws e => Throws e
  end.

(** A JavaScript number. *)
Inductive Num : Type :=
| NaN
| NegInf
| Fin (q : Q)
| PosInf.

Definition Qleb (x y : Q) : bool := Qle_bool x y.
Definition Qltb (x y : Q) : bool := negb (Qle_bool y x).
Definition Qeqb (x y : Q) : bool := Qle_bool x y && Qle_bool y x.

(** [a <= b] on numbers: false as soon as one side is [NaN]. *)
Definition num_le (a b : Num) : bool :=
  match a, b with
  | NaN, _ | _, NaN => false
  | NegInf, _ => true
  | _, PosInf => true
  | Fin x, Fin y => Qleb x y
  | _, _ => false
  end.

Definition num_lt (a b : Num) : bool :=
  match a, b with
  | NaN, _ | _, NaN => false
  | NegInf, NegInf => false
  | PosInf, PosInf => false
  | NegInf, _ => true
  | _, PosInf => true
  | Fin x, Fin y => Qltb x y
  | _, _ => false
  end.

Definition num_ge (a b : Num) : bool := num_le b a.
Definition num_gt (a b : Num) : bool := num_lt b a.

(** [a === b] on two numbers. *)
Definition num_eq (a b : Num) : bool :=
  match a, b with
  | NegInf, NegInf | PosInf, PosInf => true
  | Fin x, Fin y => Qeqb x y
  | _, _ => false
  end.

Definition num_isNaN (a : Num) : bool :=
  match a with NaN => true | _ => false end.

(** [a * k] for a finite non-zero positive constant [k]. *)
Definition num_scale (a : Num) (k : Q) : Num :=
  match a with
  | Fin x => Fin (x * k)
  | other => other
  end.

(** ** Arithmetic on doubles *)

(** [2^e] as a rational. *)
Definition pow2 (e : Z) : Q :=
  match e with
  | Z0 => 1
  | Zpos p => inject_Z (2 ^ Zpos p)
  | Zneg p => 1 # (2 ^ p)%positive
  end.

(** The exponent of a positive rational: the [e] with [2^e <= q < 2^(e+1)]. *)
Definition ilog2 (q : Q) : Z :=
  let e := (Z.log2 (Qnum q) - Z.log2 (Zpos (Qden q)))%Z in
  if Qle_bool (pow2 e) q then e else (e - 1)%Z.

(** The integer nearest to a rational that is not negative; of two that are
    equally near, the even one. *)
Definition roundHalfEven (q : Q) : Z :=
  let f := Qfloor q in
  match Qcompare (q - inject_Z f) (1 # 2) with
  | Lt => f
  | Gt => (f + 1)%Z
  | Eq => if Z.even f then f else (f + 1)%Z
  end.

(** The double nearest to a positive rational (round to nearest, ties to
    even): 53 significant bits, exponents from -1074 on (subnormal numbers
    below 2^-1022), and infinity from 2^1024 on. *)
Definition roundPositive (a : Q) : Num :=
  let p := Z.max (ilog2 a - 52) (-1074) in
  let r := (inject_Z (roundHalfEven (a / pow2 p)) * pow2 p)%Q in
  if Qle_bool (pow2 1024) r then PosInf else Fin (Qred r).

Definition num_neg (a : Num) : Num :=
  match a with
  | NaN => NaN
  | NegInf => PosInf
  | Fin q => Fin (- q)
  | PosInf => NegInf
  end.

(** The double that a rational stands for: the result of an operation on
    doubles whose exact result is that rational, and the number a decimal
    literal denotes. *)
Definition toDouble (q : Q) : Num :=
  match Qnum q with
  | Z0 => Fin 0
  | Zpos _ => roundPositive q
  | Zneg _ => num_neg (roundPositive (- q))
  end.

(** [Math.abs(a)]. *)
Definition num_abs (a : Num) : Num :=
  match a with
  | NaN => NaN
  | Fin q => Fin (Qabs q)
  | _ => PosInf
  end.

(** [a * b] on doubles. *)
Definition num_mul (a b : Num) : Num :=
  match a, b with
  | NaN, _ | _, NaN => NaN
  | Fin x, Fin y => toDouble (x * y)
  | Fin x, inf | inf, Fin x =>
      match Qnum x with
      | Z0 => NaN
      | Zpos _ => inf
      | Zneg _ => num_neg inf
      end
  | PosInf, PosInf | NegInf, NegInf => PosInf
  | _, _ => NegInf
  end.

(** Truthiness of a number: neither zero nor [NaN]. *)
Definition num_truthy (a : Num) : bool :=
  match a with
  | NaN => false
  | Fin q => negb (Qeqb q 0)
  | _ => true
  end.

(** Truthiness of a string: non-empty. *)
Definition truthy (s : string) : bool :=
  match s with EmptyString => false | _ => true end.

(** [a || b] on strings. *)
Definition str_or (a b : string) : string :=
  if truthy a then a else b.

(** [s.includes(sub)]. *)
Fixpoint includes (s sub : string) : bool :=
  String.prefix sub s ||
  match s with
  | EmptyString => false
  | String _ rest => includes rest sub
  end.

(** [parts.join(sep)]. *)
Definition join (sep : string) (parts : list string) : string :=
  String.concat sep parts.

(** Built-ins of the language that the embedding takes as given. *)
Class Builtins : Type := {
  (* Number(s) *)
  Number_of_string : string -> Num;
  (* String(n), for a finite number *)
  String_of_number : Q -> string;
  (* s.toLowerCase() *)
  toLowerCase : string -> string;
  (* new RegExp(p).test(s); None when the constructor rejects p *)
  RegExp_test : string -> string -> option bool;
}.

(** Date parsing, taken as given as well. *)
Class DateParser : Type := {
  (* new Date(s).getTime(); None is NaN *)
  Date_getTime : string -> option Z;
}.

End JS.
Export JS.

(* ================================================================== *)
(** * semantic.cron: shape conditions                                  *)
(* ================================================================== *)

Module Shape.

(** [Condition.value]: [number | string | string[]], optional. The cast at
    each use is unchecked, so every operator meets every variant. *)
Inductive CondValue : Type :=
| CUndefined
| CNumber (q : Q)
| CString (s : string)
| CStrings (l : list string).

Record Condition : Type := {
  enrichment : string;
  operator : string;
  value : CondValue;
}.

Section WithBuiltins.
Context `{Builtins} `{DateParser}.

(** [ToNumber] of a condition value, as the relational operators and the
    multiplication apply it. *)
Definition toNumber (v : CondValue) : Num :=
  match v with
  | CUndefined => NaN
  | CNumber q => Fin q
  | CString s => Number_of_string s
  | CStrings l => Number_of_string (join "," l)
  end.

(** The pattern [new RegExp(v)] compiles. *)
Definition regexSource (v : CondValue) : string :=
  match v with
  | CUndefined => "(?:)"
  | CNumber q => String_of_number q
  | CString s => s
  | CStrings l => join "," l
  end.

Definition compareNumeric (op : string) (num : Num) (target : CondValue) : bool :=
  if String.eqb op "gte" then num_ge num (toNumber target)
  else if String.eqb op "gt" then num_gt num (toNumber target)
  else if String.eqb op "lte" then num_le num (toNumber target)
  else if String.eqb op "lt" then num_lt num (toNumber target)
  else
    match target with
    | CNumber q => num_eq num (Fin q)
    | _ => false
    end.

Definition isNumericOp (op : string) : bool :=
  String.eqb op "gte" || String.eqb op "gt" || String.eqb op "lte"
  || String.eqb op "lt" || String.eqb op "eq".

(** [evaluateCondition(condition, enrichmentResult)]; [now] is the value
    [Date.now()] returns. *)
Definition evaluateCondition (now : Z) (condition : Condition)
    (enrichmentResult : option (list string)) : Outcome bool :=
  if String.eqb (operator condition) "exists" then
    Returns
      match enrichmentResult with
      | Some (first :: _) => negb (Nat.eqb (String.length first) 0)
      | _ => false
      end
  else
    match enrichmentResult with
    | None | Some [] => Returns false
    | Some (raw :: _) =>
        let op := operator condition in
        if isNumericOp op then
          let num := Number_of_string raw in
          if num_isNaN num then Returns false
          else Returns (compareNumeric op num (value condition))
        else if String.eqb op "contains" then
          match value condition with
          | CString s => Returns (includes (toLowerCase raw) (toLowerCase s))
          | _ => Throws TypeError
          end
        else if String.eqb op "matches" then
          match RegExp_test (regexSource (value condition)) raw with
          | Some b => Returns b
          | None => Throws SyntaxError
          end
        else if String.eqb op "oneOf" then
          match value condition with
          | CStrings options =>
              Returns (existsb (fun opt =>
                String.eqb (toLowerCase opt) (toLowerCase raw)) options)
          | _ => Throws TypeError
          end
        else if String.eqb op "withinDays" then
          match Date_getTime raw with
          | None => Returns false
          | Some parsed =>
              Returns (num_le (Fin (inject_Z (Z.abs (now - parsed))))
                              (num_scale (toNumber (value condition))
                                         (inject_Z 86400000)))
          end
        else Returns false
    end.

End WithBuiltins.

End Shape.

(* ================================================================== *)
(** * convergent.search: name similarity                               *)
(* ================================================================== *)

Module Convergent.

(** The adjacent character pairs of a string, left to right. *)
Fixpoint bigrams (s : string) : list (Ascii.ascii * Ascii.ascii) :=
  match s with
  | String a (String b _ as rest) => (a, b) :: bigrams rest
  | _ => []
  end.

Definition bigram_eqb (x y : Ascii.ascii * Ascii.ascii) : bool :=
  Ascii.eqb (fst x) (fst y) && Ascii.eqb (snd x) (snd y).

(** Removes the first occurrence of [x]; [None] when there is none. *)
Fixpoint take_out (x : Ascii.ascii * Ascii.ascii)
    (l : list (Ascii.ascii * Ascii.ascii)) : option (list (Ascii.ascii * Ascii.ascii)) :=
  match l with
  | [] => None
  | y :: rest =>
      if bigram_eqb x y then Some rest
      else option_map (cons y) (take_out x rest)
  end.

(** Size of the multiset intersection. *)
Fixpoint common (xs ys : list (Ascii.ascii * Ascii.ascii)) : nat :=
  match xs with
  | [] => 0
  | x :: xs' =>
      match take_out x ys with
      | Some ys' => S (common xs' ys')
      | None => common xs' ys
      end
  end.

(** Modelled from the spec: [diceCoefficient] of convergent.ts, whose source
    is not part of the files at hand. The spec names it the Dice (bigram)
    coefficient: twice the number of shared bigrams over the total number
    of bigrams of the two strings. Two strings without any bigram give
    [0 / 0], which is [NaN]. *)
Definition diceCoefficient (a b : string) : Num :=
  let xs := bigrams a in
  let ys := bigrams b in
  let total := (length xs + length ys)%nat in
  match total with
  | O => NaN
  | _ => Fin (inject_Z (2 * Z.of_nat (common xs ys)) / inject_Z (Z.of_nat total))
  end.

End Convergent.

(* ================================================================== *)
(** * semantic.cron: join engine and signal evaluator                  *)
(* ================================================================== *)

Module Cron.

(** [Record<string, unknown>] of a shaped item: enrichment description to
    the first result string, or null. *)
Definition Enrichments : Type := list (string * option string).

(** [ShapedItem]. The [projected] copy of the item is left out: neither
    the join nor the signal evaluator reads it. *)
Record ShapedItem : Type := {
  id : string;
  name : string;
  url : string;
  entityType : string;
  enrichments : Enrichments;
  createdAt : string;
}.

Record LensResult : Type := {
  lensId : string;
  websetId : string;
  totalItems : nat;
  shapedItems : list ShapedItem;
}.

Record JoinedEntity : Type := {
  entity : string;
  entityUrl : string;
  presentInLenses : list string;
  lensCount : nat;
  shapes : gmap string Enrichments;
}.

Inductive JoinBy : Type :=
| ByEntity
| ByTemporal
| ByEntityTemporal
| ByCooccurrence.

(** [JoinConfig]: [entityMatch?.nameThreshold], [temporal?.days] and
    [minLensOverlap] are optional numbers. *)
Record JoinConfig : Type := {
  by_ : JoinBy;
  nameThreshold : option Q;
  temporalDays : option Q;
  minLensOverlap : option Q;
}.

Record JoinResult : Type := {
  joinType : JoinBy;
  entities : list JoinedEntity;
  lensesWithEvidence : list string;
}.

Inductive RequiresType : Type :=
| RAll
| RAny
| RThreshold
| RCombination.

(** [SignalConfig.requires]. *)
Record SignalConfig : Type := {
  requiresType : RequiresType;
  requiresMin : option Q;
  sufficient : option (list (list string));
}.

Record SignalResult : Type := {
  fired : bool;
  satisfiedBy : list string;
  rule : RequiresType;
  matchedCombination : option (list string);
  signalEntities : list string;
}.

(** [xs.includes(x)] on strings. *)
Definition inb (x : string) (xs : list string) : bool :=
  existsb (String.eqb x) xs.

(** [set.add(x)] on a [Set<string>] held in insertion order. *)
Definition setAdd (x : string) (s : list string) : list string :=
  if inb x s then s else s ++ [x].

(** [[...new Set(xs)]]: first occurrences, in order. *)
Definition uniq (xs : list string) : list string :=
  foldl (fun acc x => setAdd x acc) [] xs.

(** [a ?? b] on an optional number. *)
Definition orDefault (a : option Q) (b : Q) : Q :=
  match a with Some q => q | None => b end.

(** Truthiness of an optional number: defined and not zero. *)
Definition truthyNum (a : option Q) : bool :=
  match a with Some q => negb (Qeqb q 0) | None => false end.

Definition dayMs : Q := inject_Z 86400000.

(** Truthiness of an optional number of days, as the double it is. *)
Definition truthyDays (a : option Q) : bool :=
  match a with Some q => num_truthy (toDouble q) | None => false end.

(** [days * 86400000] on doubles. *)
Definition windowMs (days : Q) : Num := num_mul (toDouble days) (Fin dayMs).

(** [a - b] on two time values. *)
Definition timeDiff (a b : Z) : Num := toDouble (inject_Z (a - b)).

(** An entry of [entityMap]. *)
Record Entry : Type := {
  e_entity : string;
  e_url : string;
  e_lenses : list string;
  e_shapes : gmap string Enrichments;
  e_timestamps : list (string * string);
}.

(** [Map<string, Entry>], in insertion order. *)
Definition EntityMap : Type := list (string * Entry).

(** [map.set(key, v)]: an existing key keeps its place. *)
Fixpoint mapSet (key : string) (v : Entry) (m : EntityMap) : EntityMap :=
  match m with
  | [] => [(key, v)]
  | (k, old) :: rest =>
      if String.eqb k key then (k, v) :: rest
      else (k, old) :: mapSet key v rest
  end.

(** The three updates of the matched branch. *)
Definition foldInto (lens : string) (si : ShapedItem) (existing : Entry) : Entry :=
  {| e_entity := e_entity existing;
     e_url := e_url existing;
     e_lenses := setAdd lens (e_lenses existing);
     e_shapes := <[lens := enrichments si]> (e_shapes existing);
     e_timestamps := e_timestamps existing ++ [(lens, createdAt si)] |}.

Definition newEntry (lens : string) (si : ShapedItem) : Entry :=
  {| e_entity := name si;
     e_url := url si;
     e_lenses := [lens];
     e_shapes := {[ lens := enrichments si ]};
     e_timestamps := [(lens, createdAt si)] |}.

(** [si.url && existing.url && si.url === existing.url]. *)
Definition urlMatch (si : ShapedItem) (existing : Entry) : bool :=
  truthy (url si) && truthy (e_url existing) && String.eqb (url si) (e_url existing).

Definition toJoined (e : Entry) : JoinedEntity :=
  {| entity := e_entity e;
     entityUrl := e_url e;
     presentInLenses := e_lenses e;
     lensCount := length (e_lenses e);
     shapes := e_shapes e |}.

Section Join.
Context `{DateParser}.
(** [diceCoefficient] of convergent.ts. *)
Variable diceCoefficient : string -> string -> Num.

(** [si.name && existing.entity && diceCoefficient(..) > threshold]. *)
Definition nameMatch (threshold : Q) (si : ShapedItem) (existing : Entry) : bool :=
  truthy (name si) && truthy (e_entity existing)
  && num_gt (diceCoefficient (name si) (e_entity existing)) (Fin threshold).

(** The inner [for (const [key, existing] of entityMap)] loop: the first
    entry that matches is updated; [None] when [matched] stays false. *)
Fixpoint matchExisting (threshold : Q) (lens : string) (si : ShapedItem)
    (m : EntityMap) : option EntityMap :=
  match m with
  | [] => None
  | (key, existing) :: rest =>
      if urlMatch si existing then Some ((key, foldInto lens si existing) :: rest)
      else if nameMatch threshold si existing
      then Some ((key, foldInto lens si existing) :: rest)
      else option_map (cons (key, existing)) (matchExisting threshold lens si rest)
  end.

(** The body of the loop over shaped items. *)
Definition addItem (threshold : Q) (lens : string) (m : EntityMap)
    (si : ShapedItem) : EntityMap :=
  match matchExisting threshold lens si m with
  | Some m' => m'
  | None => mapSet (str_or (url si) (str_or (name si) (id si))) (newEntry lens si) m
  end.

Definition buildEntityMap (threshold : Q) (lensResults : list LensResult) : EntityMap :=
  foldl (fun m lr => foldl (addItem threshold (lensId lr)) m (shapedItems lr))
        [] lensResults.

(** [Math.abs(new Date(a).getTime() - new Date(b).getTime()) <= windowMs];
    an unparseable date gives [NaN], and the comparison is false. *)
Definition withinWindow (windowMs : Q) (a b : string) : bool :=
  match Date_getTime a, Date_getTime b with
  | Some ta, Some tb => Qleb (inject_Z (Z.abs (ta - tb))) windowMs
  | _, _ => false
  end.

(** The double loop over [ts[i]], [ts[j]] with [i < j]. *)
Fixpoint closePair (windowMs : Q) (ts : list (string * string)) : bool :=
  match ts with
  | [] => false
  | t :: rest =>
      existsb (fun u => negb (String.eqb (fst t) (fst u))
                        && withinWindow windowMs (snd t) (snd u)) rest
      || closePair windowMs rest
  end.

(** [[...entityMap.values()].find(e => e.entity === ent.entity && e.url === ent.url)]. *)
Definition findEntry (m : EntityMap) (ent : JoinedEntity) : option Entry :=
  List.find (fun e => String.eqb (e_entity e) (entity ent)
                      && String.eqb (e_url e) (entityUrl ent))
            (map snd m).

Definition temporalFilter (windowMs : Q) (m : EntityMap) (ent : JoinedEntity) : bool :=
  match findEntry m ent with
  | None => false
  | Some entry => closePair windowMs (e_timestamps entry)
  end.

Definition overlapFilter (minOverlap : Q) (e : JoinedEntity) : bool :=
  Qleb minOverlap (inject_Z (Z.of_nat (lensCount e))).

(** Timestamps of all shaped items, tagged with their lens. *)
Definition allTimestamps (lensResults : list LensResult) : list (string * option Z) :=
  flat_map (fun lr => map (fun si => (lensId lr, Date_getTime (createdAt si)))
                          (shapedItems lr)) lensResults.

(** [Math.min(...times)]: [NaN] as soon as one time is [NaN]. *)
Fixpoint minTime (ts : list (option Z)) : option Z :=
  match ts with
  | [] => None
  | [t] => t
  | t :: rest =>
      match t, minTime rest with
      | Some a, Some b => Some (Z.min a b)
      | _, _ => None
      end
  end.

Definition joinByCooccurrence (lensResults : list LensResult)
    (temporalDays : option Q) : JoinResult :=
  if truthyDays temporalDays then
    let all := allTimestamps lensResults in
    match all with
    | [] => {| joinType := ByCooccurrence; entities := []; lensesWithEvidence := [] |}
    | _ =>
        let earliest := minTime (map snd all) in
        let window := windowMs (orDefault temporalDays 0) in
        let qualifying :=
          List.filter (fun t : string * option Z =>
                         match snd t, earliest with
                         | Some time, Some e => num_le (timeDiff time e) window
                         | _, _ => false
                         end) all in
        {| joinType := ByCooccurrence; entities := [];
           lensesWithEvidence := uniq (map fst qualifying) |}
    end
  else
    {| joinType := ByCooccurrence; entities := [];
       lensesWithEvidence :=
         map lensId (List.filter (fun lr => negb (Nat.eqb (length (shapedItems lr)) 0))
                                 lensResults) |}.

(** [lensTimes.set(lensId, times)] for every lens with shaped items. *)
Fixpoint timesSet (key : string) (v : list (option Z))
    (m : list (string * list (option Z))) : list (string * list (option Z)) :=
  match m with
  | [] => [(key, v)]
  | (k, old) :: rest =>
      if String.eqb k key then (k, v) :: rest
      else (k, old) :: timesSet key v rest
  end.

Definition lensTimes (lensResults : list LensResult) : list (string * list (option Z)) :=
  foldl (fun m lr =>
           match shapedItems lr with
           | [] => m
           | items => timesSet (lensId lr) (map (fun si => Date_getTime (createdAt si)) items) m
           end) [] lensResults.

(** [Math.abs(ta - tb) <= windowMs] for some [ta] of [timesA] and some [tb]
    of [timesB]; a [NaN] time is never close to another. *)
Definition timesClose (window : Num) (timesA timesB : list (option Z)) : bool :=
  existsb (fun ta => existsb (fun tb =>
    match ta, tb with
    | Some a, Some b => num_le (num_abs (timeDiff a b)) window
    | _, _ => false
    end) timesB) timesA.

(** The pairs [i < j] of lenses in order; both ends of a close pair are
    added to the [qualifying] set. *)
Fixpoint qualifyPairs (window : Num) (ls : list (string * list (option Z)))
    (qualifying : list string) : list string :=
  match ls with
  | [] => qualifying
  | a :: rest =>
      let q' := foldl (fun q b =>
                         if timesClose window (snd a) (snd b)
                         then setAdd (fst b) (setAdd (fst a) q) else q)
                      qualifying rest in
      qualifyPairs window rest q'
  end.

Definition joinByTemporal (lensResults : list LensResult) (days : Q) : JoinResult :=
  {| joinType := ByTemporal; entities := [];
     lensesWithEvidence := qualifyPairs (windowMs days) (lensTimes lensResults) [] |}.

(** [joinLensResults(lensResults, joinConfig)]. *)
Definition joinLensResults (lensResults : list LensResult)
    (joinConfig : JoinConfig) : JoinResult :=
  let threshold := orDefault (nameThreshold joinConfig) (85 # 100) in
  let minOverlap := orDefault (minLensOverlap joinConfig) 2 in
  match by_ joinConfig with
  | ByCooccurrence => joinByCooccurrence lensResults (temporalDays joinConfig)
  | ByTemporal => joinByTemporal lensResults (orDefault (temporalDays joinConfig) 7)
  | mode =>
      let entityMap := buildEntityMap threshold lensResults in
      let entities0 := map (fun kv => toJoined (snd kv)) entityMap in
      let entities1 :=
        match mode with
        | ByEntityTemporal =>
            if truthyNum (temporalDays joinConfig) then
              List.filter (temporalFilter (orDefault (temporalDays joinConfig) 0 * dayMs)%Q
                                          entityMap) entities0
            else entities0
        | _ => entities0
        end in
      let entities2 := List.filter (overlapFilter minOverlap) entities1 in
      {| joinType := mode; entities := entities2;
         lensesWithEvidence := uniq (flat_map presentInLenses entities2) |}
  end.

End Join.

(** ** Invariant of the entity map

    What every map built by the join loop satisfies; used to relate a
    returned entity to the entry it was made from. *)

(** The key under which an entry sits follows from its URL and name; an
    entry with neither has exactly the timestamp it was created with. *)
Definition keyOf (k : string) (e : Entry) : Prop :=
  (e_url e <> EmptyString -> k = e_url e) /\
  (e_url e = EmptyString -> e_entity e <> EmptyString -> k = e_entity e) /\
  (e_url e = EmptyString -> e_entity e = EmptyString ->
   length (e_timestamps e) = 1%nat).

(** The lens of every recorded timestamp is in the entry's lens set. *)
Definition lensesCover (e : Entry) : Prop :=
  forall t, In t (e_timestamps e) -> In (fst t) (e_lenses e).

(** [t] is the lens id and creation time of a shaped item of [lrs]. *)
Definition recorded (lrs : list LensResult) (t : string * string) : Prop :=
  exists lr si, In lr lrs /\ In si (shapedItems lr) /\
                lensId lr = fst t /\ createdAt si = snd t.

Definition mapInvariant (P : string * string -> Prop) (m : EntityMap) : Prop :=
  List.NoDup (map fst m) /\
  forall k e, In (k, e) m ->
    keyOf k e /\ lensesCover e /\ forall t, In t (e_timestamps e) -> P t.

(** What the loop keeps of every entry: its lens set has no duplicate and
    is the set of the lenses of its timestamps and of its shapes; its name
    and URL are those of the shaped item it was created from, whose
    timestamp comes first. *)
Definition entryInvariant (lrs : list LensResult) (e : Entry) : Prop :=
  List.NoDup (e_lenses e) /\
  (forall l, In l (e_lenses e) <-> exists t, In t (e_timestamps e) /\ fst t = l) /\
  (forall l, is_Some (e_shapes e !! l) <-> In l (e_lenses e)) /\
  exists lr si rest,
    In lr lrs /\ In si (shapedItems lr) /\
    e_entity e = name si /\ e_url e = url si /\
    e_timestamps e = (lensId lr, createdAt si) :: rest.

(** [l] is the id of a lens result that holds a shaped item. *)
Definition hasShapedItem (lrs : list LensResult) (l : string) : Prop :=
  exists lr, In lr lrs /\ lensId lr = l /\ shapedItems lr <> [].

(** ** Signal evaluator *)

Definition dquote : string := String (Ascii.ascii_of_nat 34) EmptyString.

Definition coversAll (ids present : list string) : bool :=
  forallb (fun lens => inb lens present) ids.

(** The validation at the head of [evaluateSignal]: the first unknown lens
    id of the first combination that has one. *)
Definition firstUnknown (combos : list (list string)) (allLensIds : list string)
    : option string :=
  List.find (fun lens => negb (inb lens allLensIds)) (concat combos).

Definition validateCombination (signalConfig : SignalConfig)
    (allLensIds : list string) : Outcome unit :=
  match requiresType signalConfig with
  | RCombination =>
      match sufficient signalConfig with
      | None | Some [] =>
          Throws (WorkflowError
            "signal.requires.sufficient must be provided for combination type"
            "validate" false)
      | Some combos =>
          match firstUnknown combos allLensIds with
          | Some lens =>
              Throws (WorkflowError
                ("Unknown lens ID " +:+ dquote +:+ lens +:+ dquote
                 +:+ " in signal.requires.sufficient. Available: "
                 +:+ join ", " allLensIds)
                "validate" false)
          | None => Returns tt
          end
      end
  | _ => Returns tt
  end.

(** The loop over [sufficient] in [evaluateSignalWithEntities]: the first
    combination that some entity covers, with the entities covering it. *)
Fixpoint firstCombination (combos : list (list string)) (ents : list JoinedEntity)
    : list JoinedEntity * option (list string) :=
  match combos with
  | [] => ([], None)
  | combo :: rest =>
      match List.filter (fun e => coversAll combo (presentInLenses e)) ents with
      | [] => firstCombination rest ents
      | matching => (matching, Some combo)
      end
  end.

Definition resultOfEntities (type : RequiresType) (matching : list JoinedEntity)
    (combo : option (list string)) : SignalResult :=
  {| fired := negb (Nat.eqb (length matching) 0);
     satisfiedBy := uniq (flat_map presentInLenses matching);
     rule := type;
     matchedCombination := combo;
     signalEntities := map entity matching |}.

(** [evaluateSignalWithEntities]. Iterating an absent [sufficient] is a
    [TypeError]. *)
Definition evaluateSignalWithEntities (joinResult : JoinResult)
    (signalConfig : SignalConfig) (allLensIds : list string) : Outcome SignalResult :=
  let type := requiresType signalConfig in
  match type with
  | RAll =>
      Returns (resultOfEntities type
        (List.filter (fun e => coversAll allLensIds (presentInLenses e))
                     (entities joinResult)) None)
  | RAny => Returns (resultOfEntities type (entities joinResult) None)
  | RThreshold =>
      Returns (resultOfEntities type
        (List.filter (fun e => Qleb (orDefault (requiresMin signalConfig) 2)
                                    (inject_Z (Z.of_nat (lensCount e))))
                     (entities joinResult)) None)
  | RCombination =>
      match sufficient signalConfig with
      | None => Throws TypeError
      | Some combos =>
          let '(matching, combo) := firstCombination combos (entities joinResult) in
          Returns (resultOfEntities type matching combo)
      end
  end.

(** [evaluateSignalWithEvidence]. *)
Definition evaluateSignalWithEvidence (joinResult : JoinResult)
    (signalConfig : SignalConfig) (allLensIds : list string) : Outcome SignalResult :=
  let evidence := lensesWithEvidence joinResult in
  let type := requiresType signalConfig in
  let result (f : bool) (combo : option (list string)) :=
    {| fired := f; satisfiedBy := evidence; rule := type;
       matchedCombination := combo; signalEntities := [] |} in
  match type with
  | RAll => Returns (result (coversAll allLensIds evidence) None)
  | RAny => Returns (result (negb (Nat.eqb (length evidence) 0)) None)
  | RThreshold =>
      Returns (result (Qleb (orDefault (requiresMin signalConfig) 2)
                            (inject_Z (Z.of_nat (length evidence)))) None)
  | RCombination =>
      match sufficient signalConfig with
      | None => Throws TypeError
      | Some combos =>
          match List.find (fun combo => coversAll combo evidence) combos with
          | Some combo => Returns (result true (Some combo))
          | None => Returns (result false None)
          end
      end
  end.

(** [evaluateSignal(joinResult, signalConfig, allLensIds)]. *)
Definition evaluateSignal (joinResult : JoinResult) (signalConfig : SignalConfig)
    (allLensIds : list string) : Outcome SignalResult :=
  bindO (validateCombination signalConfig allLensIds) (fun _ =>
    if negb (Nat.eqb (length (entities joinResult)) 0)
    then evaluateSignalWithEntities joinResult signalConfig allLensIds
    else evaluateSignalWithEvidence joinResult signalConfig allLensIds).

(** What it means for one joined entity to satisfy the signal rule. *)
Definition entitySatisfies (signalConfig : SignalConfig) (allLensIds : list string)
    (e : JoinedEntity) : bool :=
  match requiresType signalConfig with
  | RAll => coversAll allLensIds (presentInLenses e)
  | RAny => true
  | RThreshold =>
      Qleb (orDefault (requiresMin signalConfig) 2) (inject_Z (Z.of_nat (lensCount e)))
  | RCombination =>
      match sufficient signalConfig with
      | None => false
      | Some combos => existsb (fun combo => coversAll combo (presentInLenses e)) combos
      end
  end.

(** Every lens of [ids] is among [present]. *)
Definition covers (ids present : list string) : Prop :=
  forall lens, In lens ids -> In lens present.

(** What it means for the lenses with evidence to satisfy the signal rule:
    all lenses have evidence; some lens has; at least [min] (2 by default)
    have; one of the sufficient combinations has evidence for each of its
    lenses. *)
Definition evidenceSatisfies (signalConfig : SignalConfig) (allLensIds evidence : list string)
    : Prop :=
  match requiresType signalConfig with
  | RAll => covers allLensIds evidence
  | RAny => evidence <> []
  | RThreshold =>
      (orDefault (requiresMin signalConfig) 2 <= inject_Z (Z.of_nat (length evidence)))%Q
  | RCombination =>
      exists combos combo,
        sufficient signalConfig = Some combos /\ In combo combos /\ covers combo evidence
  end.

(** [combo] is the first of the sufficient combinations whose lenses all
    have evidence. *)
Definition firstCovered (signalConfig : SignalConfig) (evidence combo : list string) : Prop :=
  requiresType signalConfig = RCombination /\
  exists combos before after,
    sufficient signalConfig = Some combos /\ combos = before ++ combo :: after /\
    covers combo evidence /\
    forall other, In other before -> ~ covers other evidence.

End Cron.

(* ================================================================== *)
(** * Untyped values                                                   *)
(* ================================================================== *)

Module Value.

(** A value of type [unknown] that came out of JSON, or [undefined]. A
    number is held by the decimal text [JSON.stringify] prints for it. *)
#[warnings="-register-all"]
Inductive Value : Type :=
| VUndefined
| VNull
| VBool (b : bool)
| VNumber (text : string)
| VString (s : string)
| VArray (items : list Value)
| VObject (fields : list (string * Value)).

Fixpoint lookup (k : string) (fields : list (string * Value)) : Value :=
  match fields with
  | [] => VUndefined
  | (k', v) :: rest => if String.eqb k' k then v else lookup k rest
  end.

(** [v.k] on a value that is neither null nor undefined, for a key that is
    no built-in property of strings or arrays. *)
Definition getProp (v : Value) (k : string) : Value :=
  match v with
  | VObject fields => lookup k fields
  | _ => VUndefined
  end.

(** [v?.k]. *)
Definition getPropOpt (v : Value) (k : string) : Value := getProp v k.

Definition isNullish (v : Value) : bool :=
  match v with VUndefined | VNull => true | _ => false end.

(** [a ?? b]. *)
Definition coalesce (a b : Value) : Value :=
  if isNullish a then b else a.

(** Truthiness. *)
Definition isTruthy (v : Value) : bool :=
  match v with
  | VUndefined | VNull => false
  | VBool b => b
  | VNumber text => negb (String.eqb text "0")
  | VString s => truthy s
  | VArray _ | VObject _ => true
  end.

Fixpoint mapO {A B : Type} (f : A -> Outcome B) (l : list A) : Outcome (list B) :=
  match l with
  | [] => Returns []
  | x :: rest =>
      bindO (f x) (fun y => bindO (mapO f rest) (fun ys => Returns (y :: ys)))
  end.

End Value.

(* ================================================================== *)
(** * lib/projections: item projection                                 *)
(* ================================================================== *)

Module Projections.
Import Value.

Record ItemFields : Type := {
  f_name : Value;
  f_url : Value;
  f_entityType : Value;
  f_description : Value;
}.

Definition defaultFields : ItemFields :=
  {| f_name := VString "unknown"; f_url := VString EmptyString;
     f_entityType := VString "unknown"; f_description := VString EmptyString |}.

(** [extractItemFields(item)], for an [item] that is not null. *)
Definition extractItemFields (item : Value) : ItemFields :=
  let props := getProp item "properties" in
  if negb (isTruthy props) then defaultFields
  else
    let company := getProp props "company" in
    let person := getProp props "person" in
    let article := getProp props "article" in
    let researchPaper := getProp props "researchPaper" in
    let custom := getProp props "custom" in
    {| f_name :=
         coalesce (getPropOpt company "name")
        (coalesce (getPropOpt person "name")
        (coalesce (getPropOpt article "title")
        (coalesce (getPropOpt researchPaper "title")
        (coalesce (getPropOpt custom "title")
        (coalesce (getProp props "description") (VString "unknown"))))));
       f_url := coalesce (getProp props "url") (VString EmptyString);
       f_entityType := coalesce (getProp props "type") (VString "unknown");
       f_description := coalesce (getProp props "description") (VString EmptyString) |}.

(** The arrow function of a [map]: an object literal that copies the
    properties [keys] of [e]. Reading a property of null or undefined is a
    [TypeError]. *)
Definition pick (keys : list string) (e : Value) : Outcome Value :=
  if isNullish e then Throws TypeError
  else Returns (VObject (map (fun k => (k, getProp e k)) keys)).

(** [xs?.map(e => ({...})) ?? null]. Calling [map] on a value that has
    none is a [TypeError]. *)
Definition projectList (keys : list string) (xs : Value) : Outcome Value :=
  match xs with
  | VUndefined | VNull => Returns VNull
  | VArray items => bindO (mapO (pick keys) items) (fun ys => Returns (VArray ys))
  | _ => Throws TypeError
  end.

Definition evaluationKeys : list string := ["criterion"; "satisfied"].
Definition enrichmentKeys : list string := ["description"; "format"; "result"].

Definition projected (itemId : Value) (fields : ItemFields)
    (evaluations enrichments : Value) : Value :=
  VObject [("id", itemId);
           ("name", f_name fields);
           ("url", f_url fields);
           ("entityType", f_entityType fields);
           ("description", f_description fields);
           ("evaluations", evaluations);
           ("enrichments", enrichments)].

(** [projectItem(item)]. *)
Definition projectItem (item : Value) : Outcome Value :=
  if isNullish item then Throws TypeError
  else
    let fields := extractItemFields item in
    bindO (projectList evaluationKeys (getProp item "evaluations")) (fun projectedEvals =>
    bindO (projectList enrichmentKeys (getProp item "enrichments")) (fun projectedEnrichments =>
    Returns (projected (getProp item "id") fields projectedEvals projectedEnrichments))).

(** The [some] of [hasSatisfiedEvaluation]: it stops at the first
    evaluation whose [satisfied] is the string [yes]; reading [satisfied] of
    null or undefined is a [TypeError]. *)
Fixpoint someSatisfied (evaluations : list Value) : Outcome bool :=
  match evaluations with
  | [] => Returns false
  | e :: rest =>
      if isNullish e then Throws TypeError
      else
        match getProp e "satisfied" with
        | VString s => if String.eqb s "yes" then Returns true else someSatisfied rest
        | _ => someSatisfied rest
        end
  end.

(** [hasSatisfiedEvaluation(item)]. A value that is truthy, is no array and
    has no [length] of zero has no [some] to call. *)
Definition hasSatisfiedEvaluation (item : Value) : Outcome bool :=
  if isNullish item then Throws TypeError
  else
    let evaluations := getProp item "evaluations" in
    if negb (isTruthy evaluations) then Returns true
    else
      match evaluations with
      | VArray [] => Returns true
      | VArray evs => someSatisfied evs
      | VObject fields =>
          match lookup "length" fields with
          | VNumber text => if String.eqb text "0" then Returns true else Throws TypeError
          | _ => Throws TypeError
          end
      | _ => Throws TypeError
      end.

(** [items.filter(f)] for a callback that may throw. *)
Fixpoint filterO {A : Type} (f : A -> Outcome bool) (l : list A) : Outcome (list A) :=
  match l with
  | [] => Returns []
  | x :: rest =>
      bindO (f x) (fun keep =>
      bindO (filterO f rest) (fun kept =>
      Returns (if keep then x :: kept else kept)))
  end.

Record Filtered : Type := {
  data : list Value;
  total : nat;
  included : nat;
  excluded : Z;
}.

(** [filterAndProjectItems(items)]. *)
Definition filterAndProjectItems (items : list Value) : Outcome Filtered :=
  let total := length items in
  bindO (filterO hasSatisfiedEvaluation items) (fun passing =>
  bindO (mapO projectItem passing) (fun data =>
  Returns {| data := data; total := total; included := length data;
             excluded := Z.of_nat total - Z.of_nat (length data) |})).

(** An object without its property [k]. *)
Definition dropProp (k : string) (fields : list (string * Value)) : list (string * Value) :=
  List.filter (fun kv => negb (String.eqb (fst kv) k)) fields.

(** The value stored under the key [k], without the [content] of the
    object stored under [properties]. *)
Definition stripped (k : string) (v : Value) : Value :=
  if String.eqb k "properties" then
    match v with
    | VObject props => VObject (dropProp "content" props)
    | other => other
    end
  else v.

(** An item without the [content] of its [properties]. *)
Definition withoutContent (item : Value) : Value :=
  match item with
  | VObject fields => VObject (map (fun kv => (fst kv, stripped (fst kv) (snd kv))) fields)
  | other => other
  end.

End Projections.

(* ================================================================== *)
(** * workflows/helpers: item summary                                  *)
(* ================================================================== *)

Module Summaries.
Import Value.

(** [String(v)], as a template literal applies it. *)
Fixpoint toStr (v : Value) : string :=
  match v with
  | VUndefined => "undefined"
  | VNull => "null"
  | VBool b => if b then "true" else "false"
  | VNumber text => text
  | VString s => s
  | VArray items =>
      join "," (map (fun x => if isNullish x then EmptyString else toStr x) items)
  | VObject _ => "[object Object]"
  end.

(** [summarizeItem(item)], for an [item] that is not null. The result is a
    string, or the name as it is when the item has no URL. *)
Definition summarizeItem (item : Value) : Value :=
  let props := getProp item "properties" in
  if negb (isTruthy props) then VString "unknown"
  else
    let company := getProp props "company" in
    let person := getProp props "person" in
    let article := getProp props "article" in
    let name :=
      coalesce (getPropOpt company "name")
     (coalesce (getPropOpt person "name")
     (coalesce (getPropOpt article "title")
     (coalesce (getProp props "description") (VString "unknown")))) in
    let url := coalesce (getProp props "url") (VString EmptyString) in
    if isTruthy url then VString (toStr name +:+ " (" +:+ toStr url +:+ ")")
    else name.

End Summaries.

(* ================================================================== *)
(** * qd.winnow: niche classification                                  *)
(* ================================================================== *)

Module QdWinnow.

Record Evaluation : Type := {
  criterion : string;
  satisfied : string;
}.

Record Classification : Type := {
  niche : string;
  vector : list bool;
}.

Definition bit (b : bool) : string := if b then "1" else "0".

(** Modelled from the spec: [classifyItem] of qdWinnow.ts, whose source is
    not part of the files at hand (its tests are). Position [i] of the
    vector is true iff the evaluation for criterion [i] has
    [satisfied == "yes"]; an item without an evaluation for a criterion
    contributes false there; the niche key is the vector encoded as a
    comma-separated string of ones and zeros. *)
Definition classifyItem (evaluations : list Evaluation) (criteria : list string)
    : Classification :=
  let vec :=
    map (fun c =>
           match List.find (fun e => String.eqb (criterion e) c) evaluations with
           | Some e => String.eqb (satisfied e) "yes"
           | None => false
           end) criteria in
  {| niche := join "," (map bit vec); vector := vec |}.

End QdWinnow.

(* ================================================================== *)
(** * semantic.cron: template expander                                 *)
(* ================================================================== *)

Module Templates.
Import Value.

(** ** [JSON.stringify] *)

Definition dq : ascii := ascii_of_nat 34.
Definition backslash : ascii := ascii_of_nat 92.

Definition hexDigit (n : nat) : ascii :=
  if Nat.ltb n 10 then ascii_of_nat (48 + n) else ascii_of_nat (87 + n).

(** The escape of one character inside a JSON string. *)
Definition escapeChar (c : ascii) : string :=
  let n := nat_of_ascii c in
  if Nat.eqb n 34 then String backslash (String dq EmptyString)
  else if Nat.eqb n 92 then String backslash (String backslash EmptyString)
  else if Nat.eqb n 8 then String backslash "b"
  else if Nat.eqb n 9 then String backslash "t"
  else if Nat.eqb n 10 then String backslash "n"
  else if Nat.eqb n 12 then String backslash "f"
  else if Nat.eqb n 13 then String backslash "r"
  else if Nat.ltb n 32 then
    String backslash ("u00" +:+ String (hexDigit (n / 16)) (String (hexDigit (n mod 16)) EmptyString))
  else String c EmptyString.

Fixpoint escape (s : string) : string :=
  match s with
  | EmptyString => EmptyString
  | String c rest => escapeChar c +:+ escape rest
  end.

Definition quote (s : string) : string :=
  String dq (escape s +:+ String dq EmptyString).

(** [JSON.stringify(v)]; [None] is [undefined]. An undefined array element
    prints as null, an undefined property is left out. *)
Fixpoint stringify (v : Value) : option string :=
  match v with
  | VUndefined => None
  | VNull => Some "null"
  | VBool b => Some (if b then "true" else "false")
  | VNumber text => Some text
  | VString s => Some (quote s)
  | VArray items =>
      Some ("[" +:+ join ","
              (map (fun x => match stringify x with Some s => s | None => "null" end) items)
            +:+ "]")
  | VObject fields =>
      Some ("{" +:+ join ","
              (flat_map (fun kv => let '(k, x) := kv in
                           match stringify x with
                           | Some s => [quote k +:+ ":" +:+ s]
                           | None => []
                           end) fields)
            +:+ "}")
  end.

(** ** [String.prototype.replaceAll] with a string pattern *)

(** The replacement text for one occurrence: [$$] is a dollar sign, [$&] the
    matched text, [$`] the text before the match and [$'] the text after it;
    without capture groups every other [$] stands for itself. *)
Fixpoint getSubstitution (matched before after replacement : string) : string :=
  match replacement with
  | EmptyString => EmptyString
  | String a tl =>
      if Ascii.eqb a "$" then
        match tl with
        | String b tl' =>
            if Ascii.eqb b "$" then String "$" (getSubstitution matched before after tl')
            else if Ascii.eqb b "&" then matched +:+ getSubstitution matched before after tl'
            else if Ascii.eqb b "`" then before +:+ getSubstitution matched before after tl'
            else if Ascii.eqb b "'" then after +:+ getSubstitution matched before after tl'
            else String a (getSubstitution matched before after tl)
        | EmptyString => String a EmptyString
        end
      else String a (getSubstitution matched before after tl)
  end.

Fixpoint drop (n : nat) (s : string) : string :=
  match n, s with
  | S k, String _ rest => drop k rest
  | _, _ => s
  end.

(** The scan of [replaceAll] from a position on: [before] is the text
    already passed, [skip] the number of characters that still belong to the
    occurrence replaced last. *)
Fixpoint replaceFrom (pattern replacement before : string) (skip : nat) (s : string) : string :=
  match s with
  | EmptyString => EmptyString
  | String c rest =>
      match skip with
      | S k => replaceFrom pattern replacement (before +:+ String c EmptyString) k rest
      | O =>
          if String.prefix pattern s then
            getSubstitution pattern before (drop (String.length pattern) s) replacement
            +:+ replaceFrom pattern replacement (before +:+ String c EmptyString)
                  (String.length pattern - 1) rest
          else
            String c (replaceFrom pattern replacement (before +:+ String c EmptyString) 0 rest)
      end
  end.

(** [s.replaceAll(pattern, replacement)] for a non-empty [pattern]. *)
Definition replaceAll (pattern replacement s : string) : string :=
  replaceFrom pattern replacement EmptyString 0 s.

(** ** [s.match(/\{\{[^}]+\}\}/g)] *)

(** The longest prefix without a closing brace, and what follows it. *)
Fixpoint runNonBrace (s : string) : string * string :=
  match s with
  | EmptyString => (EmptyString, EmptyString)
  | String c rest =>
      if Ascii.eqb c "}" then (EmptyString, s)
      else let '(r, t) := runNonBrace rest in (String c r, t)
  end.

(** The match of the pattern that starts at the head of [s], if any. *)
Definition tokenAt (s : string) : option string :=
  match s with
  | String a (String b t) =>
      if Ascii.eqb a "{" && Ascii.eqb b "{" then
        match runNonBrace t with
        | (String _ _ as r, String c (String d _)) =>
            if Ascii.eqb c "}" && Ascii.eqb d "}" then Some ("{{" +:+ r +:+ "}}") else None
        | _ => None
        end
      else None
  | _ => None
  end.

(** All matches, left to right, without overlap. *)
Fixpoint matchTokens (skip : nat) (s : string) : list string :=
  match s with
  | EmptyString => []
  | String c rest =>
      match skip with
      | S k => matchTokens k rest
      | O =>
          match tokenAt s with
          | Some tok => tok :: matchTokens (String.length tok - 1) rest
          | None => matchTokens 0 rest
          end
      end
  end.

(** ** The expander *)

(** [Object.entries(variables)], in the order it enumerates them. *)
Definition Variables : Type := list (string * string).

(** The [for] loop over the variables. *)
Definition substituteAll (json : string) (variables : Variables) : string :=
  foldl (fun expanded kv =>
           replaceAll ("{{" +:+ fst kv +:+ "}}") (snd kv) expanded)
        json variables.

Definition unresolvedMessage (unresolved : list string) : string :=
  "Unresolved template variables: " +:+ join ", " (Cron.uniq unresolved).

Section Expand.
(** [JSON.parse]; [None] when it throws a [SyntaxError]. *)
Variable JSON_parse : string -> option Value.

(** [expandTemplates(config, variables)]. *)
Definition expandTemplates (config : Value) (variables : Variables) : Outcome Value :=
  match stringify config with
  | None => Throws TypeError
  | Some json =>
      let expanded := substituteAll json variables in
      match matchTokens 0 expanded with
      | [] =>
          match JSON_parse expanded with
          | Some parsed => Returns parsed
          | None => Throws SyntaxError
          end
      | unresolved => Throws (WorkflowError (unresolvedMessage unresolved) "validate" false)
      end
  end.

(** [variables ? expandTemplates(rawConfig, variables) : rawConfig] of the
    workflow; an object, the empty one included, is truthy. *)
Definition resolveConfig (rawConfig : Value) (variables : option Variables) : Outcome Value :=
  match variables with
  | Some vars => expandTemplates rawConfig vars
  | None => Returns rawConfig
  end.

End Expand.

(** A text holds a template token when it holds two opening braces, then a
    non-empty run without closing brace, then two closing braces. *)
Fixpoint braceFree (r : string) : bool :=
  match r with
  | EmptyString => true
  | String c rest => negb (Ascii.eqb c "}") && braceFree rest
  end.

Definition isTokenBody (r : string) : Prop :=
  r <> EmptyString /\ braceFree r = true.

Definition hasToken (text : string) : Prop :=
  exists pre r post, isTokenBody r /\ text = pre +:+ "{{" +:+ r +:+ "}}" +:+ post.

(** A name or a key that holds no brace, opening or closing. *)
Fixpoint plainName (r : string) : bool :=
  match r with
  | EmptyString => true
  | String c rest => negb (Ascii.eqb c "{") && negb (Ascii.eqb c "}") && plainName rest
  end.

(** A text without opening brace. *)
Fixpoint noOpening (r : string) : bool :=
  match r with
  | EmptyString => true
  | String c rest => negb (Ascii.eqb c "{") && noOpening rest
  end.

(** The text holds the token of [name]. *)
Definition holdsTokenOf (text name : string) : Prop :=
  exists pre post, text = pre +:+ "{{" +:+ name +:+ "}}" +:+ post.

End Templates.

(* ================================================================== *)
(** * workflows/helpers: effects, polling, item collection             *)
(* ================================================================== *)

Module Helpers.
Import Value.

(** ** The upstream, the task store and the clock *)

Record Progress : Type := {
  found : Z;
  analyzed : Z;
}.

Record Search : Type := {
  progress : option Progress;
}.

(** A webset as the workflows read it: id, status, searches, and the
    enrichment definitions (id, description). *)
Record Webset : Type := {
  websetId : string;
  status : string;
  searches : option (list Search);
  enrichmentDefs : option (list (string * string));
}.

(** What [listAll] streams: items, then the end or a failure. *)
Inductive ItemStream : Type :=
| StreamEnd
| StreamItem (item : Value) (rest : ItemStream)
| StreamFail (e : Exn).

(** The parameters of [exa.websets.create]. *)
Record CreateParams : Type := {
  searchQuery : Value;
  searchCount : Z;
  searchEntity : option Value;
  searchCriteria : option (list Value);
  createEnrichments : option (list Value);
}.

(** A call made to the upstream, or a sleep. *)
Inductive Call : Type :=
| CreateWebset (params : CreateParams)
| GetWebset (ws : string)
| CancelWebset (ws : string)
| DeleteWebset (ws : string)
| ListAll (ws : string)
| Sleep (ms : Z).

(** An argument of [store.updateProgress]. *)
Record ProgressUpdate : Type := {
  step : string;
  completed : Z;
  total : Z;
  message : option string;
}.

(** What the world answers. Every answer is indexed by how many calls of
    its kind came before, so that an environment is any sequence of
    answers: the clock may show any times, the task may be found cancelled
    at any check, every upstream call may fail. *)
Record Env : Type := {
  clock : nat -> Z;
  cancelled : nat -> bool;
  onCreate : nat -> Outcome Webset;
  onGet : nat -> Outcome Webset;
  onCancel : nat -> Outcome unit;
  onDelete : nat -> Outcome unit;
  onListAll : nat -> ItemStream;
}.

(** How far the world has been consulted, and what was done to it. *)
Record World : Type := {
  clockReads : nat;
  cancelChecks : nat;
  creates : nat;
  gets : nat;
  cancels : nat;
  deletes : nat;
  listings : nat;
  calls : list Call;
  progressLog : list ProgressUpdate;
}.

Definition initialWorld : World :=
  {| clockReads := 0; cancelChecks := 0; creates := 0; gets := 0; cancels := 0;
     deletes := 0; listings := 0; calls := []; progressLog := [] |}.

(** A computation: from a world to an outcome and a world, or [None] when
    the fuel of a loop ran out before it ended. *)
Definition M (A : Type) : Type := World -> option (Outcome A * World).

Definition ret {A : Type} (a : A) : M A := fun w => Some (Returns a, w).

Definition throw {A : Type} (e : Exn) : M A := fun w => Some (Throws e, w).

Definition bind {A B : Type} (m : M A) (k : A -> M B) : M B :=
  fun w =>
    match m w with
    | None => None
    | Some (Throws e, w') => Some (Throws e, w')
    | Some (Returns a, w') => k a w'
    end.

(** [try { m } catch { }]. *)
Definition attempt (m : M unit) : M unit :=
  fun w =>
    match m w with
    | None => None
    | Some (_, w') => Some (Returns tt, w')
    end.

Definition lift {A : Type} (o : Outcome A) : M A := fun w => Some (o, w).

Notation "'let*' x ':=' m 'in' k" := (bind m (fun x => k))
  (at level 10, x name, m at level 100, k at level 200, only parsing).
Notation "'run' m 'then' k" := (bind m (fun _ => k))
  (at level 10, m at level 100, k at level 200, only parsing).

Definition logCall (c : Call) (w : World) : World :=
  {| clockReads := clockReads w; cancelChecks := cancelChecks w; creates := creates w;
     gets := gets w; cancels := cancels w; deletes := deletes w; listings := listings w;
     calls := calls w ++ [c]; progressLog := progressLog w |}.

(** The world after one more reading of the clock. *)
Definition tick (w : World) : World :=
  {| clockReads := S (clockReads w); cancelChecks := cancelChecks w;
     creates := creates w; gets := gets w; cancels := cancels w;
     deletes := deletes w; listings := listings w;
     calls := calls w; progressLog := progressLog w |}.

Section Effects.
Variable env : Env.

(** [Date.now()]. *)
Definition now : M Z := fun w => Some (Returns (clock env (clockReads w)), tick w).

(** [isCancelled(taskId, store)]. *)
Definition isCancelled : M bool := fun w =>
  Some (Returns (cancelled env (cancelChecks w)),
        {| clockReads := clockReads w; cancelChecks := S (cancelChecks w);
           creates := creates w; gets := gets w; cancels := cancels w;
           deletes := deletes w; listings := listings w;
           calls := calls w; progressLog := progressLog w |}).

(** [store.updateProgress(taskId, p)]. *)
Definition updateProgress (p : ProgressUpdate) : M unit := fun w =>
  Some (Returns tt,
        {| clockReads := clockReads w; cancelChecks := cancelChecks w;
           creates := creates w; gets := gets w; cancels := cancels w;
           deletes := deletes w; listings := listings w;
           calls := calls w; progressLog := progressLog w ++ [p] |}).

(** [await exa.websets.create(params)]. *)
Definition websetsCreate (params : CreateParams) : M Webset := fun w =>
  Some (onCreate env (creates w),
        {| clockReads := clockReads w; cancelChecks := cancelChecks w;
           creates := S (creates w); gets := gets w; cancels := cancels w;
           deletes := deletes w; listings := listings w;
           calls := calls w ++ [CreateWebset params]; progressLog := progressLog w |}).

(** [await exa.websets.get(id)]. *)
Definition websetsGet (ws : string) : M Webset := fun w =>
  Some (onGet env (gets w),
        {| clockReads := clockReads w; cancelChecks := cancelChecks w;
           creates := creates w; gets := S (gets w); cancels := cancels w;
           deletes := deletes w; listings := listings w;
           calls := calls w ++ [GetWebset ws]; progressLog := progressLog w |}).

(** [await exa.websets.cancel(id)]. *)
Definition websetsCancel (ws : string) : M unit := fun w =>
  Some (onCancel env (cancels w),
        {| clockReads := clockReads w; cancelChecks := cancelChecks w;
           creates := creates w; gets := gets w; cancels := S (cancels w);
           deletes := deletes w; listings := listings w;
           calls := calls w ++ [CancelWebset ws]; progressLog := progressLog w |}).

(** [await exa.websets.delete(id)]. *)
Definition websetsDelete (ws : string) : M unit := fun w =>
  Some (onDelete env (deletes w),
        {| clockReads := clockReads w; cancelChecks := cancelChecks w;
           creates := creates w; gets := gets w; cancels := cancels w;
           deletes := S (deletes w); listings := listings w;
           calls := calls w ++ [DeleteWebset ws]; progressLog := progressLog w |}).

(** [exa.websets.items.listAll(id)]. *)
Definition listAll (ws : string) : M ItemStream := fun w =>
  Some (Returns (onListAll env (listings w)),
        {| clockReads := clockReads w; cancelChecks := cancelChecks w;
           creates := creates w; gets := gets w; cancels := cancels w;
           deletes := deletes w; listings := S (listings w);
           calls := calls w ++ [ListAll ws]; progressLog := progressLog w |}).

(** [await sleep(ms)]. *)
Definition sleep (ms : Z) : M unit := fun w => Some (Returns tt, logCall (Sleep ms) w).

(** ** Step tracker *)

Record StepTiming : Type := {
  stepName : string;
  durationMs : Z;
}.

(** [tracker.track(name, startMs)]: the timing that is pushed. *)
Definition track (name : string) (startMs : Z) : M StepTiming :=
  let* t := now in ret {| stepName := name; durationMs := t - startMs |}.

(** ** Polling *)

(** [searches?.[searches.length - 1]?.progress]. *)
Definition lastProgress (ws : Webset) : option Progress :=
  match searches ws with
  | Some ss => match last ss with Some s => progress s | None => None end
  | None => None
  end.

Definition searchingUpdate (stepNum totalSteps : Z) (prog : Progress) : ProgressUpdate :=
  {| step := "searching"; completed := stepNum; total := totalSteps;
     message := Some ("Found " +:+ pretty (found prog) +:+ "/"
                      +:+ pretty (analyzed prog) +:+ " analyzed") |}.

(** The [while (true)] loop of [pollUntilIdle]; one unit of fuel per
    iteration. *)
Fixpoint pollLoop (fuel : nat) (ws : string) (deadline stepNum totalSteps : Z)
    : M (Webset * bool) :=
  match fuel with
  | O => fun _ => None
  | S fuel' =>
      let* webset := websetsGet ws in
      if String.eqb (status webset) "idle" then ret (webset, false)
      else if String.eqb (status webset) "paused"
      then throw (PlainError "Webset was paused unexpectedly")
      else
        let* t := now in
        if (deadline <=? t)%Z then ret (webset, true)
        else
          run match lastProgress webset with
              | Some prog => updateProgress (searchingUpdate stepNum totalSteps prog)
              | None => ret tt
              end
          then
          let* stop := isCancelled in
          if stop then (run websetsCancel ws then ret (webset, false))
          else (run sleep 2000 then pollLoop fuel' ws deadline stepNum totalSteps)
  end.

(** [pollUntilIdle(opts)]. *)
Definition pollUntilIdle (fuel : nat) (ws : string) (timeoutMs stepNum totalSteps : Z)
    : M (Webset * bool) :=
  let* t0 := now in
  pollLoop fuel ws (t0 + timeoutMs) stepNum totalSteps.

(** Iteration [i] of a poll loop entered in world [w] fetches a webset that
    is neither idle nor paused, before the deadline, and does not find the
    task cancelled: the loop sleeps and goes round again. *)
Definition keepsPolling (deadline : Z) (w : World) (i : nat) : Prop :=
  exists webset,
    onGet env (gets w + i) = Returns webset /\
    status webset <> "idle" /\ status webset <> "paused" /\
    (clock env (clockReads w + i) < deadline)%Z /\
    cancelled env (cancelChecks w + i) = false.

(** Iteration [k] fetches [webset], neither idle nor paused, and finds the
    deadline reached. *)
Definition findsDeadline (deadline : Z) (w : World) (k : nat) (webset : Webset) : Prop :=
  onGet env (gets w + k) = Returns webset /\
  status webset <> "idle" /\ status webset <> "paused" /\
  (deadline <= clock env (clockReads w + k))%Z.

(** ** Item collection *)

(** The [for await] loop of [collectItems]. *)
Fixpoint collectFrom (cap : Z) (items : list Value) (s : ItemStream)
    : Outcome (list Value) :=
  match s with
  | StreamEnd => Returns items
  | StreamFail e => Throws e
  | StreamItem item rest =>
      let items' := items ++ [item] in
      if (cap <=? Z.of_nat (length items'))%Z then Returns items'
      else collectFrom cap items' rest
  end.

Definition defaultCap : Z := 1000.

(** [collectItems(exa, websetId, cap = 1000)]; [None] is an omitted cap. *)
Definition collectItems (ws : string) (cap : option Z) : M (list Value) :=
  let* s := listAll ws in
  lift (collectFrom (match cap with Some c => c | None => defaultCap end) [] s).

(** ** Synchronous code *)

(** A computation that awaits nothing: all it can do to the world is read
    the clock. It is given the clock and the number of readings made so
    far, and returns its outcome with the number of readings made by
    then. *)
Definition Sync (A : Type) : Type := (nat -> Z) -> nat -> Outcome A * nat.

(** A synchronous computation, run in the world. *)
Definition sync {A : Type} (f : Sync A) : M A := fun w =>
  let '(o, reads) := f (clock env) (clockReads w) in
  Some (o, {| clockReads := reads; cancelChecks := cancelChecks w;
              creates := creates w; gets := gets w; cancels := cancels w;
              deletes := deletes w; listings := listings w;
              calls := calls w; progressLog := progressLog w |}).

End Effects.

(** ** What a stream and a poll look like from outside *)

(** The items a stream delivers before it ends or fails. *)
Fixpoint streamItems (s : ItemStream) : list Value :=
  match s with
  | StreamItem item rest => item :: streamItems rest
  | _ => []
  end.

(** How a stream finishes: [None] for a regular end, or the failure. *)
Fixpoint streamFailure (s : ItemStream) : option Exn :=
  match s with
  | StreamEnd => None
  | StreamFail e => Some e
  | StreamItem _ rest => streamFailure rest
  end.

(** The calls of [k] rounds of polling that go round again: a fetch and a
    sleep of two seconds each. *)
Fixpoint rounds (k : nat) (ws : string) : list Call :=
  match k with
  | O => []
  | S k' => GetWebset ws :: Sleep 2000 :: rounds k' ws
  end.

End Helpers.

(* ================================================================== *)
(** * workflows/lifecycle: lifecycle.harvest                           *)
(* ================================================================== *)

Module Lifecycle.
Import Value Helpers.

(** The task arguments [lifecycleHarvestWorkflow] reads. *)
Record Args : Type := {
  query : Value;
  entity : Value;
  criteria : option (list Value);
  count : option Z;
  enrichments : option (list Value);
  timeout : option Z;
  cleanup : option bool;
}.

(** The result; [None] in [timedOut] is an absent property. *)
Record HarvestResult : Type := {
  summary : string;
  resultWebsetId : string;
  items : list Value;
  itemCount : nat;
  searchProgress : option Progress;
  enrichmentCount : nat;
  duration : Z;
  steps : list StepTiming;
  timedOut : option bool;
}.

Definition quoteMark : string := String (ascii_of_nat 34) EmptyString.

(** [validateRequired(args, field, hint)], on the value of [args[field]]. *)
Definition validateRequired (v : Value) (field : string) (hint : string) : Outcome unit :=
  if isNullish v then
    Throws (WorkflowError
      (if truthy hint then field +:+ " is required. " +:+ hint
       else field +:+ " is required")
      "validate" false)
  else Returns tt.

(** The hint [lifecycleHarvestWorkflow] gives for its query. *)
Definition queryHint : string :=
  "Natural language search query, e.g. " +:+ quoteMark
  +:+ "AI startups in San Francisco" +:+ quoteMark.

Definition hasKey (k : string) (fields : list (string * Value)) : bool :=
  existsb (fun kv => String.eqb (fst kv) k) fields.

(** [validateEntity(entity)]. *)
Definition validateEntity (e : Value) : Outcome Value :=
  let ok :=
    match e with
    | VObject fields => hasKey "type" fields
    | _ => false
    end in
  if ok then Returns e
  else Throws (WorkflowError
         ("entity must be an object: {type: " +:+ quoteMark +:+ "company" +:+ quoteMark
          +:+ "|" +:+ quoteMark +:+ "person" +:+ quoteMark
          +:+ "|" +:+ quoteMark +:+ "article" +:+ quoteMark +:+ "|...}")
         "validate" false).

(** [(duration / 1000).toFixed(0)]. *)
Definition seconds (durationMs : Z) : string :=
  if (durationMs <? 0)%Z then "-" +:+ pretty ((- durationMs + 500) / 1000)%Z
  else pretty ((durationMs + 500) / 1000)%Z.

Definition harvestSummary (n : nat) (ws : string) (enrichmentCount : nat) (durationMs : Z)
    : string :=
  "Harvested " +:+ pretty n +:+ " items from webset " +:+ ws +:+ " ("
  +:+ pretty enrichmentCount +:+ " enrichments) in " +:+ seconds durationMs +:+ "s".

Definition orElse {A : Type} (a : option A) (b : A) : A :=
  match a with Some x => x | None => b end.

Section Workflow.
Variable env : Env.

(** The workflow from the end of the poll step on: the checkpoint after the
    poll, the collection, the optional cleanup and the result. *)
Definition afterPoll (args : Args) (startTime : Z) (ws : string)
    (tracked : list StepTiming) (finalWebset : Webset) (pollTimedOut : bool)
    : M (option HarvestResult) :=
  let* stop := isCancelled env in
  if stop then ret None
  else
    let* step3 := now env in
    run updateProgress
          {| step := "collecting"; completed := 3; total := 4; message := None |}
    then
    let* collected := collectItems env ws (Some (orElse (count args) 25 * 2)%Z) in
    let* tCollect := track env "collect" step3 in
    run (if orElse (cleanup args) false then attempt (websetsDelete env ws) else ret tt)
    then
    let enrichmentCount :=
      match enrichments args with Some l => length l | None => 0%nat end in
    run updateProgress
          {| step := "complete"; completed := 4; total := 4; message := None |}
    then
    let* tEnd := now env in
    let duration := (tEnd - startTime)%Z in
    ret (Some
      {| summary := harvestSummary (length collected) ws enrichmentCount duration;
         resultWebsetId := ws;
         items := collected;
         itemCount := length collected;
         searchProgress := lastProgress finalWebset;
         enrichmentCount := enrichmentCount;
         duration := duration;
         steps := tracked ++ [tCollect];
         timedOut := if pollTimedOut then Some true else None |}).

(** What the workflow holds when it starts to poll. *)
Record Started : Type := {
  startTime : Z;
  createdWebset : string;
  trackedSoFar : list StepTiming;
  pollStart : Z;
}.

(** The workflow up to the poll step: validation, the first checkpoint, the
    creation of the webset and the checkpoint after it. [None] is the
    [null] a cancelled run returns. *)
Definition beforePoll (args : Args) : M (option Started) :=
  let* start := now env in
  let* step0 := now env in
  run lift (validateRequired (query args) "query" queryHint) then
  let* entity := lift (validateEntity (entity args)) in
  let* tValidate := track env "validate" step0 in
  let* stop := isCancelled env in
  if stop then ret None
  else
    let* step1 := now env in
    run updateProgress
          {| step := "creating"; completed := 1; total := 4; message := None |}
    then
    let* webset := websetsCreate env
                     {| searchQuery := query args;
                        searchCount := orElse (count args) 25%Z;
                        searchEntity := Some entity;
                        searchCriteria := criteria args;
                        createEnrichments := enrichments args |} in
    let ws := websetId webset in
    let* tCreate := track env "create" step1 in
    let* stop1 := isCancelled env in
    if stop1 then (run websetsCancel env ws then ret None)
    else
      let* step2 := now env in
      run updateProgress
            {| step := "polling"; completed := 2; total := 4; message := None |}
      then
      ret (Some {| startTime := start; createdWebset := ws;
                   trackedSoFar := [tValidate; tCreate]; pollStart := step2 |}).

(** [lifecycleHarvestWorkflow(taskId, args, exa, store)]; [None] is the
    [null] a cancelled run returns. [fuel] bounds the iterations of the
    poll loop. *)
Definition lifecycleHarvestWorkflow (fuel : nat) (args : Args) : M (option HarvestResult) :=
  let* started := beforePoll args in
  match started with
  | None => ret None
  | Some st =>
      let* polled := pollUntilIdle env fuel (createdWebset st)
                       (orElse (timeout args) 300000%Z) 2%Z 4%Z in
      let* tPoll := track env "poll" (pollStart st) in
      afterPoll args (startTime st) (createdWebset st) (trackedSoFar st ++ [tPoll])
                (fst polled) (snd polled)
  end.

End Workflow.

End Lifecycle.

(* ================================================================== *)
(** * semantic.cron: the workflow up to its last cancellation check    *)
(* ================================================================== *)

Module CronWorkflow.
Import Value Helpers.

(** [LensConfig.source]. *)
Record LensSource : Type := {
  sourceQuery : Value;
  sourceWebsetId : option string;
  sourceEntity : option Value;
  sourceCriteria : option (list Value);
  sourceEnrichments : option (list Value);
  sourceCount : option Z;
}.

Record LensConfig : Type := {
  lensConfigId : string;
  source : LensSource;
}.

(** [Record<string, string>]: lens id to webset id, in insertion order. *)
Definition WebsetIds : Type := list (string * string).

Fixpoint setKey {A : Type} (k : string) (v : A) (m : list (string * A)) : list (string * A) :=
  match m with
  | [] => [(k, v)]
  | (k', old) :: rest =>
      if String.eqb k' k then (k', v) :: rest else (k', old) :: setKey k v rest
  end.

(** [m[k]], for a key that the record holds or that objects do not inherit
    (see [inheritedNames] below). *)
Fixpoint getKey {A : Type} (k : string) (m : list (string * A)) : option A :=
  match m with
  | [] => None
  | (k', v) :: rest => if String.eqb k' k then Some v else getKey k rest
  end.

(** The value of a text of decimal digits. *)
Fixpoint digitsValue (s : string) (acc : N) : option N :=
  match s with
  | EmptyString => Some acc
  | String c rest =>
      let n := N_of_ascii c in
      if (48 <=? n)%N && (n <=? 57)%N
      then digitsValue rest (acc * 10 + (n - 48))%N
      else None
  end.

(** A property key that is an array index: the decimal text, without
    leading zero, of an integer below 2^32 - 1. *)
Definition arrayIndex (k : string) : option N :=
  match k with
  | EmptyString => None
  | String c rest =>
      if Ascii.eqb c "0" && negb (String.eqb rest EmptyString) then None
      else match digitsValue k 0 with
           | Some n => if (n <=? 4294967294)%N then Some n else None
           | None => None
           end
  end.

Fixpoint insertByIndex (n : N) (v : string) (l : list (N * string)) : list (N * string) :=
  match l with
  | [] => [(n, v)]
  | (m, u) :: rest =>
      if (n <? m)%N then (n, v) :: l else (m, u) :: insertByIndex n v rest
  end.

(** The values under the keys that are array indices, by ascending index. *)
Definition indexedValues (m : WebsetIds) : list string :=
  map snd (foldl (fun sorted kv =>
                    match arrayIndex (fst kv) with
                    | Some n => insertByIndex n (snd kv) sorted
                    | None => sorted
                    end) [] m).

(** [Object.values(websetIds)]: the values under the keys that are array
    indices first, by ascending index, then the others in insertion
    order. *)
Definition valuesOf (m : WebsetIds) : list string :=
  indexedValues m
  ++ map snd (List.filter (fun kv => match arrayIndex (fst kv) with
                                     | Some _ => false
                                     | None => true
                                     end) m).

(** [lens.source.websetId], when truthy. *)
Definition boundWebset (lens : LensConfig) : option string :=
  match sourceWebsetId (source lens) with
  | Some ws => if truthy ws then Some ws else None
  | None => None
  end.

(** What the loops over the lenses carry along: [websetIds], the
    enrichment definitions that [enrichmentMaps] is built from, and the
    steps tracked so far. *)
Record Progressed : Type := {
  websetIds : WebsetIds;
  enrichmentMaps : list (string * list (string * string));
  tracked : list StepTiming;
}.

(** What is in hand after the last cancellation check. *)
Record Collected : Type := {
  finalIds : WebsetIds;
  lensResults : list Cron.LensResult;
  trackedSteps : list StepTiming;
}.

Definition lensProgress (verb : string) (i totalLenses : nat) (lens : LensConfig)
    (done : Z) : ProgressUpdate :=
  {| step := verb +:+ " lens " +:+ pretty (S i) +:+ "/" +:+ pretty totalLenses
             +:+ ": " +:+ lensConfigId lens;
     completed := done; total := 8; message := None |}.

Definition defsOf (ws : Webset) : list (string * string) :=
  match enrichmentDefs ws with Some defs => defs | None => [] end.

Section Workflow.
Variable env : Env.
(** Lines 879 to 918 of the workflow: the evaluation filter, the enrichment
    resolution and the shape evaluation of the items collected for one
    lens. *)
Variable shapeItems : LensConfig -> list (string * string) -> list Value
                      -> M (list Cron.ShapedItem).

(** [for (const id of Object.values(websetIds)) await exa.websets.cancel(id)]. *)
Fixpoint cancelAll (ids : list string) : M unit :=
  match ids with
  | [] => ret tt
  | ws :: rest => run websetsCancel env ws then cancelAll rest
  end.

(** The creation loop of an initial run; [None] is [return null]. *)
Fixpoint createLoop (totalLenses i : nat) (lenses : list LensConfig) (st : Progressed)
    : M (option Progressed) :=
  match lenses with
  | [] => ret (Some st)
  | lens :: rest =>
      let* stepStart := now env in
      run updateProgress (lensProgress "creating" i totalLenses lens 1) then
      let* stop := isCancelled env in
      if stop then (run cancelAll (valuesOf (websetIds st)) then ret None)
      else
        let* made :=
          match boundWebset lens with
          | Some ws =>
              let* webset := websetsGet env ws in
              ret (webset, setKey (lensConfigId lens) ws (websetIds st))
          | None =>
              let* webset := websetsCreate env
                  {| searchQuery := sourceQuery (source lens);
                     searchCount := Lifecycle.orElse (sourceCount (source lens)) 50%Z;
                     searchEntity := sourceEntity (source lens);
                     searchCriteria := sourceCriteria (source lens);
                     createEnrichments := sourceEnrichments (source lens) |} in
              ret (webset, setKey (lensConfigId lens) (websetId webset) (websetIds st))
          end in
        let* t := track env ("create-" +:+ lensConfigId lens) stepStart in
        createLoop totalLenses (S i) rest
          {| websetIds := snd made;
             enrichmentMaps := setKey (lensConfigId lens) (defsOf (fst made))
                                      (enrichmentMaps st);
             tracked := tracked st ++ [t] |}
  end.

(** The loop of a re-evaluation over the webset ids it was given. *)
Fixpoint fetchLoop (totalLenses i : nat) (lenses : list LensConfig) (st : Progressed)
    : M Progressed :=
  match lenses with
  | [] => ret st
  | lens :: rest =>
      match getKey (lensConfigId lens) (websetIds st) with
      | Some ws =>
          if truthy ws then
            run updateProgress (lensProgress "fetching" i totalLenses lens 1) then
            let* webset := websetsGet env ws in
            fetchLoop totalLenses (S i) rest
              {| websetIds := websetIds st;
                 enrichmentMaps := setKey (lensConfigId lens) (defsOf webset)
                                          (enrichmentMaps st);
                 tracked := tracked st |}
          else throw (WorkflowError
                 ("existingWebsets missing ID for lens " +:+ Lifecycle.quoteMark
                  +:+ lensConfigId lens +:+ Lifecycle.quoteMark) "validate" false)
      | None => throw (WorkflowError
                 ("existingWebsets missing ID for lens " +:+ Lifecycle.quoteMark
                  +:+ lensConfigId lens +:+ Lifecycle.quoteMark) "validate" false)
      end
  end.

(** The webset id the later steps use for a lens; it is always set by then. *)
Definition idOf (lens : LensConfig) (ids : WebsetIds) : string :=
  Lifecycle.orElse (getKey (lensConfigId lens) ids) EmptyString.

(** The polling loop of an initial run; [None] is [return null]. *)
Fixpoint pollLenses (fuel : nat) (timeoutMs : Z) (totalLenses i : nat)
    (lenses : list LensConfig) (st : Progressed) : M (option Progressed) :=
  match lenses with
  | [] => ret (Some st)
  | lens :: rest =>
      match boundWebset lens with
      | Some _ => pollLenses fuel timeoutMs totalLenses (S i) rest st
      | None =>
          let* stepStart := now env in
          run updateProgress (lensProgress "polling" i totalLenses lens 2) then
          run pollUntilIdle env fuel (idOf lens (websetIds st)) timeoutMs 2 8 then
          let* t := track env ("poll-" +:+ lensConfigId lens) stepStart in
          let* stop := isCancelled env in
          if stop then (run cancelAll (valuesOf (websetIds st)) then ret None)
          else pollLenses fuel timeoutMs totalLenses (S i) rest
                 {| websetIds := websetIds st; enrichmentMaps := enrichmentMaps st;
                    tracked := tracked st ++ [t] |}
      end
  end.

(** The collection loop: [collectItems(exa, wsId)] with the default cap,
    then the shaping of the items. *)
Fixpoint collectLenses (lenses : list LensConfig) (st : Progressed)
    (acc : list Cron.LensResult) : M (list Cron.LensResult) :=
  match lenses with
  | [] => ret acc
  | lens :: rest =>
      let ws := idOf lens (websetIds st) in
      let* rawItems := collectItems env ws None in
      let* shaped := shapeItems lens
                       (Lifecycle.orElse (getKey (lensConfigId lens) (enrichmentMaps st)) [])
                       rawItems in
      collectLenses rest st
        (acc ++ [ {| Cron.lensId := lensConfigId lens; Cron.websetId := ws;
                     Cron.totalItems := length rawItems; Cron.shapedItems := shaped |} ])
  end.

(** [semanticCronWorkflow] from its first cancellation check (line 727) to
    its last one (line 930), for a configuration that has passed
    validation. [None] is the [null] a cancelled run returns; otherwise the
    workflow goes on to join the lens results. *)
Definition collectPhase (fuel : nat) (lenses : list LensConfig)
    (existingWebsets : option WebsetIds) (timeoutArg : option Z) : M (option Collected) :=
  let* stop0 := isCancelled env in
  if stop0 then ret None
  else
    let isReeval := match existingWebsets with Some _ => true | None => false end in
    let start := {| websetIds := Lifecycle.orElse existingWebsets [];
                    enrichmentMaps := []; tracked := [] |} in
    let totalLenses := length lenses in
    let* created :=
      if isReeval then (let* st := fetchLoop totalLenses 0 lenses start in ret (Some st))
      else createLoop totalLenses 0 lenses start in
    match created with
    | None => ret None
    | Some st1 =>
        let* stop1 := isCancelled env in
        if stop1 then
          run (if isReeval then ret tt else cancelAll (valuesOf (websetIds st1)))
          then ret None
        else
          let* polled :=
            if isReeval then ret (Some st1)
            else pollLenses fuel (Lifecycle.orElse timeoutArg 300000%Z)
                            totalLenses 0 lenses st1 in
          match polled with
          | None => ret None
          | Some st2 =>
              let* stepCollect := now env in
              run updateProgress
                    {| step := "collecting items"; completed := 3; total := 8;
                       message := None |}
              then
              let* results := collectLenses lenses st2 [] in
              let* t := track env "collect-shape" stepCollect in
              let* stop2 := isCancelled env in
              if stop2 then ret None
              else ret (Some {| finalIds := websetIds st2; lensResults := results;
                                trackedSteps := tracked st2 ++ [t] |})
          end
    end.

End Workflow.

(** Lines 879 to 918 of the workflow, from the items collected for a lens
    to its shaped items: the evaluation filter, the enrichment resolution,
    the shape evaluation and the projection. They await nothing and mention
    neither the upstream client nor the task store; whatever they compute,
    they compute it synchronously. *)
Definition Shaping : Type :=
  LensConfig -> list (string * string) -> list Value -> Sync (list Cron.ShapedItem).

Definition shapingOf (env : Env) (shape : Shaping)
    : LensConfig -> list (string * string) -> list Value -> M (list Cron.ShapedItem) :=
  fun lens defs items => sync env (shape lens defs items).

(** The property names that every object inherits from [Object.prototype].
    Read on an object that has no such property of its own, they give the
    inherited value and not [undefined]; and an assignment to [__proto__]
    adds no property. A record keyed by lens id behaves as a map for all
    other keys. *)
Definition inheritedNames : list string :=
  ["constructor"; "__defineGetter__"; "__defineSetter__"; "hasOwnProperty";
   "__lookupGetter__"; "__lookupSetter__"; "isPrototypeOf"; "propertyIsEnumerable";
   "toString"; "valueOf"; "__proto__"; "toLocaleString"].

Definition inherited (k : string) : bool := Cron.inb k inheritedNames.

End CronWorkflow.

(* ================================================================== *)
(** * semantic.cron: enrichment resolver and shape evaluator           *)
(* ================================================================== *)

Module Shaping.
Import Shape.

(** An element of [item.enrichments], as the cast in
    [resolveEnrichmentDescriptions] types it. *)
Record RawEnrichment : Type := {
  enrichmentId : string;
  rawFormat : string;
  rawResult : option (list string);
  rawStatus : string;
}.

(** [ResolvedEnrichment]. *)
Record ResolvedEnrichment : Type := {
  description : string;
  result : option (list string);
  format : string;
}.

(** The [Map] from enrichment id to description that the workflow fills
    from the enrichment definitions of a webset: [map.set(def.id,
    def.description)] for each definition in turn. *)
Definition enrichmentMapOf (defs : list (string * string)) : gmap string string :=
  foldl (fun m def => <[fst def := snd def]> m) ∅ defs.

(** The callback of the [map] in [resolveEnrichmentDescriptions], on the
    [enrichments] of one item: an enrichment is kept when the map has a
    non-empty description for its id. *)
Definition resolveOne (enrichmentMap : gmap string string)
    (rawEnrichments : option (list RawEnrichment)) : list ResolvedEnrichment :=
  match rawEnrichments with
  | None => []
  | Some raws =>
      flat_map (fun e =>
                  match enrichmentMap !! enrichmentId e with
                  | Some d =>
                      if truthy d
                      then [ {| description := d; result := rawResult e;
                                format := rawFormat e |} ]
                      else []
                  | None => []
                  end) raws
  end.

(** [resolveEnrichmentDescriptions(items, enrichmentMap)]; [enrichmentsOf]
    is the cast [item.enrichments as ...]. *)
Definition resolveEnrichmentDescriptions {Item : Type}
    (enrichmentsOf : Item -> option (list RawEnrichment))
    (items : list Item) (enrichmentMap : gmap string string)
    : list (Item * list ResolvedEnrichment) :=
  map (fun item => (item, resolveOne enrichmentMap (enrichmentsOf item))) items.

(** [ShapeConfig]. *)
Record ShapeConfig : Type := {
  shapeLensId : string;
  conditions : list Condition;
  logic : string;
}.

(** [enrichments.find(e => e.description === cond.enrichment)?.result ?? null]. *)
Definition resultFor (enrichments : list ResolvedEnrichment) (cond : Condition)
    : option (list string) :=
  match List.find (fun e => String.eqb (description e) (enrichment cond)) enrichments with
  | Some e => result e
  | None => None
  end.

Section WithBuiltins.
Context `{Builtins} `{DateParser}.
(** [clock i] is what [Date.now()] returns while the condition at index [i]
    is evaluated. *)
Variable clock : nat -> Z.

(** [shape.conditions.map(cond => evaluateCondition(cond, ...))], from the
    condition at index [i] on: every condition is evaluated, in order. *)
Fixpoint evaluateConditions (enrichments : list ResolvedEnrichment) (i : nat)
    (conds : list Condition) : Outcome (list bool) :=
  match conds with
  | [] => Returns []
  | cond :: rest =>
      bindO (evaluateCondition (clock i) cond (resultFor enrichments cond)) (fun b =>
      bindO (evaluateConditions enrichments (S i) rest) (fun bs =>
      Returns (b :: bs)))
  end.

(** [evaluateShape(shape, enrichments)]. *)
Definition evaluateShape (shape : ShapeConfig) (enrichments : list ResolvedEnrichment)
    : Outcome bool :=
  bindO (evaluateConditions enrichments 0 (conditions shape)) (fun results =>
  Returns (if String.eqb (logic shape) "all"
           then forallb (fun b => b) results
           else existsb (fun b => b) results)).

End WithBuiltins.

End Shaping.

(* ================================================================== *)
(** * semantic.cron: snapshot and delta                                *)
(* ================================================================== *)

Module Snapshot.
Import Cron.

(** An entry of [SnapshotData.lenses]. A count is an integer: a snapshot
    handed back by the caller may hold any. *)
Record LensSnapshot : Type := {
  snapWebsetId : option string;
  snapTotalItems : Z;
  shapedCount : Z;
  snapShapes : list (string * string * Enrichments);
}.

(** [SnapshotData]. The record [lenses] is read by key only. *)
Record SnapshotData : Type := {
  evaluatedAt : string;
  lenses : gmap string LensSnapshot;
  join : JoinResult;
  signal : SignalResult;
}.

Record SignalTransition : Type := {
  was : bool;
  now : bool;
  changed : bool;
  newEntities : list string;
  lostEntities : list string;
}.

(** [Delta]. *)
Record Delta : Type := {
  newShapedItems : gmap string Z;
  newJoins : list string;
  lostJoins : list string;
  signalTransition : SignalTransition;
  timeSinceLastEval : string;
}.

(** [formatDuration(ms)]; [None] is [NaN], the difference of two dates of
    which one does not parse. [%] is the remainder that takes the sign of
    the dividend. *)
Definition formatDuration (ms : option Z) : string :=
  match ms with
  | None => "NaNm"
  | Some ms =>
      let totalMinutes := (ms / 60000)%Z in
      let days := (totalMinutes / 1440)%Z in
      let hours := (Z.rem totalMinutes 1440 / 60)%Z in
      let minutes := Z.rem totalMinutes 60 in
      let parts0 := if (0 <? days)%Z then [pretty days +:+ "d"] else [] in
      let parts1 := if (0 <? hours)%Z then parts0 ++ [pretty hours +:+ "h"] else parts0 in
      let parts2 :=
        if (0 <? minutes)%Z || Nat.eqb (length parts1) 0
        then parts1 ++ [pretty minutes +:+ "m"] else parts1 in
      JS.join " " parts2
  end.

(** [e.url || e.entity]. *)
Definition entityKey (e : JoinedEntity) : string := str_or (entityUrl e) (entity e).

(** [[...a].filter(k => !b.has(k))] on two sets held in insertion order. *)
Definition setMinus (a b : list string) : list string :=
  List.filter (fun k => negb (inb k b)) a.

Section WithDates.
Context `{DateParser}.

(** [computeDelta(current, previous)]. *)
Definition computeDelta (current previous : SnapshotData) : Delta :=
  let newShapedItems :=
    map_imap (fun lensId lens =>
                let prevCount :=
                  match lenses previous !! lensId with
                  | Some prev => shapedCount prev
                  | None => 0%Z
                  end in
                Some (Z.max 0 (shapedCount lens - prevCount)))
             (lenses current) in
  let currentEntityKeys := uniq (map entityKey (entities (join current))) in
  let previousEntityKeys := uniq (map entityKey (entities (join previous))) in
  let currentEntityNames := uniq (signalEntities (signal current)) in
  let previousEntityNames := uniq (signalEntities (signal previous)) in
  let diffMs :=
    match Date_getTime (evaluatedAt current), Date_getTime (evaluatedAt previous) with
    | Some a, Some b => Some (a - b)%Z
    | _, _ => None
    end in
  {| newShapedItems := newShapedItems;
     newJoins := setMinus currentEntityKeys previousEntityKeys;
     lostJoins := setMinus previousEntityKeys currentEntityKeys;
     signalTransition :=
       {| was := fired (signal previous);
          now := fired (signal current);
          changed := negb (Bool.eqb (fired (signal previous)) (fired (signal current)));
          newEntities := setMinus currentEntityNames previousEntityNames;
          lostEntities := setMinus previousEntityNames currentEntityNames |};
     timeSinceLastEval := formatDuration diffMs |}.

End WithDates.

(** [buildSnapshot(lensResults, joinResult, signalResult, websetIds)];
    [timestamp] is what [new Date().toISOString()] returns. A lens result
    replaces an earlier one with the same lens id. *)
Definition buildSnapshot (timestamp : string) (lensResults : list LensResult)
    (joinResult : JoinResult) (signalResult : SignalResult)
    (websetIds : CronWorkflow.WebsetIds) : SnapshotData :=
  {| evaluatedAt := timestamp;
     lenses :=
       foldl (fun acc lr =>
                <[lensId lr :=
                    {| snapWebsetId := CronWorkflow.getKey (lensId lr) websetIds;
                       snapTotalItems := Z.of_nat (totalItems lr);
                       shapedCount := Z.of_nat (length (shapedItems lr));
                       snapShapes := map (fun si => (name si, url si, enrichments si))
                                         (shapedItems lr) |}]> acc)
             ∅ lensResults;
     join := joinResult;
     signal := signalResult |}.

End Snapshot.

(* ================================================================== *)
(** * Sample data                                                      *)
(* ================================================================== *)

Module Samples.
Import Cron.

(** Date parsing on the three ISO dates the samples use, with the values
    [new Date(s).getTime()] gives for them; any other string is left
    unparsed. *)
Definition sampleGetTime (s : string) : option Z :=
  if String.eqb s "2024-01-01T00:00:00.000Z" then Some 1704067200000%Z
  else if String.eqb s "2024-01-02T00:00:00.000Z" then Some 1704153600000%Z
  else if String.eqb s "2024-03-01T00:00:00.000Z" then Some 1709251200000%Z
  else None.

#[export] Instance sampleDates : DateParser := {| Date_getTime := sampleGetTime |}.

Definition acmeA : ShapedItem :=
  {| id := "item_a"; name := "Acme Corp"; url := "https://acme.com";
     entityType := "company"; enrichments := [("Open roles", Some "12")];
     createdAt := "2024-01-01T00:00:00.000Z" |}.

(** The same company found through another lens, under another URL. *)
Definition acmeB : ShapedItem :=
  {| id := "item_b"; name := "Acme Corp"; url := "https://acme.io";
     entityType := "company"; enrichments := [("Press mentions", Some "3")];
     createdAt := "2024-01-02T00:00:00.000Z" |}.

(** The same URL as [acmeA], seen sixty days later. *)
Definition acmeLate : ShapedItem :=
  {| id := "item_c"; name := "Acme Corp"; url := "https://acme.com";
     entityType := "company"; enrichments := [];
     createdAt := "2024-03-01T00:00:00.000Z" |}.

Definition lens (lid : string) (items : list ShapedItem) : LensResult :=
  {| lensId := lid; websetId := "ws_" +:+ lid;
     totalItems := length items; shapedItems := items |}.

Definition exactNames : JoinConfig :=
  {| by_ := ByEntity; nameThreshold := Some 1%Q;
     temporalDays := None; minLensOverlap := Some 1%Q |}.

Definition defaults (mode : JoinBy) : JoinConfig :=
  {| by_ := mode; nameThreshold := None; temporalDays := None; minLensOverlap := None |}.




(** [acmeA] and [acmeB] joined by name. *)
Definition acmeJoined : JoinedEntity :=
  toJoined (foldInto "B" acmeB (newEntry "A" acmeA)).

(** What the reports below show of a joined entity. *)
Definition summary (e : JoinedEntity) : string * list string * nat :=
  (entity e, presentInLenses e, lensCount e).

Definition combinationAB : SignalConfig :=
  {| requiresType := RCombination; requiresMin := None;
     sufficient := Some [["A"; "B"]; ["A"; "C"]] |}.

(** The item fixture of the projection tests. *)
Definition rawItem : Value.Value :=
  Value.VObject
    [("id", Value.VString "item-1");
     ("object", Value.VString "webset_item");
     ("websetId", Value.VString "ws-1");
     ("sourceId", Value.VString "src-1");
     ("source", Value.VString "search");
     ("createdAt", Value.VString "2024-01-01T00:00:00Z");
     ("properties", Value.VObject
        [("type", Value.VString "company");
         ("url", Value.VString "https://acme.com");
         ("description", Value.VString "A company that makes everything");
         ("company", Value.VObject
            [("name", Value.VString "Acme Corp");
             ("domain", Value.VString "acme.com");
             ("industry", Value.VString "Manufacturing")]);
         ("content", Value.VString "Very long content string")]);
     ("evaluations", Value.VArray
        [Value.VObject
           [("criterion", Value.VString "Is a technology company");
            ("satisfied", Value.VString "yes");
            ("reasoning", Value.VString "The company develops technology products");
            ("references", Value.VArray [Value.VString "https://acme.com/about"])];
         Value.VObject
           [("criterion", Value.VString "Has over 100 employees");
            ("satisfied", Value.VString "no");
            ("reasoning", Value.VString "Could not determine employee count");
            ("references", Value.VArray [])]]);
     ("enrichments", Value.VArray
        [Value.VObject
           [("enrichmentId", Value.VString "enr-1");
            ("description", Value.VString "Annual revenue");
            ("format", Value.VString "number");
            ("status", Value.VString "completed");
            ("result", Value.VArray [Value.VString "50000000"]);
            ("reasoning", Value.VString "Based on public filings");
            ("object", Value.VString "webset_item_enrichment")]])].

(** What the projection tests expect of [rawItem]. *)
Definition rawItemProjected : Value.Value :=
  Value.VObject
    [("id", Value.VString "item-1");
     ("name", Value.VString "Acme Corp");
     ("url", Value.VString "https://acme.com");
     ("entityType", Value.VString "company");
     ("description", Value.VString "A company that makes everything");
     ("evaluations", Value.VArray
        [Value.VObject [("criterion", Value.VString "Is a technology company");
                        ("satisfied", Value.VString "yes")];
         Value.VObject [("criterion", Value.VString "Has over 100 employees");
                        ("satisfied", Value.VString "no")]]);
     ("enrichments", Value.VArray
        [Value.VObject [("description", Value.VString "Annual revenue");
                        ("format", Value.VString "number");
                        ("result", Value.VArray [Value.VString "50000000"])]])].

(** The evaluations of the first classification test. *)
Definition bothSatisfied : list QdWinnow.Evaluation :=
  [ {| QdWinnow.criterion := "Founded after 2015"; QdWinnow.satisfied := "yes" |};
    {| QdWinnow.criterion := "Has research"; QdWinnow.satisfied := "yes" |} ].

(** A configuration with one lens, whose query is [query]. *)
Definition oneLensConfig (query : string) : Value.Value :=
  Value.VObject
    [("lenses", Value.VArray
        [Value.VObject
           [("id", Value.VString "hiring");
            ("source", Value.VObject
               [("query", Value.VString query);
                ("entity", Value.VObject [("type", Value.VString "company")]);
                ("count", Value.VNumber "50")])]]);
     ("shapes", Value.VArray
        [Value.VObject
           [("lensId", Value.VString "hiring");
            ("conditions", Value.VArray
               [Value.VObject [("enrichment", Value.VString "Open roles");
                               ("operator", Value.VString "gte");
                               ("value", Value.VNumber "10")]]);
            ("logic", Value.VString "all")]]);
     ("join", Value.VObject [("by", Value.VString "cooccurrence")]);
     ("signal", Value.VObject
        [("requires", Value.VObject [("type", Value.VString "any")])])].

(** The text of a configuration; empty when there is none. *)
Definition textOf (config : Value.Value) : string :=
  match Templates.stringify config with
  | Some json => json
  | None => EmptyString
  end.

(** A webset whose search never finishes. *)
Definition runningWebset : Helpers.Webset :=
  {| Helpers.websetId := "ws_1"; Helpers.status := "running";
     Helpers.searches :=
       Some [ {| Helpers.progress := Some {| Helpers.found := 0; Helpers.analyzed := 0 |} |} ];
     Helpers.enrichmentDefs := None |}.

(** An upstream that stays [running] for ever and lists [listed]; every
    clock reading is 100 ms after the one before; the task is found
    cancelled from the check numbered [cancelFrom] on, if any. *)
Definition stuckUpstream (cancelFrom : option nat) (listed : Helpers.ItemStream) : Helpers.Env :=
  {| Helpers.clock := fun n => (Z.of_nat n * 100)%Z;
     Helpers.cancelled := fun n => match cancelFrom with
                                   | Some k => Nat.leb k n
                                   | None => false
                                   end;
     Helpers.onCreate := fun _ => Returns runningWebset;
     Helpers.onGet := fun _ => Returns runningWebset;
     Helpers.onCancel := fun _ => Returns tt;
     Helpers.onDelete := fun _ => Returns tt;
     Helpers.onListAll := fun _ => listed |}.

(** The arguments of scenario S1. *)
Definition harvestArgs : Lifecycle.Args :=
  {| Lifecycle.query := Value.VString "AI infra startups";
     Lifecycle.entity := Value.VObject [("type", Value.VString "company")];
     Lifecycle.criteria := None;
     Lifecycle.count := Some 5%Z;
     Lifecycle.enrichments := None;
     Lifecycle.timeout := Some 100%Z;
     Lifecycle.cleanup := None |}.

Definition harvestParams : Helpers.CreateParams :=
  {| Helpers.searchQuery := Value.VString "AI infra startups";
     Helpers.searchCount := 5%Z;
     Helpers.searchEntity := Some (Value.VObject [("type", Value.VString "company")]);
     Helpers.searchCriteria := None;
     Helpers.createEnrichments := None |}.

(** One lens that asks for a single item. *)
Definition singleItemLens : CronWorkflow.LensConfig :=
  {| CronWorkflow.lensConfigId := "hiring";
     CronWorkflow.source :=
       {| CronWorkflow.sourceQuery := Value.VString "AI hiring";
          CronWorkflow.sourceWebsetId := None;
          CronWorkflow.sourceEntity := None;
          CronWorkflow.sourceCriteria := None;
          CronWorkflow.sourceEnrichments := None;
          CronWorkflow.sourceCount := Some 1%Z |} |}.

Definition singleItemParams : Helpers.CreateParams :=
  {| Helpers.searchQuery := Value.VString "AI hiring";
     Helpers.searchCount := 1%Z;
     Helpers.searchEntity := None;
     Helpers.searchCriteria := None;
     Helpers.createEnrichments := None |}.

Definition threeItems : Helpers.ItemStream :=
  Helpers.StreamItem (Value.VObject [("id", Value.VString "item-1")])
    (Helpers.StreamItem (Value.VObject [("id", Value.VString "item-2")])
       (Helpers.StreamItem (Value.VObject [("id", Value.VString "item-3")])
          Helpers.StreamEnd)).

(** A shaping step that keeps nothing. *)
Definition keepNothing (_ : CronWorkflow.LensConfig) (_ : list (string * string))
    (_ : list Value.Value) : Helpers.M (list Cron.ShapedItem) :=
  Helpers.ret [].

(** A synchronous shaping step that reads the clock once and keeps
    nothing. *)
Definition shapeNothing : CronWorkflow.Shaping :=
  fun _ _ _ _ reads => (Returns [], S reads).

(** A join result with one joined entity, and the signal it gives. *)
Definition oneEntity : JoinResult :=
  {| joinType := ByEntity; entities := [acmeJoined]; lensesWithEvidence := ["A"; "B"] |}.

Definition oneEntitySignal : SignalResult :=
  {| fired := true; satisfiedBy := ["A"; "B"]; rule := RCombination;
     matchedCombination := Some ["A"; "B"]; signalEntities := ["Acme Corp"] |}.

(** A co-occurrence join with a window of seven days. *)
Definition cooccurrenceSevenDays : JoinConfig :=
  {| by_ := ByCooccurrence; nameThreshold := None;
     temporalDays := Some 7%Q; minLensOverlap := None |}.

(** Three times of one day: midnight, and one millisecond less than, and
    exactly, seven tenths of a day later. *)
Definition edgeGetTime (s : string) : option Z :=
  if String.eqb s "2024-01-01T00:00:00.000Z" then Some 1704067200000%Z
  else if String.eqb s "2024-01-01T16:47:59.999Z" then Some 1704127679999%Z
  else if String.eqb s "2024-01-01T16:48:00.000Z" then Some 1704127680000%Z
  else None.

Definition edgeDates : DateParser := {| Date_getTime := edgeGetTime |}.

Definition createdOn (date : string) : ShapedItem :=
  {| id := "item"; name := "Acme Corp"; url := "https://acme.com";
     entityType := "company"; enrichments := []; createdAt := date |}.

(** A window of seven tenths of a day. *)
Definition sevenTenths (mode : JoinBy) : JoinConfig :=
  {| by_ := mode; nameThreshold := None;
     temporalDays := Some (7 # 10)%Q; minLensOverlap := None |}.

Definition thresholdDefault : SignalConfig :=
  {| requiresType := RThreshold; requiresMin := None; sufficient := None |}.

(** The two lenses of the company found under two URLs, and what the
    entity join and the combination rule make of them. *)
Definition acmeLenses : list LensResult := [lens "A" [acmeA]; lens "B" [acmeB]].

Definition acmeSnapshot : Snapshot.SnapshotData :=
  Snapshot.buildSnapshot "2024-01-02T00:00:00.000Z" acmeLenses oneEntity oneEntitySignal
    [("A", "ws_A"); ("B", "ws_B")].

(** A webset whose search has finished. *)
Definition idleWebset : Helpers.Webset :=
  {| Helpers.websetId := "ws_1"; Helpers.status := "idle";
     Helpers.searches :=
       Some [ {| Helpers.progress := Some {| Helpers.found := 3; Helpers.analyzed := 9 |} |} ];
     Helpers.enrichmentDefs := None |}.

(** An upstream whose webset is running at the first fetch and idle from
    the second on, and whose deletions fail. *)
Definition turnsIdle (listed : Helpers.ItemStream) : Helpers.Env :=
  {| Helpers.clock := fun n => (Z.of_nat n * 100)%Z;
     Helpers.cancelled := fun _ => false;
     Helpers.onCreate := fun _ => Returns runningWebset;
     Helpers.onGet := fun n => if Nat.ltb n 1 then Returns runningWebset
                               else Returns idleWebset;
     Helpers.onCancel := fun _ => Returns tt;
     Helpers.onDelete := fun _ => Throws UpstreamError;
     Helpers.onListAll := fun _ => listed |}.

(** The arguments of scenario S1, with the default timeout and a cleanup. *)
Definition harvestCleanupArgs : Lifecycle.Args :=
  {| Lifecycle.query := Value.VString "AI infra startups";
     Lifecycle.entity := Value.VObject [("type", Value.VString "company")];
     Lifecycle.criteria := None;
     Lifecycle.count := Some 5%Z;
     Lifecycle.enrichments := None;
     Lifecycle.timeout := None;
     Lifecycle.cleanup := Some true |}.








End Samples.

(* ================================================================== *)
(** * Properties                                                       *)
(* ================================================================== *)

Section ShapeProperties.
Context `{Builtins} `{DateParser}.
Import Shape.

(** C3. Against a result that is null, undefined or an empty array,
    [evaluateCondition] returns false for every operator, [exists]
    included; and [exists] returns true exactly when the result is
    non-null, non-empty and its first string is non-empty. *)
Theorem evaluateCondition_missing_and_exists :
  forall (now : Z) (c : Condition),
    (evaluateCondition now c None = Returns false /\
     evaluateCondition now c (Some []) = Returns false) /\
    forall (e : string) (v : CondValue) (r : option (list string)),
      (exists b, evaluateCondition now
                   {| enrichment := e; operator := "exists"; value := v |} r
                 = Returns b) /\
      (evaluateCondition now
         {| enrichment := e; operator := "exists"; value := v |} r
       = Returns true
       <-> exists first rest, r = Some (first :: rest) /\ first <> EmptyString).
Proof.
  intros now c. split.
  - unfold evaluateCondition.
    destruct (String.eqb (operator c) "exists"); split; reflexivity.
  - intros e v r. unfold evaluateCondition; simpl. split.
    + eexists; reflexivity.
    + split.
      * intros Hr. destruct r as [[|first rest]|]; try discriminate.
        exists first, rest. split; [reflexivity|].
        intros ->. discriminate.
      * intros (first & rest & -> & Hne).
        destruct first; [congruence | reflexivity].
Qed.

End ShapeProperties.

Section SignalProperties.
Import Cron.

Lemma filter_nonempty {A} (p : A -> bool) (l : list A) :
  negb (Nat.eqb (length (List.filter p l)) 0) = true <-> exists x, In x l /\ p x = true.
Proof.
  split.
  - destruct (List.filter p l) as [|x rest] eqn:E; [discriminate|].
    intros _. exists x. apply filter_In. rewrite E. now left.
  - intros (x & Hin & Hp).
    assert (Hx : In x (List.filter p l)) by (apply filter_In; auto).
    destruct (List.filter p l); [destruct Hx | reflexivity].
Qed.

Lemma firstCombination_fired (combos : list (list string)) (ents : list JoinedEntity) :
  negb (Nat.eqb (length (fst (firstCombination combos ents))) 0) = true <->
  exists e, In e ents /\
            existsb (fun combo => coversAll combo (presentInLenses e)) combos = true.
Proof.
  induction combos as [|combo rest IH]; simpl.
  - split; [discriminate | intros (e & _ & He); discriminate].
  - destruct (List.filter (fun e => coversAll combo (presentInLenses e)) ents)
      as [|m ms] eqn:E.
    + rewrite IH. split; intros (e & Hin & He); exists e; split; auto.
      * rewrite He. apply orb_true_r.
      * apply orb_true_iff in He as [He|He]; [|exact He].
        assert (Hx : In e (List.filter
                   (fun e => coversAll combo (presentInLenses e)) ents))
          by (apply filter_In; auto).
        rewrite E in Hx. destruct Hx.
    + simpl. split; [intros _ | reflexivity].
      exists m.
      assert (Hm : In m (List.filter
                 (fun e => coversAll combo (presentInLenses e)) ents))
        by (rewrite E; now left).
      apply filter_In in Hm as [Hin Hc]. split; [exact Hin|].
      now rewrite Hc.
Qed.

Lemma coversAll_covers (ids present : list string) :
  coversAll ids present = true <-> covers ids present.
Proof.
  unfold coversAll, covers, inb. rewrite forallb_forall.
  split; intros Hall lens Hin; specialize (Hall lens Hin).
  - apply existsb_exists in Hall as (y & Hy & Heq).
    apply String.eqb_eq in Heq. now subst y.
  - apply existsb_exists. exists lens. split; [exact Hall | apply String.eqb_refl].
Qed.

(** [find] returns the first element that passes the test. *)
Lemma find_first {A : Type} (p : A -> bool) (l : list A) (x : A) :
  List.find p l = Some x <->
  exists before after,
    l = before ++ x :: after /\ p x = true /\
    forall y, In y before -> p y = false.
Proof.
  induction l as [|a rest IH]; simpl.
  - split; [discriminate|]. intros (before & after & Heq & _).
    destruct before; discriminate.
  - destruct (p a) eqn:Hpa.
    + split.
      * intros Hx. injection Hx as <-. exists [], rest.
        split; [reflexivity|]. split; [exact Hpa | intros y []].
      * intros (before & after & Heq & Hpx & Hnone).
        destruct before as [|b before']; simpl in Heq.
        -- injection Heq as -> _. reflexivity.
        -- injection Heq as -> _. rewrite (Hnone b) in Hpa by now left. discriminate.
    + rewrite IH. split.
      * intros (before & after & -> & Hpx & Hnone). exists (a :: before), after.
        split; [reflexivity|]. split; [exact Hpx|].
        intros y [<-|Hy]; [exact Hpa | now apply Hnone].
      * intros (before & after & Heq & Hpx & Hnone).
        destruct before as [|b before']; simpl in Heq.
        -- injection Heq as -> _. congruence.
        -- injection Heq as _ ->. exists before', after.
           split; [reflexivity|]. split; [exact Hpx|].
           intros y Hy. apply Hnone. now right.
Qed.

Lemma find_none_iff {A : Type} (p : A -> bool) (l : list A) :
  List.find p l = None <-> forall y, In y l -> p y = false.
Proof.
  induction l as [|a rest IH]; simpl.
  - split; [intros _ y [] | reflexivity].
  - destruct (p a) eqn:Hpa.
    + split; [discriminate|]. intros Hall. rewrite (Hall a) in Hpa by now left.
      discriminate.
    + rewrite IH. split.
      * intros Hall y [<-|Hy]; [exact Hpa | now apply Hall].
      * intros Hall y Hy. apply Hall. now right.
Qed.

(** What [evaluateSignalWithEvidence] returns: the rule is evaluated over
    the lenses with evidence and over nothing else. *)
Lemma signal_over_evidence (jr : JoinResult) (cfg : SignalConfig) (ids : list string)
    (r : SignalResult) :
  evaluateSignalWithEvidence jr cfg ids = Returns r ->
  signalEntities r = [] /\
  satisfiedBy r = lensesWithEvidence jr /\
  rule r = requiresType cfg /\
  (fired r = true <-> evidenceSatisfies cfg ids (lensesWithEvidence jr)) /\
  (forall combo, matchedCombination r = Some combo <->
                 firstCovered cfg (lensesWithEvidence jr) combo) /\
  (fired r = false -> matchedCombination r = None).
Proof.
  unfold evaluateSignalWithEvidence, evidenceSatisfies, firstCovered.
  set (evidence := lensesWithEvidence jr).
  destruct (requiresType cfg) eqn:Hty.
  - intros Hr. injection Hr as <-. cbn.
    split; [reflexivity|]. split; [reflexivity|]. split; [reflexivity|].
    split; [apply coversAll_covers|].
    split; [|reflexivity].
    intros combo. split; [discriminate | intros [Hbad _]; discriminate].
  - intros Hr. injection Hr as <-. cbn.
    split; [reflexivity|]. split; [reflexivity|]. split; [reflexivity|].
    split; [destruct evidence; cbn; split; congruence|].
    split; [|reflexivity].
    intros combo. split; [discriminate | intros [Hbad _]; discriminate].
  - intros Hr. injection Hr as <-. cbn.
    split; [reflexivity|]. split; [reflexivity|]. split; [reflexivity|].
    split; [unfold Qleb; apply Qle_bool_iff|].
    split; [|reflexivity].
    intros combo. split; [discriminate | intros [Hbad _]; discriminate].
  - destruct (sufficient cfg) as [combos|] eqn:Hsuff; [|discriminate].
    destruct (List.find (fun combo => coversAll combo evidence) combos) as [found|] eqn:Hfind;
      intros Hr; injection Hr as <-; cbn.
    + pose proof Hfind as Hsplit.
      apply find_first in Hsplit as (before & after & Hcombos & Hcov & Hnone).
      split; [reflexivity|]. split; [reflexivity|]. split; [reflexivity|].
      split; [|split; [|discriminate]].
      * split; [|reflexivity]. intros _. exists combos, found. split; [reflexivity|].
        split; [|now apply coversAll_covers].
        rewrite Hcombos. apply in_app_iff. right. now left.
      * intros combo. split.
        -- intros Heq. injection Heq as <-. split; [reflexivity|].
           exists combos, before, after.
           split; [reflexivity|]. split; [exact Hcombos|].
           split; [now apply coversAll_covers|].
           intros other Hother Hc. apply coversAll_covers in Hc.
           rewrite (Hnone other Hother) in Hc. discriminate.
        -- intros (_ & combos' & before' & after' & Heq & Hsplit' & Hcov' & Hnone').
           injection Heq as <-.
           assert (Hfind' : List.find (fun combo => coversAll combo evidence) combos
                            = Some combo).
           { apply find_first. exists before', after'. split; [exact Hsplit'|].
             split; [now apply coversAll_covers|].
             intros y Hy. destruct (coversAll y evidence) eqn:Hc; [|reflexivity].
             apply coversAll_covers in Hc. now destruct (Hnone' y Hy). }
           congruence.
    + pose proof (proj1 (find_none_iff _ _) Hfind) as Hnone.
      split; [reflexivity|]. split; [reflexivity|]. split; [reflexivity|].
      split; [|split; [|reflexivity]].
      * split; [discriminate|].
        intros (combos' & combo & Heq & Hin & Hcov). injection Heq as <-.
        apply coversAll_covers in Hcov. rewrite (Hnone combo Hin) in Hcov. discriminate.
      * intros combo. split; [discriminate|].
        intros (_ & combos' & before & after & Heq & Hsplit & Hcov & _).
        injection Heq as <-. apply coversAll_covers in Hcov.
        rewrite (Hnone combo) in Hcov; [discriminate|].
        rewrite Hsplit. apply in_app_iff. right. now left.
Qed.

(** C10. [evaluateSignal] chooses what it evaluates the rule over by the
    entities list alone, never by the join mode. With no joined entity the
    rule is evaluated over [lensesWithEvidence]: the signal fires exactly
    when the lenses with evidence satisfy the rule, it is satisfied by
    these lenses, its matched combination is the first sufficient
    combination that they cover, and the result lists no entity. With at
    least one joined entity the rule is evaluated over the entities and the
    signal fires exactly when some entity satisfies the rule. Once the
    combination check passes, a result is always returned. *)
Theorem evaluateSignal_base_selection :
  forall (jr : JoinResult) (cfg : SignalConfig) (ids : list string),
    (forall mode,
       evaluateSignal {| joinType := mode; entities := entities jr;
                         lensesWithEvidence := lensesWithEvidence jr |} cfg ids
       = evaluateSignal jr cfg ids) /\
    (validateCombination cfg ids = Returns tt ->
     exists r, evaluateSignal jr cfg ids = Returns r) /\
    forall r, evaluateSignal jr cfg ids = Returns r ->
      (entities jr = [] ->
       evaluateSignalWithEvidence jr cfg ids = Returns r /\ signalEntities r = [] /\
       satisfiedBy r = lensesWithEvidence jr /\
       rule r = requiresType cfg /\
       (fired r = true <-> evidenceSatisfies cfg ids (lensesWithEvidence jr)) /\
       (forall combo, matchedCombination r = Some combo <->
                      firstCovered cfg (lensesWithEvidence jr) combo) /\
       (fired r = false -> matchedCombination r = None)) /\
      (entities jr <> [] ->
       evaluateSignalWithEntities jr cfg ids = Returns r /\
       (fired r = true <->
        exists e, In e (entities jr) /\ entitySatisfies cfg ids e = true)).
Proof.
  intros jr cfg ids. split; [|split].
  - intros mode. reflexivity.
  - intros Hv. unfold evaluateSignal. rewrite Hv. simpl.
    unfold validateCombination in Hv.
    unfold evaluateSignalWithEntities, evaluateSignalWithEvidence.
    destruct (requiresType cfg);
      try (destruct (negb _); eexists; reflexivity).
    destruct (sufficient cfg) as [combos|]; [|discriminate].
    destruct (negb _).
    + destruct (firstCombination combos (entities jr)). eexists; reflexivity.
    + destruct (List.find _ combos); eexists; reflexivity.
  - intros r Hr. unfold evaluateSignal in Hr.
    destruct (validateCombination cfg ids) as [[]|err] eqn:Hv; [|discriminate].
    simpl in Hr. split.
    + intros Hnil. rewrite Hnil in Hr. simpl in Hr. split; [exact Hr|].
      exact (signal_over_evidence jr cfg ids r Hr).
    + intros Hne.
      assert (Hlen : negb (Nat.eqb (length (entities jr)) 0) = true)
        by (destruct (entities jr); [congruence | reflexivity]).
      rewrite Hlen in Hr. split; [exact Hr|].
      unfold evaluateSignalWithEntities in Hr. unfold entitySatisfies.
      destruct (requiresType cfg).
      * injection Hr as <-. cbn [fired resultOfEntities]. apply filter_nonempty.
      * injection Hr as <-. cbn [fired resultOfEntities].
        rewrite Hlen. split; [intros _ | reflexivity].
        destruct (entities jr) as [|e0 es]; [congruence|].
        exists e0. split; [now left | reflexivity].
      * injection Hr as <-. cbn [fired resultOfEntities]. apply filter_nonempty.
      * destruct (sufficient cfg) as [combos|]; [|discriminate].
        pose proof (firstCombination_fired combos (entities jr)) as Hfc.
        destruct (firstCombination combos (entities jr)) as [matching combo].
        injection Hr as <-. cbn [fired resultOfEntities]. exact Hfc.
Qed.

End SignalProperties.

Section EntityMapLemmas.
Import Cron.

Lemma truthy_true (s : string) : truthy s = true <-> s <> EmptyString.
Proof. destruct s; simpl; split; congruence. Qed.

Lemma truthy_false (s : string) : truthy s = false <-> s = EmptyString.
Proof. destruct s; simpl; split; congruence. Qed.

Lemma inb_In (x : string) (xs : list string) : inb x xs = true <-> In x xs.
Proof.
  unfold inb. rewrite existsb_exists. split.
  - intros (y & Hin & Heq). apply String.eqb_eq in Heq. now subst.
  - intros Hin. exists x. split; [exact Hin | apply String.eqb_refl].
Qed.

Lemma setAdd_In (x y : string) (s : list string) :
  In y (setAdd x s) <-> y = x \/ In y s.
Proof.
  unfold setAdd. destruct (inb x s) eqn:E.
  - apply inb_In in E. split; [now right | intros [->|]; assumption].
  - rewrite in_app_iff. simpl. intuition.
Qed.

Lemma mapSet_In (key : string) (v : Entry) (m : EntityMap) (k : string) (e : Entry) :
  In (k, e) (mapSet key v m) -> (k = key /\ e = v) \/ In (k, e) m.
Proof.
  induction m as [|[k0 e0] rest IH]; simpl.
  - intros [Heq|[]]. injection Heq as <- <-. now left.
  - destruct (String.eqb k0 key) eqn:E.
    + apply String.eqb_eq in E. subst k0.
      intros [Heq|Hin]; [injection Heq as <- <-; now left | right; now right].
    + intros [Heq|Hin]; [right; now left|].
      destruct (IH Hin) as [Hl|Hr]; [now left | right; now right].
Qed.

Lemma mapSet_keys (key : string) (v : Entry) (m : EntityMap) (k : string) :
  In k (map fst (mapSet key v m)) <-> k = key \/ In k (map fst m).
Proof.
  induction m as [|[k0 e0] rest IH]; simpl.
  - intuition.
  - destruct (String.eqb k0 key) eqn:E; simpl.
    + apply String.eqb_eq in E. subst k0. intuition.
    + rewrite IH. intuition.
Qed.

Lemma mapSet_NoDup (key : string) (v : Entry) (m : EntityMap) :
  List.NoDup (map fst m) -> List.NoDup (map fst (mapSet key v m)).
Proof.
  induction m as [|[k0 e0] rest IH]; simpl; intros Hnd.
  - apply NoDup_cons_iff. split; [intros [] | constructor].
  - apply NoDup_cons_iff in Hnd as [Hnotin Hnd].
    destruct (String.eqb k0 key) eqn:E; simpl.
    + apply NoDup_cons_iff. split; assumption.
    + apply NoDup_cons_iff. split; [|now apply IH].
      rewrite mapSet_keys. intros [->|Hin]; [|contradiction].
      rewrite String.eqb_refl in E. discriminate.
Qed.


Lemma keyOf_newEntry (lens : string) (si : ShapedItem) :
  keyOf (str_or (url si) (str_or (name si) (id si))) (newEntry lens si).
Proof.
  unfold keyOf, str_or; simpl. repeat split.
  - intros Hu. apply truthy_true in Hu. now rewrite Hu.
  - intros Hu Hn. apply truthy_true in Hn. rewrite Hu, Hn. reflexivity.
Qed.


End EntityMapLemmas.

Section JoinProperties.
Context `{DateParser}.
Variable dice : string -> string -> Num.
Import Cron.

Lemma nameMatch_spec (thr : Q) (si : ShapedItem) (e : Entry) :
  nameMatch dice thr si e = true <->
  name si <> EmptyString /\ e_entity e <> EmptyString /\
  num_gt (dice (name si) (e_entity e)) (Fin thr) = true.
Proof.
  unfold nameMatch. rewrite !andb_true_iff, !truthy_true. tauto.
Qed.

(** What the scan of the entity map does: either it stops at the first
    entry that matches by URL or by name and updates it in place, or no
    entry matches. *)
Lemma matchExisting_spec (thr : Q) (lens : string) (si : ShapedItem) (m : EntityMap) :
  match matchExisting dice thr lens si m with
  | Some m' =>
      exists pre k e post,
        m = pre ++ (k, e) :: post /\
        m' = pre ++ (k, foldInto lens si e) :: post /\
        (urlMatch si e = true \/ nameMatch dice thr si e = true) /\
        forall kv, In kv pre ->
          urlMatch si (snd kv) = false /\ nameMatch dice thr si (snd kv) = false
  | None =>
      forall kv, In kv m ->
        urlMatch si (snd kv) = false /\ nameMatch dice thr si (snd kv) = false
  end.
Proof.
  induction m as [|[k e] rest IH]; simpl.
  - intros kv [].
  - destruct (urlMatch si e) eqn:Hu.
    + exists [], k, e, rest.
      split; [reflexivity|]. split; [reflexivity|]. split; [now left|].
      intros kv [].
    + destruct (nameMatch dice thr si e) eqn:Hn.
      * exists [], k, e, rest.
        split; [reflexivity|]. split; [reflexivity|]. split; [now right|].
        intros kv [].
      * destruct (matchExisting dice thr lens si rest) as [m'|]; simpl.
        -- destruct IH as (pre & k' & e' & post & -> & -> & Hm & Hpre).
           exists ((k, e) :: pre), k', e', post.
           split; [reflexivity|]. split; [reflexivity|]. split; [exact Hm|].
           intros kv [<-|Hin]; [split; assumption | now apply Hpre].
        -- intros kv [<-|Hin]; [split; assumption | now apply IH].
Qed.

(** C1 (amended). For a shaped item that matches no existing entry by exact
    URL, the item is folded into an existing entry exactly when some entry
    matches by name, that is: both names are non-empty and the Dice
    coefficient of the item's name and the entry's canonical name is
    strictly greater than the threshold. The entry updated is the first
    such one. Otherwise the map is set at the key [url || name || id]. *)
Theorem addItem_without_url_match :
  forall (thr : Q) (lens : string) (m : EntityMap) (si : ShapedItem),
    (forall kv, In kv m -> urlMatch si (snd kv) = false) ->
    (forall e, nameMatch dice thr si e = true <->
               name si <> EmptyString /\ e_entity e <> EmptyString /\
               num_gt (dice (name si) (e_entity e)) (Fin thr) = true) /\
    ((exists kv, In kv m /\ nameMatch dice thr si (snd kv) = true) ->
     exists pre k e post,
       m = pre ++ (k, e) :: post /\
       nameMatch dice thr si e = true /\
       (forall kv, In kv pre -> nameMatch dice thr si (snd kv) = false) /\
       addItem dice thr lens m si = pre ++ (k, foldInto lens si e) :: post) /\
    ((forall kv, In kv m -> nameMatch dice thr si (snd kv) = false) ->
     addItem dice thr lens m si
     = mapSet (str_or (url si) (str_or (name si) (id si))) (newEntry lens si) m).
Proof.
  intros thr lens m si Hurl. split; [|split].
  - intros e. apply nameMatch_spec.
  - intros (kv & Hin & Hkv).
    pose proof (matchExisting_spec thr lens si m) as Hspec.
    unfold addItem.
    destruct (matchExisting dice thr lens si m) as [m'|].
    + destruct Hspec as (pre & k & e & post & Hm & Hm' & Hmatch & Hpre).
      exists pre, k, e, post. repeat split; auto.
      * destruct Hmatch as [Hu|Hn]; [|exact Hn].
        assert (Hin' : In (k, e) m)
          by (rewrite Hm; apply in_or_app; right; now left).
        apply Hurl in Hin'. simpl in Hin'. congruence.
      * intros kv' Hin'. now apply Hpre.
    + destruct (Hspec kv Hin) as [_ Hn]. congruence.
  - intros Hname.
    pose proof (matchExisting_spec thr lens si m) as Hspec.
    unfold addItem.
    destruct (matchExisting dice thr lens si m) as [m'|]; [|reflexivity].
    destruct Hspec as (pre & k & e & post & Hm & Hm' & Hmatch & Hpre).
    assert (Hin : In (k, e) m) by (rewrite Hm; apply in_or_app; right; now left).
    pose proof (Hurl (k, e) Hin) as Hu'. pose proof (Hname (k, e) Hin) as Hn'.
    simpl in Hu', Hn'. destruct Hmatch; congruence.
Qed.

Lemma match_has_identity (thr : Q) (si : ShapedItem) (e : Entry) :
  urlMatch si e = true \/ nameMatch dice thr si e = true ->
  e_url e <> EmptyString \/ e_entity e <> EmptyString.
Proof.
  unfold urlMatch, nameMatch. rewrite !andb_true_iff, !truthy_true. tauto.
Qed.

Lemma addItem_invariant (P : string * string -> Prop) (thr : Q) (lens : string)
    (m : EntityMap) (si : ShapedItem) :
  mapInvariant P m -> P (lens, createdAt si) ->
  mapInvariant P (addItem dice thr lens m si).
Proof.
  intros [Hnd Hall] HP. unfold addItem.
  pose proof (matchExisting_spec thr lens si m) as Hspec.
  destruct (matchExisting dice thr lens si m) as [m'|].
  - destruct Hspec as (pre & k & e & post & Hm & Hm' & Hmatch & _).
    subst m m'. split.
    + rewrite map_app in *. exact Hnd.
    + intros k1 e1 Hin. apply in_app_iff in Hin as [Hin|[Heq|Hin]].
      * apply Hall. apply in_app_iff. now left.
      * injection Heq as <- <-.
        destruct (Hall k e) as (Hkey & Hcov & Hts);
          [apply in_app_iff; right; now left|].
        destruct Hkey as (Hk1 & Hk2 & Hk3).
        apply match_has_identity in Hmatch.
        split; [|split].
        -- unfold keyOf; simpl. repeat split; auto. intros Hu Hn. tauto.
        -- intros t Hin. simpl in *. apply in_app_iff in Hin as [Hin|[<-|[]]].
           ++ apply setAdd_In. right. now apply Hcov.
           ++ apply setAdd_In. now left.
        -- intros t Hin. simpl in Hin. apply in_app_iff in Hin as [Hin|[<-|[]]];
             [now apply Hts | exact HP].
      * apply Hall. apply in_app_iff. right. now right.
  - split; [now apply mapSet_NoDup|].
    intros k1 e1 Hin. apply mapSet_In in Hin as [[-> ->]|Hin]; [|now apply Hall].
    split; [apply keyOf_newEntry|]. split.
    + intros t [<-|[]]. simpl. now left.
    + intros t [<-|[]]. exact HP.
Qed.

Lemma addItems_invariant (P : string * string -> Prop) (thr : Q) (lens : string)
    (items : list ShapedItem) (m : EntityMap) :
  mapInvariant P m ->
  (forall si, In si items -> P (lens, createdAt si)) ->
  mapInvariant P (foldl (addItem dice thr lens) m items).
Proof.
  revert m. induction items as [|si rest IH]; simpl; intros m Hinv HP; [exact Hinv|].
  apply IH; [|intros si' Hin; apply HP; now right].
  apply addItem_invariant; [exact Hinv | apply HP; now left].
Qed.

Lemma buildEntityMap_invariant (thr : Q) (lrs : list LensResult) :
  mapInvariant (recorded lrs) (buildEntityMap dice thr lrs).
Proof.
  unfold buildEntityMap.
  assert (Hgen : forall (done todo : list LensResult) (m : EntityMap),
             lrs = done ++ todo -> mapInvariant (recorded lrs) m ->
             mapInvariant (recorded lrs)
               (foldl (fun m lr => foldl (addItem dice thr (lensId lr)) m (shapedItems lr))
                      m todo)).
  { intros done todo. revert done.
    induction todo as [|lr rest IH]; simpl; intros done m Hsplit Hinv; [exact Hinv|].
    apply (IH (done ++ [lr])).
    - rewrite <- app_assoc. exact Hsplit.
    - apply addItems_invariant; [exact Hinv|].
      intros si Hin. exists lr, si. repeat split; auto.
      rewrite Hsplit. apply in_app_iff. right. now left. }
  apply (Hgen [] lrs); [reflexivity|].
  split; [constructor | intros k e []].
Qed.





End JoinProperties.

Section JoinExamples.
Import Cron Samples.

(** Scenario S4 of the specification: lens A and lens B return the same
    URL, lens C is empty, and the combination [[A,B],[A,C]] fires. *)
Example combination_signal_fires :
  let jr := joinLensResults Convergent.diceCoefficient
              [lens "A" [acmeA]; lens "B" [acmeLate]; lens "C" []]
              (defaults ByEntity) in
  map summary (entities jr) = [("Acme Corp", ["A"; "B"], 2%nat)] /\
  evaluateSignal jr combinationAB ["A"; "B"; "C"]
  = Returns {| fired := true; satisfiedBy := ["A"; "B"]; rule := RCombination;
               matchedCombination := Some ["A"; "B"];
               signalEntities := ["Acme Corp"] |}.
Proof. vm_compute. split; reflexivity. Qed.

(** C1, as stated, fails: with [nameThreshold = 1] two items with the same
    name and different URLs have a Dice coefficient of exactly 1, which is
    at least the threshold, yet the second item is not folded into the
    entry of the first: a second entry is created. *)
Lemma name_threshold_is_exclusive :
  num_ge (Convergent.diceCoefficient (name acmeB) (name acmeA)) (Fin 1) = true /\
  urlMatch acmeB (newEntry "A" acmeA) = false /\
  addItem Convergent.diceCoefficient 1 "B" [("https://acme.com", newEntry "A" acmeA)] acmeB
  = [("https://acme.com", newEntry "A" acmeA); ("https://acme.io", newEntry "B" acmeB)] /\
  map summary (entities (joinLensResults Convergent.diceCoefficient
                           [lens "A" [acmeA]; lens "B" [acmeB]] exactNames))
  = [("Acme Corp", ["A"], 1%nat); ("Acme Corp", ["B"], 1%nat)].
Proof. vm_compute. repeat split; reflexivity. Qed.

Lemma addItem_without_url_match_witness :
  (forall kv, In kv [("https://acme.com", newEntry "A" acmeA)] ->
              urlMatch acmeB (snd kv) = false) /\
  exists pre k e post,
    [("https://acme.com", newEntry "A" acmeA)] = pre ++ (k, e) :: post /\
    nameMatch Convergent.diceCoefficient (85 # 100) acmeB e = true /\
    (forall kv, In kv pre ->
       nameMatch Convergent.diceCoefficient (85 # 100) acmeB (snd kv) = false) /\
    addItem Convergent.diceCoefficient (85 # 100) "B"
      [("https://acme.com", newEntry "A" acmeA)] acmeB
    = pre ++ (k, foldInto "B" acmeB e) :: post.
Proof.
  assert (Hurl : forall kv, In kv [("https://acme.com", newEntry "A" acmeA)] ->
                            urlMatch acmeB (snd kv) = false).
  { intros kv [<-|[]]. reflexivity. }
  split; [exact Hurl|].
  destruct (addItem_without_url_match Convergent.diceCoefficient (85 # 100) "B"
              [("https://acme.com", newEntry "A" acmeA)] acmeB Hurl)
    as (_ & Hfold & _).
  apply Hfold.
  exists ("https://acme.com", newEntry "A" acmeA). split; [now left | reflexivity].
Defined.



End JoinExamples.

Section SignalExamples.
Import Cron Samples.

Lemma evaluateSignal_base_selection_witness :
  evaluateSignal oneEntity combinationAB ["A"; "B"; "C"] = Returns oneEntitySignal /\
  entities oneEntity <> [] /\
  evaluateSignalWithEntities oneEntity combinationAB ["A"; "B"; "C"]
  = Returns oneEntitySignal /\
  (fired oneEntitySignal = true <->
   exists e, In e (entities oneEntity) /\
             entitySatisfies combinationAB ["A"; "B"; "C"] e = true).
Proof.
  assert (Hr : evaluateSignal oneEntity combinationAB ["A"; "B"; "C"]
               = Returns oneEntitySignal) by reflexivity.
  assert (Hne : entities oneEntity <> []) by discriminate.
  split; [exact Hr|]. split; [exact Hne|].
  destruct (evaluateSignal_base_selection oneEntity combinationAB ["A"; "B"; "C"])
    as (_ & _ & Hsel).
  destruct (Hsel oneEntitySignal Hr) as [_ Hentities].
  exact (Hentities Hne).
Defined.

End SignalExamples.

(* ------------------------------------------------------------------ *)
(** ** Niche classification                                            *)
(* ------------------------------------------------------------------ *)

Section NicheProperties.
Import QdWinnow.

Lemma bit_char (b : bool) :
  bit b = String (if b then "1"%char else "0"%char) EmptyString.
Proof. destruct b; reflexivity. Qed.

Lemma niche_cons (b : bool) (v : list bool) :
  v <> [] ->
  join "," (map bit (b :: v))
  = String (if b then "1"%char else "0"%char) (String ","%char (join "," (map bit v))).
Proof.
  destruct v as [|b' rest]; [congruence|]. intros _.
  unfold join. simpl. rewrite bit_char. reflexivity.
Qed.

Lemma niche_length (v : list bool) :
  String.length (join "," (map bit v)) = (2 * length v - 1)%nat.
Proof.
  induction v as [|b [|b' rest] IH].
  - reflexivity.
  - unfold join. simpl. rewrite bit_char. reflexivity.
  - rewrite niche_cons by discriminate.
    cbn [String.length]. rewrite IH. simpl length. lia.
Qed.

Lemma niche_bits (v : list bool) (i : nat) (b : bool) :
  nth_error v i = Some b ->
  String.get (2 * i) (join "," (map bit v)) = Some (if b then "1"%char else "0"%char).
Proof.
  revert i. induction v as [|b0 [|b' rest] IH]; intros i Hi.
  - destruct i; discriminate.
  - destruct i as [|[|i]]; try discriminate.
    injection Hi as ->. unfold join. simpl. rewrite bit_char. reflexivity.
  - rewrite niche_cons by discriminate.
    destruct i as [|i]; [injection Hi as ->; reflexivity|].
    replace (2 * S i)%nat with (S (S (2 * i))) by lia.
    cbn [String.get]. apply IH. exact Hi.
Qed.

Lemma niche_commas (v : list bool) (i : nat) :
  (S i < length v)%nat ->
  String.get (2 * i + 1) (join "," (map bit v)) = Some ","%char.
Proof.
  revert i. induction v as [|b0 [|b' rest] IH]; intros i Hi; simpl in Hi; try lia.
  rewrite niche_cons by discriminate.
  destruct i as [|i]; [reflexivity|].
  replace (2 * S i + 1)%nat with (S (S (2 * i + 1))) by lia.
  cbn [String.get]. apply IH. simpl. lia.
Qed.

(** C5 (amended). For an item classified against N criteria the vector has
    N positions and the niche string is the comma-separated encoding of the
    vector: its length is 2N - 1 (0 when N = 0), the character at every even
    index 2i is 1 or 0 according to position i of the vector, and the
    character at every odd index is a comma. *)
Theorem classifyItem_niche_encoding :
  forall (evaluations : list Evaluation) (criteria : list string),
    let r := classifyItem evaluations criteria in
    length (vector r) = length criteria /\
    niche r = join "," (map bit (vector r)) /\
    String.length (niche r) = (2 * length criteria - 1)%nat /\
    (forall i b, nth_error (vector r) i = Some b ->
       String.get (2 * i) (niche r) = Some (if b then "1"%char else "0"%char)) /\
    (forall i, (S i < length criteria)%nat ->
       String.get (2 * i + 1) (niche r) = Some ","%char).
Proof.
  intros evaluations criteria r.
  assert (Hlen : length (vector r) = length criteria)
    by (unfold r, classifyItem; simpl; apply length_map).
  split; [exact Hlen|]. split; [reflexivity|].
  unfold r, classifyItem in *; simpl in *.
  split; [rewrite niche_length, Hlen; reflexivity|]. split.
  - intros i b. apply niche_bits.
  - intros i Hi. apply niche_commas. rewrite Hlen. exact Hi.
Qed.

(** C5, as stated, fails: against two criteria that are both satisfied the
    niche string is [1,1]: three characters, the middle one a comma. *)
Lemma niche_has_commas :
  length ["Founded after 2015"; "Has research"] = 2%nat /\
  niche (classifyItem Samples.bothSatisfied ["Founded after 2015"; "Has research"]) = "1,1" /\
  String.length
    (niche (classifyItem Samples.bothSatisfied ["Founded after 2015"; "Has research"]))
  = 3%nat /\
  String.get 1
    (niche (classifyItem Samples.bothSatisfied ["Founded after 2015"; "Has research"]))
  = Some ","%char.
Proof. repeat split; reflexivity. Qed.

End NicheProperties.

(* ------------------------------------------------------------------ *)
(** ** Item projection                                                 *)
(* ------------------------------------------------------------------ *)

Section ProjectionProperties.
Import Value Projections.

Lemma lookup_picked (f : string -> Value) (keys : list string) (k : string) :
  In k keys -> lookup k (map (fun k' => (k', f k')) keys) = f k.
Proof.
  induction keys as [|k0 rest IH]; simpl; [intros []|].
  intros Hin. destruct (String.eqb k0 k) eqn:E.
  - apply String.eqb_eq in E. now subst.
  - destruct Hin as [->|Hin]; [rewrite String.eqb_refl in E; discriminate|].
    now apply IH.
Qed.

(** An object made by [pick] is a fixed point of [pick]. *)
Lemma pick_fixed (keys : list string) (e y : Value) :
  pick keys e = Returns y -> pick keys y = Returns y.
Proof.
  unfold pick. destruct (isNullish e); [discriminate|].
  intros Heq. injection Heq as <-. simpl. f_equal. f_equal.
  apply map_ext_in. intros k Hin. f_equal. now apply lookup_picked.
Qed.

Lemma mapO_pick_fixed (keys : list string) (l l' : list Value) :
  mapO (pick keys) l = Returns l' -> mapO (pick keys) l' = Returns l'.
Proof.
  revert l'. induction l as [|e rest IH]; simpl; intros l' Hl.
  - injection Hl as <-. reflexivity.
  - destruct (pick keys e) as [y|] eqn:Hy; [|discriminate]. simpl in Hl.
    destruct (mapO (pick keys) rest) as [ys|] eqn:Hys; [|discriminate].
    simpl in Hl. injection Hl as <-. simpl.
    rewrite (pick_fixed _ _ _ Hy). simpl. rewrite (IH ys eq_refl). reflexivity.
Qed.

Lemma projectList_fixed (keys : list string) (v w : Value) :
  projectList keys v = Returns w -> projectList keys w = Returns w.
Proof.
  unfold projectList. destruct v; try discriminate.
  - intros Hw. injection Hw as <-. reflexivity.
  - intros Hw. injection Hw as <-. reflexivity.
  - destruct (mapO (pick keys) items) as [ys|] eqn:Hys; [|discriminate].
    simpl. intros Hw. injection Hw as <-.
    rewrite (mapO_pick_fixed _ _ _ Hys). reflexivity.
Qed.

(** The shape of every projection. *)
Lemma projectItem_shape (x p : Value) :
  projectItem x = Returns p ->
  exists ev en,
    p = projected (getProp x "id") (extractItemFields x) ev en /\
    projectList evaluationKeys ev = Returns ev /\
    projectList enrichmentKeys en = Returns en.
Proof.
  unfold projectItem. destruct (isNullish x); [discriminate|].
  destruct (projectList evaluationKeys (getProp x "evaluations")) as [ev|] eqn:Hev;
    [|discriminate].
  destruct (projectList enrichmentKeys (getProp x "enrichments")) as [en|] eqn:Hen;
    [|discriminate].
  simpl. intros Hp. injection Hp as <-. exists ev, en.
  split; [reflexivity|]. split; eapply projectList_fixed; eassumption.
Qed.

Lemma projectItem_of_projected (i : Value) (f : ItemFields) (ev en : Value) :
  projectList evaluationKeys ev = Returns ev ->
  projectList enrichmentKeys en = Returns en ->
  projectItem (projected i f ev en) = Returns (projected i defaultFields ev en).
Proof.
  intros Hev Hen. unfold projectItem. simpl. rewrite Hev. simpl. rewrite Hen.
  reflexivity.
Qed.

(** C8 (amended). Projecting a projection never fails; it keeps the id, the
    evaluations and the enrichments, and resets name, url, entityType and
    description to the values of an item without properties. So
    [projectItem (projectItem x)] equals [projectItem x] exactly when the
    projection of [x] already carries these four values, and projecting is
    idempotent from the second application on. *)
Theorem projectItem_twice :
  forall (x p : Value),
    projectItem x = Returns p ->
    exists pp,
      projectItem p = Returns pp /\
      getProp pp "id" = getProp p "id" /\
      getProp pp "evaluations" = getProp p "evaluations" /\
      getProp pp "enrichments" = getProp p "enrichments" /\
      getProp pp "name" = VString "unknown" /\
      getProp pp "url" = VString EmptyString /\
      getProp pp "entityType" = VString "unknown" /\
      getProp pp "description" = VString EmptyString /\
      (pp = p <->
       getProp p "name" = VString "unknown" /\
       getProp p "url" = VString EmptyString /\
       getProp p "entityType" = VString "unknown" /\
       getProp p "description" = VString EmptyString) /\
      projectItem pp = Returns pp.
Proof.
  intros x p Hp.
  destruct (projectItem_shape x p Hp) as (ev & en & -> & Hev & Hen).
  exists (projected (getProp x "id") defaultFields ev en).
  split; [now apply projectItem_of_projected|].
  repeat (split; [reflexivity|]).
  split; [|now apply projectItem_of_projected].
  destruct (extractItemFields x) as [n u t d]. unfold projected; simpl. split.
  - intros Heq. injection Heq as <- <- <- <-. repeat split.
  - intros (-> & -> & -> & ->). reflexivity.
Qed.

(** C8, as stated, fails on the item fixture of the projection tests: its
    projection carries the company name, the projection of that projection
    carries [unknown]. *)
Lemma projectItem_not_idempotent :
  projectItem Samples.rawItem = Returns Samples.rawItemProjected /\
  getProp Samples.rawItemProjected "name" = VString "Acme Corp" /\
  (exists pp, projectItem Samples.rawItemProjected = Returns pp /\
              getProp pp "name" = VString "unknown" /\
              pp <> Samples.rawItemProjected).
Proof.
  split; [reflexivity|]. split; [reflexivity|].
  eexists. split; [reflexivity|]. split; [reflexivity|]. discriminate.
Qed.

Lemma projectItem_twice_witness :
  projectItem Samples.rawItem = Returns Samples.rawItemProjected /\
  exists pp,
    projectItem Samples.rawItemProjected = Returns pp /\
    getProp pp "id" = getProp Samples.rawItemProjected "id" /\
    getProp pp "evaluations" = getProp Samples.rawItemProjected "evaluations" /\
    getProp pp "enrichments" = getProp Samples.rawItemProjected "enrichments" /\
    getProp pp "name" = VString "unknown" /\
    getProp pp "url" = VString EmptyString /\
    getProp pp "entityType" = VString "unknown" /\
    getProp pp "description" = VString EmptyString /\
    (pp = Samples.rawItemProjected <->
     getProp Samples.rawItemProjected "name" = VString "unknown" /\
     getProp Samples.rawItemProjected "url" = VString EmptyString /\
     getProp Samples.rawItemProjected "entityType" = VString "unknown" /\
     getProp Samples.rawItemProjected "description" = VString EmptyString) /\
    projectItem pp = Returns pp.
Proof.
  split; [reflexivity|].
  exact (projectItem_twice Samples.rawItem Samples.rawItemProjected eq_refl).
Defined.

End ProjectionProperties.

(* ------------------------------------------------------------------ *)
(** ** Template expansion                                              *)
(* ------------------------------------------------------------------ *)

Section TemplateProperties.
Import Value Templates.

Lemma append_nil_l (t : string) : EmptyString +:+ t = t.
Proof. reflexivity. Qed.

Lemma append_cons (c : ascii) (s t : string) : String c s +:+ t = String c (s +:+ t).
Proof. reflexivity. Qed.

Ltac unappend := rewrite ?append_cons, ?append_nil_l in *.

Lemma runNonBrace_spec (t : string) :
  braceFree (fst (runNonBrace t)) = true /\
  t = fst (runNonBrace t) +:+ snd (runNonBrace t) /\
  (snd (runNonBrace t) = EmptyString \/
   exists rest, snd (runNonBrace t) = String "}" rest).
Proof.
  induction t as [|c rest IH]; simpl.
  - repeat split. now left.
  - destruct (Ascii.eqb c "}") eqn:E; simpl.
    + apply Ascii.eqb_eq in E. subst c. repeat split. right. now exists rest.
    + destruct (runNonBrace rest) as [r t'] eqn:Hr. simpl in *.
      destruct IH as (Hfree & Heq & Htail).
      rewrite E, Hfree. split; [reflexivity|].
      split; [rewrite Heq at 1; reflexivity | exact Htail].
Qed.

Lemma runNonBrace_body (r post : string) :
  braceFree r = true -> runNonBrace (r +:+ String "}" post) = (r, String "}" post).
Proof.
  induction r as [|c rest IH]; simpl; [reflexivity|].
  intros Hfree. apply andb_true_iff in Hfree as [Hc Hrest].
  apply negb_true_iff in Hc. rewrite Hc, (IH Hrest). reflexivity.
Qed.

Lemma tokenAt_complete (r post : string) :
  isTokenBody r ->
  tokenAt ("{{" +:+ r +:+ "}}" +:+ post) = Some ("{{" +:+ r +:+ "}}").
Proof.
  intros [Hne Hfree].
  change ("{{" +:+ r +:+ "}}" +:+ post)
    with (String "{" (String "{" (r +:+ String "}" (String "}" post)))).
  simpl. rewrite (runNonBrace_body r (String "}" post) Hfree).
  destruct r; [congruence | reflexivity].
Qed.

Lemma tokenAt_sound (s tok : string) :
  tokenAt s = Some tok ->
  exists r post, isTokenBody r /\ s = "{{" +:+ r +:+ "}}" +:+ post /\
                 tok = "{{" +:+ r +:+ "}}".
Proof.
  destruct s as [|a [|b t]]; try discriminate. simpl.
  destruct (Ascii.eqb a "{") eqn:Ea; [|discriminate].
  destruct (Ascii.eqb b "{") eqn:Eb; [|discriminate]. simpl.
  apply Ascii.eqb_eq in Ea, Eb. subst a b.
  pose proof (runNonBrace_spec t) as (Hfree & Heq & _).
  destruct (runNonBrace t) as [r rest]. simpl in *.
  destruct r as [|r0 r']; [discriminate|].
  destruct rest as [|c [|d post]]; try discriminate.
  destruct (Ascii.eqb c "}") eqn:Ec; [|discriminate].
  destruct (Ascii.eqb d "}") eqn:Ed; [|discriminate]. simpl.
  apply Ascii.eqb_eq in Ec, Ed. subst c d.
  intros Htok. injection Htok as <-.
  exists (String r0 r'), post. split; [split; [discriminate | exact Hfree]|].
  split; [|reflexivity]. rewrite Heq. reflexivity.
Qed.

Lemma matchTokens_none (s : string) :
  matchTokens 0 s = [] ->
  forall pre t, s = pre +:+ t -> tokenAt t = None.
Proof.
  induction s as [|c rest IH]; intros Hnil pre t Hsplit.
  - destruct pre; unappend; [|discriminate]. now subst t.
  - cbn [matchTokens] in Hnil.
    destruct (tokenAt (String c rest)) as [tok|] eqn:Htok; [discriminate|].
    destruct pre as [|c' pre']; unappend.
    + now subst t.
    + injection Hsplit as <- Hrest. exact (IH Hnil pre' t Hrest).
Qed.

Lemma matchTokens_found (s : string) (k : nat) (tok : string) :
  In tok (matchTokens k s) ->
  exists pre t, s = pre +:+ t /\ tokenAt t = Some tok.
Proof.
  revert k. induction s as [|c rest IH]; intros k Hin; cbn [matchTokens] in Hin;
    [destruct Hin|].
  assert (Hrest : forall k', In tok (matchTokens k' rest) ->
                    exists pre t, String c rest = pre +:+ t /\ tokenAt t = Some tok).
  { intros k' Hin'. destruct (IH k' Hin') as (pre & t & -> & Ht).
    exists (String c pre), t. split; [reflexivity | exact Ht]. }
  destruct k as [|k]; [|now apply (Hrest k)].
  destruct (tokenAt (String c rest)) as [tok'|] eqn:Htok; [|now apply (Hrest 0%nat)].
  destruct Hin as [<-|Hin]; [|exact (Hrest _ Hin)].
  exists EmptyString, (String c rest). split; [reflexivity | exact Htok].
Qed.

(** The scan finds nothing exactly when the text holds no token. *)
Lemma matchTokens_hasToken (s : string) :
  hasToken s <-> matchTokens 0 s <> [].
Proof.
  split.
  - intros (pre & r & post & Hbody & ->) Hnil.
    pose proof (matchTokens_none _ Hnil pre ("{{" +:+ r +:+ "}}" +:+ post) eq_refl) as Hnone.
    rewrite (tokenAt_complete r post Hbody) in Hnone. discriminate.
  - destruct (matchTokens 0 s) as [|tok rest] eqn:Hm; [congruence|]. intros _.
    destruct (matchTokens_found s 0 tok) as (pre & t & -> & Ht);
      [rewrite Hm; now left|].
    destruct (tokenAt_sound t tok Ht) as (r & post & Hbody & -> & _).
    exists pre, r, post. split; [exact Hbody | reflexivity].
Qed.

Lemma uniq_from (acc l : list string) (y : string) :
  In y (foldl (fun a x => Cron.setAdd x a) acc l) <-> In y acc \/ In y l.
Proof.
  revert acc. induction l as [|x rest IH]; simpl; intros acc; [tauto|].
  rewrite IH, setAdd_In. split.
  - intros [[->|Hacc]|Hrest]; auto.
  - intros [Hacc|[->|Hrest]]; auto.
Qed.

Lemma uniq_In (l : list string) (y : string) : In y (Cron.uniq l) <-> In y l.
Proof. unfold Cron.uniq. rewrite uniq_from. simpl. tauto. Qed.

Lemma setAdd_NoDup (x : string) (s : list string) :
  List.NoDup s -> List.NoDup (Cron.setAdd x s).
Proof.
  intros Hnd. unfold Cron.setAdd. destruct (Cron.inb x s) eqn:E; [exact Hnd|].
  apply NoDup_app_remove_l with (l := []). simpl.
  assert (Hnot : ~ In x s) by (rewrite <- inb_In; congruence).
  clear E. induction s as [|a rest IH]; simpl.
  - constructor; [intros [] | constructor].
  - apply NoDup_cons_iff in Hnd as [Ha Hnd]. constructor.
    + rewrite in_app_iff. simpl. intros [Hin|[<-|[]]]; [contradiction|].
      apply Hnot. now left.
    + apply IH; [exact Hnd|]. intros Hin. apply Hnot. now right.
Qed.

Lemma uniq_NoDup (l : list string) : List.NoDup (Cron.uniq l).
Proof.
  unfold Cron.uniq.
  assert (Hgen : forall acc, List.NoDup acc ->
                   List.NoDup (foldl (fun a x => Cron.setAdd x a) acc l)).
  { induction l as [|x rest IH]; simpl; intros acc Hnd; [exact Hnd|].
    apply IH. now apply setAdd_NoDup. }
  apply Hgen. constructor.
Qed.

Lemma append_assoc3 (a b c : string) : (a +:+ b) +:+ c = a +:+ (b +:+ c).
Proof. induction a as [|x a IH]; [reflexivity|]. rewrite !append_cons. now rewrite IH. Qed.

Lemma prefix_cons (a b : ascii) (s t : string) :
  String.prefix (String a s) (String b t) = true <-> a = b /\ String.prefix s t = true.
Proof.
  cbn [String.prefix]. destruct (ascii_dec a b) as [->|Hne].
  - split; [intros Hp; split; [reflexivity | exact Hp] | intros [_ Hp]; exact Hp].
  - split; [discriminate | intros [Heq _]; contradiction].
Qed.

Lemma prefix_nil_r (s : string) : String.prefix s EmptyString = true -> s = EmptyString.
Proof. destruct s; [reflexivity | discriminate]. Qed.

(** A text without opening brace that is a prefix of [pre ++ "{" ++ rest]
    ends within [pre]. *)
Lemma prefix_before_brace (u : string) :
  forall pre rest,
    noOpening u = true ->
    String.prefix u (pre +:+ String "{" rest) = true ->
    (String.length u <= String.length pre)%nat.
Proof.
  induction u as [|c u IH]; intros pre rest Hno Hp; [simpl; lia|].
  cbn [noOpening] in Hno. apply andb_true_iff in Hno as [Hc Hno].
  destruct pre as [|d pre].
  - rewrite append_nil_l in Hp. apply prefix_cons in Hp as [-> _].
    discriminate.
  - rewrite append_cons in Hp. apply prefix_cons in Hp as [_ Hp].
    specialize (IH pre rest Hno Hp). simpl. lia.
Qed.

Lemma plainName_noOpening (k : string) : plainName k = true -> noOpening k = true.
Proof.
  induction k as [|c k IH]; [reflexivity|]. cbn.
  intros Hp. apply andb_true_iff in Hp as [Hc Hk]. apply andb_true_iff in Hc as [Ho _].
  rewrite Ho. now apply IH.
Qed.

Lemma plainName_braceFree (k : string) : plainName k = true -> braceFree k = true.
Proof.
  induction k as [|c k IH]; [reflexivity|]. cbn.
  intros Hp. apply andb_true_iff in Hp as [Hc Hk]. apply andb_true_iff in Hc as [_ Hcl].
  rewrite Hcl. now apply IH.
Qed.

Lemma noOpening_app (u v : string) :
  noOpening u = true -> noOpening v = true -> noOpening (u +:+ v) = true.
Proof.
  induction u as [|c u IH]; [intros _ Hv; exact Hv|]. cbn. rewrite append_cons. cbn.
  intros Hu Hv. apply andb_true_iff in Hu as [Hc Hu]. rewrite Hc. now apply IH.
Qed.

Lemma length_append (u v : string) :
  String.length (u +:+ v) = (String.length u + String.length v)%nat.
Proof. induction u as [|c u IH]; [reflexivity|]. rewrite append_cons. simpl. now rewrite IH. Qed.

(** An occurrence of the pattern of a plain key that starts before a token
    ends before it. *)
Lemma pattern_before_token (k pre rest : string) :
  plainName k = true -> pre <> EmptyString ->
  String.prefix ("{{" +:+ k +:+ "}}") (pre +:+ "{{" +:+ rest) = true ->
  (String.length ("{{" +:+ k +:+ "}}") <= String.length pre)%nat.
Proof.
  intros Hk Hne Hp.
  assert (Hno : noOpening (k +:+ "}}") = true)
    by (apply noOpening_app; [now apply plainName_noOpening | reflexivity]).
  change ("{{" +:+ k +:+ "}}") with (String "{" (String "{" (k +:+ "}}"))) in *.
  change ("{{" +:+ rest) with (String "{" (String "{" rest)) in Hp.
  destruct pre as [|c1 pre1]; [congruence|].
  rewrite append_cons in Hp. apply prefix_cons in Hp as [_ Hp].
  destruct pre1 as [|c2 pre2].
  - rewrite append_nil_l in Hp. apply prefix_cons in Hp as [_ Hp].
    pose proof (prefix_before_brace _ EmptyString rest Hno Hp) as Hlen.
    rewrite length_append in Hlen. simpl in Hlen. lia.
  - rewrite append_cons in Hp. apply prefix_cons in Hp as [_ Hp].
    pose proof (prefix_before_brace _ pre2 (String "{" rest) Hno Hp) as Hlen.
    simpl. lia.
Qed.

(** The pattern of a plain key occurs at the head of the token of a plain
    name only when the key is the name. *)
Lemma pattern_at_token (k : string) :
  forall name post,
    braceFree k = true -> braceFree name = true ->
    String.prefix (k +:+ "}}") (name +:+ "}}" +:+ post) = true -> k = name.
Proof.
  induction k as [|a k IH]; intros name post Hk Hn Hp.
  - destruct name as [|b name]; [reflexivity|].
    rewrite append_nil_l, append_cons in Hp. apply prefix_cons in Hp as [<- _].
    discriminate.
  - cbn [braceFree] in Hk. apply andb_true_iff in Hk as [Ha Hk].
    destruct name as [|b name].
    + rewrite append_cons, append_nil_l in Hp.
      change ("}}" +:+ post) with (String "}" (String "}" post)) in Hp.
      apply prefix_cons in Hp as [-> _]. discriminate.
    + cbn [braceFree] in Hn. apply andb_true_iff in Hn as [_ Hn].
      rewrite !append_cons in Hp. apply prefix_cons in Hp as [-> Hp].
      f_equal. exact (IH name post Hk Hn Hp).
Qed.

(** Past a text without opening brace the scan of [replaceAll] for a
    pattern that opens with a brace copies the text. *)
Lemma replaceFrom_copies (k replacement u : string) :
  forall before rest,
    noOpening u = true ->
    exists before',
      replaceFrom ("{{" +:+ k +:+ "}}") replacement before 0 (u +:+ rest)
      = u +:+ replaceFrom ("{{" +:+ k +:+ "}}") replacement before' 0 rest.
Proof.
  assert (Hhead : forall c t, Ascii.eqb c "{" = false ->
                    String.prefix ("{{" +:+ k +:+ "}}") (String c t) = false).
  { intros c t Hc.
    change ("{{" +:+ k +:+ "}}") with (String "{" (String "{" (k +:+ "}}"))).
    cbn [String.prefix]. destruct (ascii_dec "{" c) as [<-|]; [discriminate | reflexivity]. }
  set (pat := "{{" +:+ k +:+ "}}") in *.
  induction u as [|c u IH]; intros before rest Hno.
  - exists before. reflexivity.
  - cbn [noOpening] in Hno. apply andb_true_iff in Hno as [Hc Hno].
    apply negb_true_iff in Hc.
    rewrite append_cons. cbn [replaceFrom]. rewrite (Hhead c _ Hc).
    destruct (IH (before +:+ String c EmptyString) rest Hno) as (before' & ->).
    exists before'. reflexivity.
Qed.

(** The scan of [replaceAll] for the pattern of a plain key passes over the
    token of another plain name. *)
Lemma replaceFrom_over_token (k replacement name post before : string) :
  plainName k = true -> plainName name = true -> name <> EmptyString -> k <> name ->
  exists before',
    replaceFrom ("{{" +:+ k +:+ "}}") replacement before 0
                ("{{" +:+ name +:+ "}}" +:+ post)
    = "{{" +:+ name +:+ "}}"
      +:+ replaceFrom ("{{" +:+ k +:+ "}}") replacement before' 0 post.
Proof.
  intros Hk Hname Hne Hdiff.
  destruct name as [|n0 name']; [congruence|].
  assert (Hn0 : Ascii.eqb n0 "{" = false).
  { cbn [plainName] in Hname. apply andb_true_iff in Hname as [Hc _].
    apply andb_true_iff in Hc as [Ho _]. now apply negb_true_iff in Ho. }
  set (name := String n0 name') in *.
  set (pat := "{{" +:+ k +:+ "}}").
  change ("{{" +:+ name +:+ "}}" +:+ post)
    with (String "{" (String "{" (name +:+ "}}" +:+ post))).
  cbn [replaceFrom].
  assert (Hp0 : String.prefix pat (String "{" (String "{" (name +:+ "}}" +:+ post))) = false).
  { destruct (String.prefix pat _) eqn:Hp; [|reflexivity]. exfalso. apply Hdiff.
    unfold pat in Hp.
    change ("{{" +:+ k +:+ "}}") with (String "{" (String "{" (k +:+ "}}"))) in Hp.
    apply prefix_cons in Hp as [_ Hp]. apply prefix_cons in Hp as [_ Hp].
    apply (pattern_at_token k name post); auto using plainName_braceFree. }
  rewrite Hp0.
  assert (Hp1 : String.prefix pat (String "{" (name +:+ "}}" +:+ post)) = false).
  { unfold pat, name.
    change ("{{" +:+ k +:+ "}}") with (String "{" (String "{" (k +:+ "}}"))).
    rewrite append_cons. cbn [String.prefix].
    destruct (ascii_dec "{" "{"); [|reflexivity].
    destruct (ascii_dec "{" n0) as [<-|]; [discriminate | reflexivity]. }
  cbn [replaceFrom]. rewrite Hp1.
  assert (Hno : noOpening (name +:+ "}}") = true)
    by (apply noOpening_app; [now apply plainName_noOpening | reflexivity]).
  rewrite <- (append_assoc3 name "}}" post).
  destruct (replaceFrom_copies k replacement (name +:+ "}}")
              ((before +:+ "{") +:+ "{") post Hno) as (before' & Heq).
  fold pat in Heq. rewrite Heq. exists before'.
  rewrite (append_assoc3 name "}}" _). reflexivity.
Qed.

(** The scan of [replaceAll] for the pattern of a plain key keeps the token
    of every other plain name. *)
Lemma replaceFrom_keeps_token (k replacement name post : string) :
  plainName k = true -> plainName name = true -> name <> EmptyString -> k <> name ->
  forall pre before skip,
    (skip <= String.length pre)%nat ->
    holdsTokenOf (replaceFrom ("{{" +:+ k +:+ "}}") replacement before skip
                    (pre +:+ "{{" +:+ name +:+ "}}" +:+ post)) name.
Proof.
  intros Hk Hname Hne Hdiff. set (pat := "{{" +:+ k +:+ "}}").
  induction pre as [|c pre IH]; intros before skip Hskip.
  - simpl in Hskip. assert (skip = 0%nat) as -> by lia. rewrite append_nil_l.
    destruct (replaceFrom_over_token k replacement name post before Hk Hname Hne Hdiff)
      as (before' & Heq).
    fold pat in Heq. rewrite Heq. exists EmptyString. eexists. reflexivity.
  - rewrite append_cons. cbn [replaceFrom]. destruct skip as [|skip].
    + destruct (String.prefix pat (String c (pre +:+ "{{" +:+ name +:+ "}}" +:+ post)))
        eqn:Hp.
      * assert (Hlen : (String.length pat <= String.length (String c pre))%nat).
        { apply (pattern_before_token k (String c pre) (name +:+ "}}" +:+ post) Hk);
            [discriminate|]. rewrite append_cons. exact Hp. }
        destruct (IH (before +:+ String c EmptyString) (String.length pat - 1)%nat)
          as (pre' & post' & Heq);
          [change (String.length (String c pre)) with (S (String.length pre)) in Hlen; lia|].
        rewrite Heq.
        match goal with
        | |- holdsTokenOf (?g +:+ _) _ => exists (g +:+ pre'), post'
        end.
        now rewrite append_assoc3.
      * destruct (IH (before +:+ String c EmptyString) 0%nat) as (pre' & post' & Heq);
          [lia|].
        rewrite Heq. exists (String c pre'), post'. reflexivity.
    + destruct (IH (before +:+ String c EmptyString) skip) as (pre' & post' & Heq);
        [simpl in Hskip; lia|].
      exists pre', post'. exact Heq.
Qed.

Lemma substituteAll_keeps_token (name : string) (variables : Variables) :
  plainName name = true -> name <> EmptyString ->
  (forall kv, In kv variables -> plainName (fst kv) = true) ->
  ~ In name (map fst variables) ->
  forall json, holdsTokenOf json name -> holdsTokenOf (substituteAll json variables) name.
Proof.
  intros Hname Hne. unfold substituteAll.
  induction variables as [|kv rest IH]; intros Hkeys Hnot json Hholds; [exact Hholds|].
  simpl. apply IH.
  - intros kv' Hin. apply Hkeys. now right.
  - intros Hin. apply Hnot. now right.
  - destruct Hholds as (pre & post & ->). unfold replaceAll.
    apply replaceFrom_keeps_token; auto.
    + apply Hkeys. now left.
    + intros Heq. apply Hnot. left. exact Heq.
    + lia.
Qed.

(** C2 (amended). Template expansion fails validation, at step [validate]
    and with a message that lists every distinct token the scan reports,
    exactly when the text left by the substitutions still holds a token;
    every reported token has the token shape. Otherwise that text holds
    no token and the result is whatever [JSON.parse] makes of it. When the
    workflow is given a variable map, this is how it obtains its
    configuration. In particular, when no key of the variable map holds a
    brace, a configuration whose text holds the token of a name that holds
    no brace and is not a key of the map always fails validation: no
    substitution touches that token, which is still in the text that is
    scanned. *)
Theorem expandTemplates_outcome :
  forall (JSON_parse : string -> option Value) (config : Value) (variables : Variables),
    match stringify config with
    | None => expandTemplates JSON_parse config variables = Throws TypeError
    | Some json =>
        let expanded := substituteAll json variables in
        let unresolved := matchTokens 0 expanded in
        (hasToken expanded <-> unresolved <> []) /\
        (forall tok, In tok unresolved ->
           exists r, isTokenBody r /\ tok = "{{" +:+ r +:+ "}}") /\
        (hasToken expanded ->
         expandTemplates JSON_parse config variables
         = Throws (WorkflowError
                     ("Unresolved template variables: "
                      +:+ join ", " (Cron.uniq unresolved))
                     "validate" false) /\
         (forall tok, In tok unresolved <-> In tok (Cron.uniq unresolved)) /\
         List.NoDup (Cron.uniq unresolved)) /\
        (~ hasToken expanded ->
         expandTemplates JSON_parse config variables
         = match JSON_parse expanded with
           | Some parsed => Returns parsed
           | None => Throws SyntaxError
           end) /\
        (forall name,
           (forall kv, In kv variables -> plainName (fst kv) = true) ->
           plainName name = true -> name <> EmptyString ->
           ~ In name (map fst variables) ->
           holdsTokenOf json name ->
           holdsTokenOf expanded name /\
           hasToken expanded /\
           expandTemplates JSON_parse config variables
           = Throws (WorkflowError
                       ("Unresolved template variables: "
                        +:+ join ", " (Cron.uniq unresolved))
                       "validate" false))
    end /\
    resolveConfig JSON_parse config (Some variables)
    = expandTemplates JSON_parse config variables.
Proof.
  intros JSON_parse config variables. split; [|reflexivity].
  unfold expandTemplates.
  destruct (stringify config) as [json|]; [|reflexivity].
  cbv zeta. set (expanded := substituteAll json variables).
  pose proof (matchTokens_hasToken expanded) as Hiff.
  split; [exact Hiff|]. split; [|split; [|split]].
  - intros tok Hin.
    destruct (matchTokens_found expanded 0 tok Hin) as (pre & t & _ & Ht).
    destruct (tokenAt_sound t tok Ht) as (r & post & Hbody & _ & Htok).
    now exists r.
  - intros Htoken. apply Hiff in Htoken.
    destruct (matchTokens 0 expanded) as [|tok rest] eqn:Hm; [congruence|].
    split; [reflexivity|]. split; [|apply uniq_NoDup].
    intros t. symmetry. apply uniq_In.
  - intros Hnone.
    destruct (matchTokens 0 expanded) as [|tok rest] eqn:Hm; [reflexivity|].
    exfalso. apply Hnone, Hiff. discriminate.
  - intros name Hkeys Hplain Hne Hnot Hholds.
    assert (Hkept : holdsTokenOf expanded name)
      by exact (substituteAll_keeps_token name variables Hplain Hne Hkeys Hnot json Hholds).
    assert (Htoken : hasToken expanded).
    { destruct Hkept as (pre & post & Heq). exists pre, name, post.
      split; [|exact Heq]. split; [exact Hne | now apply plainName_braceFree]. }
    split; [exact Hkept|]. split; [exact Htoken|].
    apply Hiff in Htoken.
    destruct (matchTokens 0 expanded) as [|tok rest] eqn:Hm; [congruence | reflexivity].
Qed.

End TemplateProperties.

Section TemplateExamples.
Import Value Templates Samples.

(** Scenario S5 of the specification: an unresolved [{{subject}}]. *)
Example unresolved_subject_fails :
  forall JSON_parse,
    resolveConfig JSON_parse (oneLensConfig "{{subject}} hiring") (Some [])
    = Throws (WorkflowError "Unresolved template variables: {{subject}}" "validate" false).
Proof. intros JSON_parse. vm_compute. reflexivity. Qed.

(** C2, as stated, fails. The query [{{{a}}} hiring] holds the token
    [{{{a}}], whose name [{a] is no key of the variable map; the map's only
    key is [{a}]. The substitution of [{{{a}}}] leaves a text without any
    token, so no validation error is raised. A key without brace does the
    same to a name that holds one: in [{{{a}} hiring] the token [{{{a}}] of
    the name [{a] is no key of the map with the only key [a], and the
    substitution of [{{a}}] leaves no token. *)
Lemma foreign_token_passes_validation :
  matchTokens 0 (textOf (oneLensConfig "{{{a}}} hiring")) = ["{{{a}}"] /\
  map fst [("{a}", "AI")] = ["{a}"] /\
  "{a" <> "{a}" /\
  matchTokens 0 (substituteAll (textOf (oneLensConfig "{{{a}}} hiring")) [("{a}", "AI")])
  = [] /\
  substituteAll (textOf (oneLensConfig "{{{a}}} hiring")) [("{a}", "AI")]
  = textOf (oneLensConfig "AI hiring") /\
  matchTokens 0 (textOf (oneLensConfig "{{{a}} hiring")) = ["{{{a}}"] /\
  "{a" <> "a" /\
  matchTokens 0 (substituteAll (textOf (oneLensConfig "{{{a}} hiring")) [("a", "AI")])
  = [] /\
  substituteAll (textOf (oneLensConfig "{{{a}} hiring")) [("a", "AI")]
  = textOf (oneLensConfig "{AI hiring").
Proof. vm_compute. repeat split; try reflexivity; discriminate. Qed.

(** A token that no substitution can touch: with the variable [region]
    only, the token of [subject] is still in the text that is scanned and
    the expansion fails validation. *)
Lemma expandTemplates_outcome_witness :
  let config := oneLensConfig "{{subject}} hiring in {{region}}" in
  let variables := [("region", "Europe")] in
  let json := textOf config in
  stringify config = Some json /\
  plainName "region" = true /\ plainName "subject" = true /\
  ~ In "subject" (map fst variables) /\
  holdsTokenOf json "subject" /\
  holdsTokenOf (substituteAll json variables) "subject" /\
  expandTemplates (fun _ => None) config variables
  = Throws (WorkflowError "Unresolved template variables: {{subject}}" "validate" false).
Proof.
  intros config variables json.
  assert (Hjson : stringify config = Some json) by reflexivity.
  assert (Hnot : ~ In "subject" (map fst variables))
    by (intros [Heq|[]]; discriminate).
  assert (Hholds : holdsTokenOf json "subject").
  { exists (String.substring 0 45 json),
           (String.substring 56 (String.length json - 56) json).
    vm_compute. reflexivity. }
  pose proof (expandTemplates_outcome (fun _ => None) config variables) as [Hout _].
  rewrite Hjson in Hout. cbv zeta in Hout.
  destruct Hout as (_ & _ & _ & _ & Hplain).
  destruct (Hplain "subject") as (Hkept & _ & Hthrows); auto.
  { intros kv [<-|[]]. reflexivity. }
  split; [exact Hjson|]. split; [reflexivity|]. split; [reflexivity|].
  split; [exact Hnot|]. split; [exact Hholds|]. split; [exact Hkept|].
  rewrite Hthrows. vm_compute. reflexivity.
Defined.

End TemplateExamples.

(* ------------------------------------------------------------------ *)
(** ** Polling, collection and cancellation                            *)
(* ------------------------------------------------------------------ *)

Section WorkflowProperties.
Import Value Helpers Lifecycle CronWorkflow.

Lemma eqb_ne (a b : string) : a <> b -> String.eqb a b = false.
Proof. intros Hne. now apply String.eqb_neq. Qed.

(** One iteration of the poll loop that finds the deadline passed. *)
Lemma pollLoop_deadline (env : Env) (fuel : nat) (ws : string)
    (deadline stepNum totalSteps : Z) (w : World) (webset : Webset) :
  onGet env (gets w) = Returns webset ->
  status webset <> "idle" -> status webset <> "paused" ->
  (deadline <= clock env (clockReads w))%Z ->
  exists w',
    pollLoop env (S fuel) ws deadline stepNum totalSteps w
    = Some (Returns (webset, true), w') /\
    cancels w' = cancels w /\
    calls w' = calls w ++ [GetWebset ws].
Proof.
  intros Hget Hidle Hpaused Hlate.
  cbn [pollLoop]. unfold bind at 1. unfold websetsGet at 1. rewrite Hget.
  rewrite (eqb_ne _ _ Hidle), (eqb_ne _ _ Hpaused).
  unfold bind, now, ret. cbn.
  apply Z.leb_le in Hlate. rewrite Hlate.
  eexists. split; [reflexivity|]. split; reflexivity.
Qed.

(** One iteration of the poll loop that goes round again. *)
Lemma pollLoop_continue (env : Env) (fuel : nat) (ws : string)
    (deadline stepNum totalSteps : Z) (w : World) (webset : Webset) :
  onGet env (gets w) = Returns webset ->
  status webset <> "idle" -> status webset <> "paused" ->
  (clock env (clockReads w) < deadline)%Z ->
  cancelled env (cancelChecks w) = false ->
  exists w2,
    pollLoop env (S fuel) ws deadline stepNum totalSteps w
    = pollLoop env fuel ws deadline stepNum totalSteps w2 /\
    clockReads w2 = S (clockReads w) /\
    cancelChecks w2 = S (cancelChecks w) /\
    gets w2 = S (gets w) /\
    cancels w2 = cancels w.
Proof.
  intros Hget Hidle Hpaused Hearly Hnot.
  cbn [pollLoop]. unfold bind at 1. unfold websetsGet at 1. rewrite Hget.
  rewrite (eqb_ne _ _ Hidle), (eqb_ne _ _ Hpaused).
  unfold bind at 1. unfold now at 1. cbn [clockReads].
  apply Z.leb_gt in Hearly. rewrite Hearly.
  destruct (lastProgress webset) as [prog|];
    unfold bind, updateProgress, ret, isCancelled, sleep, logCall; cbn;
    rewrite Hnot; eexists; (split; [reflexivity|]); repeat split.
Qed.

(** A poll loop that goes round [k] times and then finds the deadline
    reached returns [timedOut = true], with any fuel above [k]. *)
Lemma pollLoop_times_out (env : Env) (k : nat) :
  forall (fuel : nat) (ws : string) (deadline stepNum totalSteps : Z) (w : World)
         (webset : Webset),
    (forall i, (i < k)%nat -> keepsPolling env deadline w i) ->
    findsDeadline env deadline w k webset ->
    exists w',
      pollLoop env (S k + fuel) ws deadline stepNum totalSteps w
      = Some (Returns (webset, true), w') /\
      cancels w' = cancels w.
Proof.
  induction k as [|k IH]; intros fuel ws deadline stepNum totalSteps w webset Hkeep Hlast.
  - destruct Hlast as (Hget & Hidle & Hpaused & Hlate).
    rewrite Nat.add_0_r in Hget, Hlate.
    destruct (pollLoop_deadline env fuel ws deadline stepNum totalSteps w webset
                Hget Hidle Hpaused Hlate) as (w' & Hrun & Hc & _).
    exists w'. split; assumption.
  - destruct (Hkeep 0%nat ltac:(lia)) as (first & Hget & Hidle & Hpaused & Hearly & Hnot).
    rewrite Nat.add_0_r in Hget, Hearly, Hnot.
    change (S (S k) + fuel)%nat with (S (S k + fuel)).
    destruct (pollLoop_continue env (S k + fuel) ws deadline stepNum totalSteps w first
                Hget Hidle Hpaused Hearly Hnot)
      as (w2 & Hstep & Hc2 & Hk2 & Hg2 & Hx2).
    rewrite Hstep.
    destruct (IH fuel ws deadline stepNum totalSteps w2 webset) as (w' & Hrun & Hc).
    + intros i Hi. destruct (Hkeep (S i) ltac:(lia)) as (wi & H1 & H2 & H3 & H4 & H5).
      exists wi. rewrite Hg2, Hc2, Hk2. rewrite !Nat.add_succ_comm.
      repeat split; assumption.
    + destruct Hlast as (H1 & H2 & H3 & H4).
      unfold findsDeadline. rewrite Hg2, Hc2. rewrite !Nat.add_succ_comm.
      repeat split; assumption.
    + exists w'. split; [exact Hrun | congruence].
Qed.

(** The run of [lifecycle.harvest] once its poll step has returned. *)
Lemma lifecycle_after_poll (env : Env) (fuel : nat) (args : Args) (w : World)
    (st : Started) (w1 : World) (polled : Webset * bool) (w2 : World) :
  beforePoll env args w = Some (Returns (Some st), w1) ->
  pollUntilIdle env fuel (createdWebset st) (orElse (timeout args) 300000%Z) 2%Z 4%Z w1
  = Some (Returns polled, w2) ->
  lifecycleHarvestWorkflow env fuel args w
  = (let* tPoll := track env "poll" (pollStart st) in
     afterPoll env args (startTime st) (createdWebset st) (trackedSoFar st ++ [tPoll])
               (fst polled) (snd polled)) w2.
Proof.
  intros Hbefore Hpoll.
  unfold lifecycleHarvestWorkflow. unfold bind at 1. rewrite Hbefore.
  unfold bind at 1. rewrite Hpoll. reflexivity.
Qed.

(** C7 (amended). When [pollUntilIdle], after any number of rounds, fetches
    a webset that is neither idle nor paused and finds the deadline
    reached, it returns that webset with [timedOut = true], given fuel for
    these rounds; it does not throw and does not cancel. And a
    [lifecycle.harvest] run whose poll step returns [timedOut = true] never
    fails because of the timeout: unless the task is found cancelled at the
    check after the poll (the run then returns null) or the item listing
    itself fails (the run then fails with that error), it completes with a
    result that carries the webset id, the collected items and
    [timedOut: true]. *)
Theorem poll_timeout_returns_partial :
  forall (env : Env),
    (forall k fuel ws timeoutMs stepNum totalSteps w webset,
       let deadline := (clock env (clockReads w) + timeoutMs)%Z in
       (forall i, (i < k)%nat -> keepsPolling env deadline (tick w) i) ->
       findsDeadline env deadline (tick w) k webset ->
       exists w',
         pollUntilIdle env (S k + fuel) ws timeoutMs stepNum totalSteps w
         = Some (Returns (webset, true), w') /\
         cancels w' = cancels w) /\
    (forall fuel args w st w1 finalWebset w2,
       beforePoll env args w = Some (Returns (Some st), w1) ->
       pollUntilIdle env fuel (createdWebset st) (orElse (timeout args) 300000%Z) 2%Z 4%Z w1
       = Some (Returns (finalWebset, true), w2) ->
       (cancelled env (cancelChecks w2) = true ->
        exists w', lifecycleHarvestWorkflow env fuel args w = Some (Returns None, w')) /\
       (forall e,
          cancelled env (cancelChecks w2) = false ->
          collectFrom (orElse (count args) 25 * 2)%Z [] (onListAll env (listings w2))
          = Throws e ->
          exists w', lifecycleHarvestWorkflow env fuel args w = Some (Throws e, w')) /\
       (forall collected,
          cancelled env (cancelChecks w2) = false ->
          collectFrom (orElse (count args) 25 * 2)%Z [] (onListAll env (listings w2))
          = Returns collected ->
          exists r w',
            lifecycleHarvestWorkflow env fuel args w = Some (Returns (Some r), w') /\
            resultWebsetId r = createdWebset st /\
            timedOut r = Some true /\
            items r = collected /\
            searchProgress r = lastProgress finalWebset)).
Proof.
  intros env. split.
  - intros k fuel ws timeoutMs stepNum totalSteps w webset deadline Hkeep Hlast.
    unfold pollUntilIdle, bind, now. fold deadline.
    exact (pollLoop_times_out env k fuel ws deadline stepNum totalSteps (tick w) webset
             Hkeep Hlast).
  - intros fuel args w st w1 finalWebset w2 Hbefore Hpoll.
    rewrite (lifecycle_after_poll env fuel args w st w1 _ w2 Hbefore Hpoll).
    unfold afterPoll, track, collectItems, listAll, isCancelled, now, updateProgress,
      lift, bind, ret. cbn.
    split; [|split].
    + intros Hyes. rewrite Hyes. eexists. reflexivity.
    + intros e Hnot Hfail. rewrite Hnot. cbn. rewrite Hfail. eexists. reflexivity.
    + intros collected Hnot Hcollect. rewrite Hnot. cbn. rewrite Hcollect. cbn.
      destruct (orElse (cleanup args) false); cbn.
      * unfold attempt, websetsDelete. cbn.
        destruct (onDelete env (deletes w2));
          (eexists; eexists; split; [reflexivity|]; repeat split; reflexivity).
      * eexists; eexists; split; [reflexivity|]; repeat split; reflexivity.
Qed.

(** The collector never goes past a cap of at least one. *)
Lemma collectFrom_cap (cap : Z) (s : ItemStream) (acc items : list Value) :
  (1 <= cap)%Z -> (Z.of_nat (length acc) < cap)%Z ->
  collectFrom cap acc s = Returns items ->
  (Z.of_nat (length items) <= cap)%Z.
Proof.
  intros Hcap. revert acc. induction s as [|item rest IH|e]; intros acc Hacc Hres;
    simpl in Hres.
  - injection Hres as <-. lia.
  - destruct (cap <=? Z.of_nat (length (acc ++ [item])))%Z eqn:Hfull.
    + injection Hres as <-. rewrite length_app in *. simpl in *. lia.
    + apply Z.leb_gt in Hfull. exact (IH _ Hfull Hres).
  - discriminate.
Qed.

Lemma collectLenses_totals (env : Env)
    (shapeItems : LensConfig -> list (string * string) -> list Value
                  -> M (list Cron.ShapedItem))
    (lenses : list LensConfig) (st : Progressed) :
  forall acc w results w',
    collectLenses env shapeItems lenses st acc w = Some (Returns results, w') ->
    forall lr, In lr results ->
      In lr acc \/ (Z.of_nat (Cron.totalItems lr) <= defaultCap)%Z.
Proof.
  induction lenses as [|lens rest IH]; intros acc w results w' Hrun lr Hin.
  - cbn in Hrun. unfold ret in Hrun. injection Hrun as <- <-. now left.
  - cbn [collectLenses] in Hrun. unfold bind at 1 in Hrun.
    destruct (collectItems env (idOf lens (websetIds st)) None w)
      as [[[rawItems|e] w1]|] eqn:Hc; try discriminate.
    unfold bind at 1 in Hrun.
    destruct (shapeItems lens _ rawItems w1) as [[[shaped|e] w2]|]; try discriminate.
    destruct (IH _ _ _ _ Hrun lr Hin) as [Hacc|Hle]; [|now right].
    apply in_app_iff in Hacc as [Hacc|[<-|[]]]; [now left|]. right. simpl.
    unfold collectItems, bind, listAll, lift in Hc. cbn in Hc.
    destruct (collectFrom defaultCap [] (onListAll env (listings w))) as [got|] eqn:Hgot;
      [|discriminate].
    injection Hc as <- <-.
    apply (collectFrom_cap defaultCap (onListAll env (listings w)) [] got);
      [unfold defaultCap; lia | simpl; unfold defaultCap; lia | exact Hgot].
Qed.

(** C9 (amended). For a cap of at least one the collector returns at most
    that many items. When the caller gives no cap, the cap is 1000.
    [lifecycle.harvest] passes twice its item count as cap, so its result
    holds at most that many items; [semantic.cron] gives no cap, so each of
    its lens results counts at most 1000 items. *)
Theorem collectItems_cap :
  forall (env : Env),
    (forall cap s items,
       (1 <= cap)%Z -> collectFrom cap [] s = Returns items ->
       (Z.of_nat (length items) <= cap)%Z) /\
    (forall ws, collectItems env ws None = collectItems env ws (Some 1000%Z)) /\
    (forall args start ws tracked finalWebset pollTimedOut w r w',
       (1 <= orElse (count args) 25 * 2)%Z ->
       afterPoll env args start ws tracked finalWebset pollTimedOut w
       = Some (Returns (Some r), w') ->
       (Z.of_nat (length (items r)) <= orElse (count args) 25 * 2)%Z /\
       itemCount r = length (items r)) /\
    (forall shapeItems lenses st w results w',
       collectLenses env shapeItems lenses st [] w = Some (Returns results, w') ->
       forall lr, In lr results -> (Z.of_nat (Cron.totalItems lr) <= 1000)%Z).
Proof.
  intros env. split; [|split; [|split]].
  - intros cap s items Hcap Hres.
    apply (collectFrom_cap cap s [] items Hcap); [simpl; lia | exact Hres].
  - reflexivity.
  - intros args start ws tracked finalWebset pollTimedOut w r w' Hcap Hrun.
    unfold afterPoll, track, collectItems, listAll, isCancelled, now, updateProgress,
      lift, bind, ret in Hrun. cbn in Hrun.
    destruct (cancelled env (cancelChecks w)); [discriminate|]. cbn in Hrun.
    destruct (collectFrom (orElse (count args) 25 * 2)%Z [] (onListAll env (listings w)))
      as [got|e] eqn:Hgot; [|discriminate]. cbn in Hrun.
    assert (Hlen : (Z.of_nat (length got) <= orElse (count args) 25 * 2)%Z)
      by (apply (collectFrom_cap _ (onListAll env (listings w)) [] got Hcap);
          [simpl; lia | exact Hgot]).
    destruct (orElse (cleanup args) false); cbn in Hrun.
    + unfold attempt, websetsDelete in Hrun. cbn in Hrun.
      destruct (onDelete env (deletes w)); injection Hrun as <- <-; split; auto.
    + injection Hrun as <- <-. split; auto.
  - intros shapeItems lenses st w results w' Hrun lr Hin.
    destruct (collectLenses_totals env shapeItems lenses st [] w results w' Hrun lr Hin)
      as [[]|Hle].
    exact Hle.
Qed.

End WorkflowProperties.

Section WorkflowExamples.
Import Value Helpers Lifecycle CronWorkflow Samples.

(** Scenario S1 of the specification: the upstream stays [running], the
    timeout is 100 ms; the task completes with [timedOut: true], no item,
    and the webset id. *)
Example harvest_timeout_returns_partial :
  exists r w,
    lifecycleHarvestWorkflow (stuckUpstream None StreamEnd) 5 harvestArgs initialWorld
    = Some (Returns (Some r), w) /\
    timedOut r = Some true /\ items r = [] /\ resultWebsetId r = "ws_1" /\
    calls w = [CreateWebset harvestParams; GetWebset "ws_1"; ListAll "ws_1"].
Proof. eexists. eexists. vm_compute. repeat split; reflexivity. Qed.

Lemma poll_timeout_returns_partial_witness :
  exists r w,
    lifecycleHarvestWorkflow (stuckUpstream None StreamEnd) 5 harvestArgs initialWorld
    = Some (Returns (Some r), w) /\
    resultWebsetId r = "ws_1" /\
    timedOut r = Some true /\
    items r = [] /\
    searchProgress r = Some {| found := 0; analyzed := 0 |}.
Proof.
  destruct (poll_timeout_returns_partial (stuckUpstream None StreamEnd)) as [_ Hrun].
  edestruct (Hrun 5%nat harvestArgs initialWorld) as (_ & _ & Hdone).
  - vm_compute. reflexivity.
  - vm_compute. reflexivity.
  - edestruct Hdone as (r & w & Hr & Hid & Hto & Hitems & Hsp).
    + reflexivity.
    + vm_compute. reflexivity.
    + exists r, w. repeat split; assumption.
Defined.

(** C7, as stated, fails. The upstream stays [running] and the poll step
    times out as in scenario S1; the item listing that follows fails, and
    the run fails with that error: nothing catches it. And when the task is
    found cancelled at the check after the timed-out poll, the run returns
    null, a result without webset id and without [timedOut]. *)
Lemma timed_out_poll_then_failed_listing :
  let env := stuckUpstream None (StreamFail UpstreamError) in
  (exists st w1 webset w2 w,
     beforePoll env harvestArgs initialWorld = Some (Returns (Some st), w1) /\
     pollUntilIdle env 5 (createdWebset st) (orElse (timeout harvestArgs) 300000%Z)
                   2%Z 4%Z w1
     = Some (Returns (webset, true), w2) /\
     lifecycleHarvestWorkflow env 5 harvestArgs initialWorld
     = Some (Throws UpstreamError, w) /\
     calls w = [CreateWebset harvestParams; GetWebset "ws_1"; ListAll "ws_1"]) /\
  (exists st w1 webset w2 w,
     beforePoll (stuckUpstream (Some 2%nat) StreamEnd) harvestArgs initialWorld
     = Some (Returns (Some st), w1) /\
     pollUntilIdle (stuckUpstream (Some 2%nat) StreamEnd) 5 (createdWebset st)
                   (orElse (timeout harvestArgs) 300000%Z) 2%Z 4%Z w1
     = Some (Returns (webset, true), w2) /\
     lifecycleHarvestWorkflow (stuckUpstream (Some 2%nat) StreamEnd) 5 harvestArgs
                              initialWorld
     = Some (Returns None, w)).
Proof.
  split.
  - do 5 eexists. vm_compute. repeat split; reflexivity.
  - do 5 eexists. vm_compute. repeat split; reflexivity.
Qed.

(** C9, as stated, fails. With no cap given the collector returns three
    items where twice the requested count is two: the collect step of
    [semantic.cron], for a lens that asks for one item, counts three. And a
    cap of zero lets one item through. *)
Lemma default_cap_is_not_twice_count :
  sourceCount (source singleItemLens) = Some 1%Z /\
  (exists got w,
     collectItems (stuckUpstream None threeItems) "ws_1" None initialWorld
     = Some (Returns got, w) /\ length got = 3%nat) /\
  (exists done w,
     collectPhase (stuckUpstream None threeItems) keepNothing 5 [singleItemLens]
                  None (Some 100%Z) initialWorld
     = Some (Returns (Some done), w) /\
     map Cron.totalItems (lensResults done) = [3%nat]) /\
  (exists got,
     collectFrom 0 [] threeItems = Returns got /\ length got = 1%nat).
Proof.
  split; [reflexivity|]. split; [|split].
  - eexists. eexists. vm_compute. split; reflexivity.
  - eexists. eexists. vm_compute. split; reflexivity.
  - eexists. vm_compute. split; reflexivity.
Qed.

Lemma collectItems_cap_witness :
  (1 <= 2)%Z /\
  (exists got, collectFrom 2 [] threeItems = Returns got /\
               (Z.of_nat (length got) <= 2)%Z).
Proof.
  split; [lia|].
  destruct (collectItems_cap (stuckUpstream None threeItems)) as [Hcap _].
  eexists. split; [vm_compute; reflexivity|].
  eapply (Hcap 2%Z threeItems); [lia | vm_compute; reflexivity].
Defined.

(** C6 at its failing inputs. When the task is found cancelled at the check
    after the webset was created, the webset is cancelled upstream. When the
    poll has timed out and the task is found cancelled at the check after
    the poll, [lifecycle.harvest] returns null and the webset it created,
    still running, was never cancelled. The same holds for [semantic.cron]
    at the check after the collection. *)
Theorem cancel_after_poll_skips_upstream_cancel :
  (exists w,
     lifecycleHarvestWorkflow (stuckUpstream (Some 1%nat) StreamEnd) 5 harvestArgs initialWorld
     = Some (Returns None, w) /\
     calls w = [CreateWebset harvestParams; CancelWebset "ws_1"]) /\
  (exists w,
     lifecycleHarvestWorkflow (stuckUpstream (Some 2%nat) StreamEnd) 5 harvestArgs initialWorld
     = Some (Returns None, w) /\
     calls w = [CreateWebset harvestParams; GetWebset "ws_1"] /\
     cancels w = 0%nat) /\
  (exists w,
     collectPhase (stuckUpstream (Some 4%nat) threeItems) keepNothing 5 [singleItemLens]
                  None (Some 100%Z) initialWorld
     = Some (Returns None, w) /\
     calls w = [CreateWebset singleItemParams; GetWebset "ws_1"; ListAll "ws_1"] /\
     cancels w = 0%nat).
Proof.
  split; [|split].
  - eexists. vm_compute. split; reflexivity.
  - eexists. vm_compute. repeat split; reflexivity.
  - eexists. vm_compute. repeat split; reflexivity.
Qed.

End WorkflowExamples.

(* ================================================================== *)
(** * Further properties                                               *)
(* ================================================================== *)

(* ------------------------------------------------------------------ *)
(** ** The join engine: what every join result satisfies               *)
(* ------------------------------------------------------------------ *)

Section JoinCoverage.
Context `{DateParser}.
Variable dice : string -> string -> Num.
Import Cron.

Lemma foldInto_entryInvariant (lrs : list LensResult) (lens : string) (si : ShapedItem)
    (e : Entry) :
  entryInvariant lrs e -> entryInvariant lrs (foldInto lens si e).
Proof.
  intros (Hnd & Hts & Hsh & lr & si0 & rest & Hlr & Hsi & Hn & Hu & Hhead).
  unfold entryInvariant; simpl. split; [|split; [|split]].
  - now apply setAdd_NoDup.
  - intros l. rewrite setAdd_In. split.
    + intros [->|Hin].
      * exists (lens, createdAt si). split; [apply in_app_iff; right; now left | reflexivity].
      * apply Hts in Hin as (t & Hin & Hl). exists t.
        split; [apply in_app_iff; now left | exact Hl].
    + intros (t & Hin & Hl). apply in_app_iff in Hin as [Hin|[<-|[]]].
      * right. apply Hts. exists t. auto.
      * left. simpl in Hl. congruence.
  - intros l. rewrite setAdd_In, lookup_insert_is_Some, Hsh. split.
    + intros [->|[_ Hin]]; [now left | now right].
    + intros [->|Hin]; [now left|].
      destruct (decide (lens = l)); [now left | right; auto].
  - exists lr, si0, (rest ++ [(lens, createdAt si)]). rewrite Hhead.
    repeat split; auto.
Qed.

Lemma newEntry_entryInvariant (lrs : list LensResult) (lr : LensResult) (si : ShapedItem) :
  In lr lrs -> In si (shapedItems lr) -> entryInvariant lrs (newEntry (lensId lr) si).
Proof.
  intros Hlr Hsi. unfold entryInvariant; simpl. split; [|split; [|split]].
  - constructor; [intros [] | constructor].
  - intros l. split.
    + intros [<-|[]]. eexists. split; [now left | reflexivity].
    + intros (t & [<-|[]] & Hl). now left.
  - intros l. split.
    + intros [x Hx]. apply lookup_singleton_Some in Hx as [-> _]. now left.
    + intros [<-|[]]. eexists. apply lookup_singleton_Some. split; reflexivity.
  - exists lr, si, []. repeat split; auto.
Qed.

(** A property that holds of every new entry and is kept by every fold
    holds of all entries after an item is added. *)
Lemma addItem_entries (Inv : Entry -> Prop) (thr : Q) (lens : string) (si : ShapedItem)
    (m : EntityMap) :
  Inv (newEntry lens si) -> (forall e, Inv e -> Inv (foldInto lens si e)) ->
  (forall kv, In kv m -> Inv (snd kv)) ->
  forall kv, In kv (addItem dice thr lens m si) -> Inv (snd kv).
Proof.
  intros Hnew Hfold Hall kv Hin. unfold addItem in Hin.
  pose proof (matchExisting_spec dice thr lens si m) as Hspec.
  destruct (matchExisting dice thr lens si m) as [m'|].
  - destruct Hspec as (pre & k & e & post & -> & -> & _ & _).
    apply in_app_iff in Hin as [Hin|[<-|Hin]].
    + apply Hall. apply in_app_iff. now left.
    + simpl. apply Hfold. apply (Hall (k, e)). apply in_app_iff. right. now left.
    + apply Hall. apply in_app_iff. right. now right.
  - destruct kv as [k e]. apply mapSet_In in Hin as [[-> ->]|Hin];
      [exact Hnew | now apply (Hall (k, e))].
Qed.

Lemma buildEntityMap_entryInvariant (thr : Q) (lrs : list LensResult) :
  forall kv, In kv (buildEntityMap dice thr lrs) -> entryInvariant lrs (snd kv).
Proof.
  unfold buildEntityMap.
  assert (Hgen : forall (done todo : list LensResult) (m : EntityMap),
             lrs = done ++ todo ->
             (forall kv, In kv m -> entryInvariant lrs (snd kv)) ->
             forall kv,
               In kv (foldl (fun m lr => foldl (addItem dice thr (lensId lr)) m (shapedItems lr))
                            m todo) ->
               entryInvariant lrs (snd kv)).
  { intros done todo. revert done.
    induction todo as [|lr rest IH]; simpl; intros done m Hsplit Hall; [exact Hall|].
    apply (IH (done ++ [lr])); [rewrite <- app_assoc; exact Hsplit|].
    assert (Hlr : In lr lrs) by (rewrite Hsplit; apply in_app_iff; right; now left).
    assert (Hitems : forall (items : list ShapedItem) (m0 : EntityMap),
               (forall si, In si items -> In si (shapedItems lr)) ->
               (forall kv, In kv m0 -> entryInvariant lrs (snd kv)) ->
               forall kv, In kv (foldl (addItem dice thr (lensId lr)) m0 items) ->
                          entryInvariant lrs (snd kv)).
    { induction items as [|si items IHi]; simpl; intros m0 Hsub Hm0; [exact Hm0|].
      apply IHi; [intros s Hs; apply Hsub; now right|].
      apply addItem_entries;
        [ apply newEntry_entryInvariant; [exact Hlr | apply Hsub; now left]
        | intros e; apply foldInto_entryInvariant
        | exact Hm0 ]. }
    apply Hitems; auto. }
  apply (Hgen [] lrs); [reflexivity | intros kv []].
Qed.

(** Every returned entity was made from an entry of the entity map and has
    passed the overlap filter. *)
Lemma joined_from_entry (lrs : list LensResult) (cfg : JoinConfig) (ent : JoinedEntity) :
  In ent (entities (joinLensResults dice lrs cfg)) ->
  exists k e,
    In (k, e) (buildEntityMap dice (orDefault (nameThreshold cfg) (85 # 100)) lrs) /\
    ent = toJoined e /\
    overlapFilter (orDefault (minLensOverlap cfg) 2) ent = true.
Proof.
  unfold joinLensResults. destruct (by_ cfg); cbn [entities].
  - intros Hin. apply filter_In in Hin as [Hin Hov].
    apply in_map_iff in Hin as ([k e] & <- & Hin). exists k, e. auto.
  - unfold joinByTemporal. cbn [entities]. intros [].
  - intros Hin. apply filter_In in Hin as [Hin Hov].
    assert (Hin' : In ent (map (fun kv => toJoined (snd kv))
                     (buildEntityMap dice (orDefault (nameThreshold cfg) (85 # 100)) lrs))).
    { destruct (truthyNum (temporalDays cfg)); [|exact Hin].
      apply filter_In in Hin as [Hin _]. exact Hin. }
    apply in_map_iff in Hin' as ([k e] & <- & Hin'). exists k, e. auto.
  - unfold joinByCooccurrence.
    destruct (truthyDays (temporalDays cfg)); [destruct (allTimestamps lrs)|];
      cbn [entities]; intros [].
Qed.


(** X2. Name, URL and lenses of a returned entity come from the shaped
    items: the entity carries the name and the URL of one shaped item, whose
    lens is among its lenses, and each of its lenses is the id of a lens
    result that holds at least one shaped item. *)
Theorem entity_join_provenance :
  forall (lrs : list LensResult) (cfg : JoinConfig) (ent : JoinedEntity),
    In ent (entities (joinLensResults dice lrs cfg)) ->
    (exists lr si,
       In lr lrs /\ In si (shapedItems lr) /\
       entity ent = name si /\ entityUrl ent = url si /\
       In (lensId lr) (presentInLenses ent)) /\
    (forall l, In l (presentInLenses ent) -> hasShapedItem lrs l).
Proof.
  intros lrs cfg ent Hin.
  destruct (joined_from_entry lrs cfg ent Hin) as (k & e & Hm & -> & _).
  destruct (buildEntityMap_entryInvariant _ lrs (k, e) Hm)
    as (_ & Hts & _ & lr & si & rest & Hlr & Hsi & Hn & Hu & Hhead).
  simpl in *. split.
  - exists lr, si. repeat split; auto.
    apply Hts. exists (lensId lr, createdAt si). rewrite Hhead. split; [now left | reflexivity].
  - intros l Hl. apply Hts in Hl as (t & Ht & <-).
    destruct (buildEntityMap_invariant dice (orDefault (nameThreshold cfg) (85 # 100)) lrs)
      as [_ Hall].
    destruct (Hall k e Hm) as (_ & _ & Hrec).
    destruct (Hrec t Ht) as (lr' & si' & Hlr' & Hsi' & Hid & _).
    exists lr'. repeat split; auto.
    intros Hnil. rewrite Hnil in Hsi'. destruct Hsi'.
Qed.

End JoinCoverage.

Section JoinDistinct.
Context `{DateParser}.
Variable dice : string -> string -> Num.
Import Cron.

Lemma filter_truthy_sub {A : Type} (f : A -> string) (p : A -> bool) (l : list A) (x : string) :
  In x (List.filter truthy (map f (List.filter p l))) ->
  In x (List.filter truthy (map f l)).
Proof.
  rewrite !filter_In, !in_map_iff. intros ((a & Hfa & Ha) & Hx).
  apply filter_In in Ha as [Ha _]. split; [exists a; auto | exact Hx].
Qed.

Lemma filter_truthy_NoDup {A : Type} (f : A -> string) (p : A -> bool) (l : list A) :
  List.NoDup (List.filter truthy (map f l)) ->
  List.NoDup (List.filter truthy (map f (List.filter p l))).
Proof.
  induction l as [|a rest IH]; simpl; [intros _; constructor|].
  destruct (truthy (f a)) eqn:Ht; intros Hnd.
  - apply NoDup_cons_iff in Hnd as [Hnot Hnd].
    destruct (p a); simpl; [|now apply IH].
    rewrite Ht. apply NoDup_cons_iff. split; [|now apply IH].
    intros Hin. apply Hnot. exact (filter_truthy_sub f p rest _ Hin).
  - destruct (p a); simpl; [rewrite Ht|]; now apply IH.
Qed.

(** Entries that carry a non-empty identifier under which they are keyed
    carry pairwise distinct identifiers. *)
Lemma keyed_NoDup (g : Entry -> string) (m : EntityMap) :
  List.NoDup (map fst m) ->
  (forall k e, In (k, e) m -> g e <> EmptyString -> k = g e) ->
  List.NoDup (List.filter truthy (map (fun kv => g (snd kv)) m)).
Proof.
  induction m as [|[k e] rest IH]; simpl; intros Hnd Hkey; [constructor|].
  apply NoDup_cons_iff in Hnd as [Hnot Hnd].
  assert (IH' : List.NoDup (List.filter truthy (map (fun kv => g (snd kv)) rest)))
    by (apply IH; [exact Hnd | intros k' e' Hin; apply Hkey; now right]).
  destruct (truthy (g e)) eqn:Ht; [|exact IH'].
  apply NoDup_cons_iff. split; [|exact IH'].
  intros Hin. apply filter_In in Hin as [Hin _].
  apply in_map_iff in Hin as ([k' e'] & Heq & Hin). simpl in Heq.
  apply truthy_true in Ht.
  assert (Hk : k = g e) by (apply Hkey; [now left | exact Ht]).
  assert (Hk' : k' = g e') by (apply Hkey; [now right | congruence]).
  apply Hnot. apply in_map_iff. exists (k', e'). split; [simpl; congruence | exact Hin].
Qed.

(** The name of an entity that has no URL; empty for one that has. *)
Lemma urlless_names (l : list JoinedEntity) :
  List.filter truthy
    (map entity (List.filter (fun e => negb (truthy (entityUrl e))) l))
  = List.filter truthy
      (map (fun e => if truthy (entityUrl e) then EmptyString else entity e) l).
Proof.
  induction l as [|a rest IH]; simpl; [reflexivity|].
  destruct (truthy (entityUrl a)); simpl; [exact IH | now rewrite IH].
Qed.

Lemma filter_none {A : Type} (l : list A) : List.filter (fun _ => false) l = [].
Proof. induction l; simpl; auto. Qed.

Lemma filter_all {A : Type} (l : list A) : List.filter (fun _ => true) l = l.
Proof. induction l; simpl; congruence. Qed.

(** The entities of a join result are a selection of the entries of the
    entity map, or none at all. *)
Lemma entities_selection (lrs : list LensResult) (cfg : JoinConfig) :
  exists p q,
    entities (joinLensResults dice lrs cfg)
    = List.filter q (List.filter p
        (map (fun kv => toJoined (snd kv))
             (buildEntityMap dice (orDefault (nameThreshold cfg) (85 # 100)) lrs))).
Proof.
  unfold joinLensResults. destruct (by_ cfg) eqn:Hby; cbn [entities].
  - exists (fun _ => true), (overlapFilter (orDefault (minLensOverlap cfg) 2)).
    now rewrite filter_all.
  - exists (fun _ => false), (fun _ => false). unfold joinByTemporal. cbn [entities].
    now rewrite filter_none.
  - destruct (truthyNum (temporalDays cfg)).
    + eexists. eexists. reflexivity.
    + exists (fun _ => true), (overlapFilter (orDefault (minLensOverlap cfg) 2)).
      now rewrite filter_all.
  - exists (fun _ => false), (fun _ => false). unfold joinByCooccurrence.
    destruct (truthyDays (temporalDays cfg)); [destruct (allTimestamps lrs)|];
      cbn [entities]; now rewrite filter_none.
Qed.

(** X3. The join never returns the same entity twice: the non-empty URLs of
    the returned entities are pairwise distinct, and so are the non-empty
    names of the returned entities that have no URL. *)
Theorem entity_join_no_duplicates :
  forall (lrs : list LensResult) (cfg : JoinConfig),
    let ents := entities (joinLensResults dice lrs cfg) in
    List.NoDup (List.filter truthy (map entityUrl ents)) /\
    List.NoDup (List.filter truthy
                  (map entity (List.filter (fun e => negb (truthy (entityUrl e))) ents))).
Proof.
  intros lrs cfg ents. subst ents.
  destruct (entities_selection lrs cfg) as (p & q & ->).
  set (thr := orDefault (nameThreshold cfg) (85 # 100)).
  destruct (buildEntityMap_invariant dice thr lrs) as [Hnd Hall].
  split.
  - do 2 apply filter_truthy_NoDup. rewrite map_map. simpl.
    apply (keyed_NoDup e_url); [exact Hnd|].
    intros k e Hin Hu. destruct (Hall k e Hin) as ((Hk & _) & _). now apply Hk.
  - rewrite urlless_names. do 2 apply filter_truthy_NoDup. rewrite map_map. simpl.
    apply (keyed_NoDup (fun e => if truthy (e_url e) then EmptyString else e_entity e));
      [exact Hnd|].
    intros k e Hin Hg. destruct (Hall k e Hin) as ((_ & Hk & _) & _).
    destruct (truthy (e_url e)) eqn:Ht; [congruence|].
    apply truthy_false in Ht. now apply Hk.
Qed.

End JoinDistinct.

(* ------------------------------------------------------------------ *)
(** ** The joins that weigh evidence by lens                           *)
(* ------------------------------------------------------------------ *)

Section EvidenceJoins.
Context `{DateParser}.
Variable dice : string -> string -> Num.
Import Cron.

Lemma allTimestamps_In (lrs : list LensResult) (l : string) (t : option Z) :
  In (l, t) (allTimestamps lrs) <->
  exists lr si, In lr lrs /\ In si (shapedItems lr) /\
                lensId lr = l /\ Date_getTime (createdAt si) = t.
Proof.
  unfold allTimestamps. rewrite in_flat_map. split.
  - intros (lr & Hlr & Hin). apply in_map_iff in Hin as (si & Heq & Hsi).
    injection Heq as <- <-. exists lr, si. auto.
  - intros (lr & si & Hlr & Hsi & <- & <-). exists lr. split; [exact Hlr|].
    apply in_map_iff. exists si. auto.
Qed.

Lemma minTime_None (ts : list (option Z)) :
  ts <> [] -> (minTime ts = None <-> In None ts).
Proof.
  induction ts as [|t rest IH]; [congruence|]. intros _.
  destruct rest as [|u rest'].
  - simpl. split; [intros ->; now left | intros [->|[]]; reflexivity].
  - assert (IH' : minTime (u :: rest') = None <-> In None (u :: rest'))
      by (apply IH; discriminate).
    change (minTime (t :: u :: rest'))
      with (match t, minTime (u :: rest') with
            | Some a, Some b => Some (Z.min a b)
            | _, _ => None
            end).
    destruct t as [a|].
    + destruct (minTime (u :: rest')) as [b|].
      * split; [discriminate|]. intros [Hd|Hin]; [discriminate|].
        apply IH' in Hin. discriminate.
      * split; [intros _; right; now apply IH' | reflexivity].
    + split; [intros _; now left | reflexivity].
Qed.

Lemma minTime_Some (ts : list (option Z)) (e : Z) :
  minTime ts = Some e ->
  In (Some e) ts /\ forall z, In (Some z) ts -> (e <= z)%Z.
Proof.
  revert e. induction ts as [|t rest IH]; [discriminate|]. intros e.
  destruct rest as [|u rest'].
  - simpl. intros ->. split; [now left|]. intros z [Hz|[]]. injection Hz as <-. lia.
  - change (minTime (t :: u :: rest'))
      with (match t, minTime (u :: rest') with
            | Some a, Some b => Some (Z.min a b)
            | _, _ => None
            end).
    destruct t as [a|]; [|discriminate].
    destruct (minTime (u :: rest')) as [b|]; [|discriminate].
    intros He. injection He as <-.
    destruct (IH b eq_refl) as [Hin Hmin]. split.
    + destruct (Z.min_spec a b) as [[_ ->]|[_ ->]]; [now left | now right].
    + intros z [Hz|Hz].
      * injection Hz as <-. lia.
      * specialize (Hmin z Hz). lia.
Qed.

(** *** Where the arithmetic on doubles is exact

    A whole number, a difference of two times and a window of a whole
    number of days are doubles as long as their magnitude does not exceed
    2^53: on them the tests of the joins are the exact comparisons. *)

Lemma roundHalfEven_whole (q : Q) (m : Z) : (q == inject_Z m)%Q -> roundHalfEven q = m.
Proof.
  intros Heq. unfold roundHalfEven.
  assert (Hf : Qfloor q = m) by (rewrite Heq; apply Qfloor_Z).
  rewrite Hf.
  assert (Hc : (q - inject_Z m ?= 1 # 2)%Q = Lt).
  { assert (Hz : (q - inject_Z m == 0)%Q) by (rewrite Heq; ring).
    rewrite Hz. reflexivity. }
  now rewrite Hc.
Qed.

Lemma ilog2_whole (z : Z) : (0 < z)%Z -> ilog2 (inject_Z z) = Z.log2 z.
Proof.
  intros Hz. unfold ilog2. cbn [Qnum Qden inject_Z].
  change (Z.log2 1) with 0%Z. rewrite Z.sub_0_r.
  assert (Hle : Qle_bool (pow2 (Z.log2 z)) (inject_Z z) = true).
  { apply Qle_bool_iff. pose proof (Z.log2_spec z Hz) as [Hlo _].
    pose proof (Z.log2_nonneg z) as Hnn.
    unfold pow2. destruct (Z.log2 z) as [|k|k] eqn:Hl.
    - change (1 <= inject_Z z)%Q. change 1%Q with (inject_Z 1). rewrite <- Zle_Qle. lia.
    - change (inject_Z (2 ^ Z.pos k) <= inject_Z z)%Q. now rewrite <- Zle_Qle.
    - lia. }
  now rewrite Hle.
Qed.

Lemma Qred_whole (q : Q) (z : Z) : (q == inject_Z z)%Q -> Qred q = inject_Z z.
Proof.
  intros Heq. rewrite (Qred_complete _ _ Heq).
  unfold inject_Z, Qred. cbn. 
  pose proof (Z.ggcd_correct_divisors z 1) as Hdivs.
  destruct (Z.ggcd z 1) as [g [aa bb]] eqn:Hg. cbn.
  pose proof (Z.ggcd_gcd z 1) as Hgcd. rewrite Hg in Hgcd. cbn in Hgcd.
  rewrite Z.gcd_1_r in Hgcd. destruct Hdivs as [H1 H2].
  replace aa with z by lia. replace bb with 1%Z by lia. reflexivity.
Qed.

Lemma roundPositive_whole (z : Z) :
  (0 < z <= 2 ^ 53)%Z -> roundPositive (inject_Z z) = Fin (inject_Z z).
Proof.
  intros [Hpos Hle]. unfold roundPositive. rewrite (ilog2_whole z Hpos).
  assert (Hlog : (0 <= Z.log2 z <= 53)%Z).
  { split; [apply Z.log2_nonneg|]. 
    change 53%Z with (Z.log2 (2 ^ 53)). now apply Z.log2_le_mono. }
  rewrite Z.max_l by lia.
  set (p := (Z.log2 z - 52)%Z).
  assert (Hr : exists m, (inject_Z z / pow2 p == inject_Z m)%Q /\
                         (inject_Z m * pow2 p == inject_Z z)%Q).
  { unfold pow2. destruct p as [|k|k] eqn:Hp.
    - exists z. split; [field | ring].
    - assert (Hl : Z.log2 z = 53%Z) by lia.
      assert (Hk : k = 1%positive) by lia. subst k.
      assert (Hz : z = (2 ^ 53)%Z).
      { pose proof (Z.log2_spec z Hpos) as [Hlo _]. rewrite Hl in Hlo. lia. }
      subst z. exists (2 ^ 52)%Z. split; reflexivity.
    - exists (z * Z.pos (2 ^ k))%Z. split.
      + unfold Qdiv, Qinv, Qmult, Qeq, inject_Z. cbn. lia.
      + unfold Qmult, Qeq, inject_Z. cbn. lia. }
  destruct Hr as (m & Hdiv & Hmul).
  rewrite (roundHalfEven_whole _ m Hdiv).
  assert (Hsmall : Qle_bool (pow2 1024) (inject_Z m * pow2 p) = false).
  { destruct (Qle_bool (pow2 1024) (inject_Z m * pow2 p)) eqn:E; [|reflexivity].
    apply Qle_bool_iff in E. rewrite Hmul in E.
    change (pow2 1024) with (inject_Z (2 ^ 1024)) in E.
    rewrite <- Zle_Qle in E.
    assert ((2 ^ 53 < 2 ^ 1024)%Z) by (apply Z.pow_lt_mono_r; lia). lia. }
  rewrite Hsmall. f_equal. now apply Qred_whole.
Qed.

Lemma toDouble_whole (z : Z) :
  (Z.abs z <= 2 ^ 53)%Z -> toDouble (inject_Z z) = Fin (inject_Z z).
Proof.
  intros Hz. destruct z as [|p|p].
  - reflexivity.
  - change (toDouble (inject_Z (Z.pos p))) with (roundPositive (inject_Z (Z.pos p))).
    apply roundPositive_whole. lia.
  - change (toDouble (inject_Z (Z.neg p)))
      with (num_neg (roundPositive (inject_Z (Z.pos p)))).
    rewrite roundPositive_whole by lia. reflexivity.
Qed.

Lemma timeDiff_exact (a b : Z) :
  (Z.abs (a - b) <= 2 ^ 53)%Z -> timeDiff a b = Fin (inject_Z (a - b)).
Proof. intros Hsmall. unfold timeDiff. now apply toDouble_whole. Qed.

Lemma windowMs_whole (n : Z) :
  (Z.abs (n * 86400000) <= 2 ^ 53)%Z ->
  windowMs (inject_Z n) = Fin (inject_Z (n * 86400000)).
Proof.
  intros Hn. unfold windowMs. rewrite toDouble_whole by lia.
  cbn [num_mul]. change (inject_Z n * dayMs)%Q with (inject_Z (n * 86400000)).
  now apply toDouble_whole.
Qed.

Lemma within_whole_days (n a b : Z) :
  (Z.abs (n * 86400000) <= 2 ^ 53)%Z -> (Z.abs (a - b) <= 2 ^ 53)%Z ->
  (num_le (timeDiff a b) (windowMs (inject_Z n)) = true <-> (a - b <= n * 86400000)%Z) /\
  (num_le (num_abs (timeDiff a b)) (windowMs (inject_Z n)) = true
   <-> (Z.abs (a - b) <= n * 86400000)%Z).
Proof.
  intros Hn Hd. rewrite (timeDiff_exact a b Hd), (windowMs_whole n Hn).
  cbn [num_le num_abs]. unfold Qleb. rewrite !Qle_bool_iff.
  change (Qabs (inject_Z (a - b))) with (inject_Z (Z.abs (a - b))).
  rewrite <- !Zle_Qle. tauto.
Qed.

(** X4. The co-occurrence join with a temporal window ([temporal.days] set
    and, as a double, not zero): a lens has evidence exactly when the
    creation date of every shaped item of every lens parses and one of the
    lens's own items lies within the window that opens at the earliest
    item, that is when its time minus the earliest time is at most
    [days * 86400000], both computed on doubles. A single unparseable date
    leaves no lens with evidence. The join returns no entity. For a whole
    number of days whose window does not exceed 2^53 ms and two times at
    most 2^53 ms apart, the test on doubles is the exact comparison. *)
Theorem cooccurrence_window_evidence :
  forall (lrs : list LensResult) (cfg : JoinConfig) (l : string),
    by_ cfg = ByCooccurrence ->
    truthyDays (temporalDays cfg) = true ->
    entities (joinLensResults dice lrs cfg) = [] /\
    (In l (lensesWithEvidence (joinLensResults dice lrs cfg)) <->
     (forall lr si, In lr lrs -> In si (shapedItems lr) ->
                    Date_getTime (createdAt si) <> None) /\
     exists lr si t lr0 si0 earliest,
       In lr lrs /\ In si (shapedItems lr) /\ lensId lr = l /\
       Date_getTime (createdAt si) = Some t /\
       In lr0 lrs /\ In si0 (shapedItems lr0) /\
       Date_getTime (createdAt si0) = Some earliest /\
       (forall lr' si' t',
          In lr' lrs -> In si' (shapedItems lr') ->
          Date_getTime (createdAt si') = Some t' -> (earliest <= t')%Z) /\
       num_le (timeDiff t earliest) (windowMs (orDefault (temporalDays cfg) 0)) = true) /\
    (forall n t earliest,
       temporalDays cfg = Some (inject_Z n) ->
       (Z.abs (n * 86400000) <= 2 ^ 53)%Z -> (Z.abs (t - earliest) <= 2 ^ 53)%Z ->
       (num_le (timeDiff t earliest) (windowMs (orDefault (temporalDays cfg) 0)) = true
        <-> (t - earliest <= n * 86400000)%Z)).
Proof.
  intros lrs cfg l Hby Hdays.
  assert (Hexact : forall n t earliest,
            temporalDays cfg = Some (inject_Z n) ->
            (Z.abs (n * 86400000) <= 2 ^ 53)%Z -> (Z.abs (t - earliest) <= 2 ^ 53)%Z ->
            (num_le (timeDiff t earliest) (windowMs (orDefault (temporalDays cfg) 0)) = true
             <-> (t - earliest <= n * 86400000)%Z)).
  { intros n t earliest Hn Hsmall Hdiff. rewrite Hn. cbn [orDefault].
    exact (proj1 (within_whole_days n t earliest Hsmall Hdiff)). }
  cut (entities (joinLensResults dice lrs cfg) = [] /\
       (In l (lensesWithEvidence (joinLensResults dice lrs cfg)) <->
        (forall lr si, In lr lrs -> In si (shapedItems lr) ->
                       Date_getTime (createdAt si) <> None) /\
        exists lr si t lr0 si0 earliest,
          In lr lrs /\ In si (shapedItems lr) /\ lensId lr = l /\
          Date_getTime (createdAt si) = Some t /\
          In lr0 lrs /\ In si0 (shapedItems lr0) /\
          Date_getTime (createdAt si0) = Some earliest /\
          (forall lr' si' t',
             In lr' lrs -> In si' (shapedItems lr') ->
             Date_getTime (createdAt si') = Some t' -> (earliest <= t')%Z) /\
          num_le (timeDiff t earliest) (windowMs (orDefault (temporalDays cfg) 0)) = true)).
  { intros [Hents Hiff]. split; [exact Hents|]. split; [exact Hiff | exact Hexact]. }
  clear Hexact.
  unfold joinLensResults. rewrite Hby. unfold joinByCooccurrence. rewrite Hdays.
  set (W := windowMs (orDefault (temporalDays cfg) 0)).
  destruct (allTimestamps lrs) as [|t0 rest] eqn:Hall.
  - cbn [entities lensesWithEvidence]. split; [reflexivity|].
    split; [intros []|].
    intros (_ & lr & si & t & _ & _ & _ & Hlr & Hsi & Hl & Ht & _).
    assert (Hin : In (l, Some t) (allTimestamps lrs))
      by (apply allTimestamps_In; exists lr, si; auto).
    rewrite Hall in Hin. destruct Hin.
  - rewrite <- Hall. cbn [entities lensesWithEvidence]. split; [reflexivity|].
    assert (Hne : map snd (allTimestamps lrs) <> [])
      by (rewrite Hall; discriminate).
    rewrite uniq_In, in_map_iff. split.
    + intros ([l' ot] & Hl & Hq). simpl in Hl. subst l'.
      apply filter_In in Hq as [Hin Hp]. simpl in Hp.
      destruct ot as [time|]; [|discriminate].
      destruct (minTime (map snd (allTimestamps lrs))) as [e|] eqn:Hmin; [|discriminate].
      destruct (minTime_Some _ _ Hmin) as [Hmem Hleast].
      split.
      * intros lr si Hlr Hsi Hnone.
        assert (Hbad : minTime (map snd (allTimestamps lrs)) = None).
        { apply (minTime_None _ Hne). apply in_map_iff.
          exists (lensId lr, None). split; [reflexivity|].
          apply allTimestamps_In. exists lr, si. auto. }
        congruence.
      * apply allTimestamps_In in Hin as (lr & si & Hlr & Hsi & Hid & Ht).
        apply in_map_iff in Hmem as ([l0 ot0] & Heq & Hmem). simpl in Heq. subst ot0.
        apply allTimestamps_In in Hmem as (lr0 & si0 & Hlr0 & Hsi0 & _ & Ht0).
        exists lr, si, time, lr0, si0, e. repeat split; auto.
        intros lr' si' t' Hlr' Hsi' Ht'.
        apply Hleast. apply in_map_iff. exists (lensId lr', Some t').
        split; [reflexivity|]. apply allTimestamps_In. exists lr', si'. auto.
    + intros (Hparse & lr & si & t & lr0 & si0 & e & Hlr & Hsi & Hid & Ht
              & Hlr0 & Hsi0 & Ht0 & Hleast & Hwin).
      exists (l, Some t). split; [reflexivity|].
      apply filter_In. split; [apply allTimestamps_In; exists lr, si; auto|].
      simpl.
      destruct (minTime (map snd (allTimestamps lrs))) as [e'|] eqn:Hmin.
      * destruct (minTime_Some _ _ Hmin) as [Hin Hleast'].
        apply in_map_iff in Hin as ([l' ot] & Heq & Hin). simpl in Heq. subst ot.
        apply allTimestamps_In in Hin as (lr' & si' & Hlr' & Hsi' & _ & Ht').
        assert (He : e' = e).
        { apply Z.le_antisymm.
          - apply Hleast'. apply in_map_iff. exists (lensId lr0, Some e).
            split; [reflexivity|]. apply allTimestamps_In. exists lr0, si0. auto.
          - exact (Hleast lr' si' e' Hlr' Hsi' Ht'). }
        subst e'. exact Hwin.
      * exfalso. apply (minTime_None _ Hne) in Hmin.
        apply in_map_iff in Hmin as ([l' ot] & Heq & Hin). simpl in Heq. subst ot.
        apply allTimestamps_In in Hin as (lr' & si' & Hlr' & Hsi' & _ & Ht').
        exact (Hparse lr' si' Hlr' Hsi' Ht').
Qed.

Lemma num_abs_neg (x : Num) : num_abs (num_neg x) = num_abs x.
Proof.
  destruct x as [| |q|]; try reflexivity.
  cbn [num_neg num_abs]. f_equal. destruct q as [n d].
  unfold Qabs, Qopp. cbn [Qnum Qden]. now rewrite Z.abs_opp.
Qed.

(** [Math.abs(a - b)] is [Math.abs(b - a)], on doubles as well. *)
Lemma absDiff_sym (a b : Z) : num_abs (timeDiff a b) = num_abs (timeDiff b a).
Proof.
  unfold timeDiff, toDouble.
  replace (b - a)%Z with (- (a - b))%Z by lia.
  destruct (a - b)%Z as [|p|p]; cbv [Z.opp inject_Z Qnum Qopp Qden].
  - reflexivity.
  - now rewrite num_abs_neg.
  - now rewrite num_abs_neg.
Qed.

Lemma timesClose_spec (w : Num) (timesA timesB : list (option Z)) :
  timesClose w timesA timesB = true <->
  exists a b, In (Some a) timesA /\ In (Some b) timesB /\
              num_le (num_abs (timeDiff a b)) w = true.
Proof.
  unfold timesClose. rewrite existsb_exists. split.
  - intros (ta & Hta & Hex). apply existsb_exists in Hex as (tb & Htb & Hc).
    destruct ta as [a|]; [|discriminate]. destruct tb as [b|]; [|discriminate].
    exists a, b. repeat split; auto.
  - intros (a & b & Ha & Hb & Hle). exists (Some a). split; [exact Ha|].
    apply existsb_exists. exists (Some b). split; [exact Hb | exact Hle].
Qed.

Lemma timesClose_sym (w : Num) (timesA timesB : list (option Z)) :
  timesClose w timesA timesB = true -> timesClose w timesB timesA = true.
Proof.
  rewrite !timesClose_spec. intros (a & b & Ha & Hb & Hle).
  exists b, a. repeat split; auto. now rewrite absDiff_sym.
Qed.

(** The inner loop over the lenses that follow [a]. *)
Lemma qualifyInner_In (w : Num) (a : string * list (option Z))
    (rest : list (string * list (option Z))) (q : list string) (l : string) :
  In l (foldl (fun q b => if timesClose w (snd a) (snd b)
                          then setAdd (fst b) (setAdd (fst a) q) else q) q rest)
  <-> In l q \/ exists b, In b rest /\ timesClose w (snd a) (snd b) = true /\
                          (l = fst a \/ l = fst b).
Proof.
  revert q. induction rest as [|b rest IH]; simpl; intros q.
  - split; [now left | intros [Hq|(b & [] & _)]; exact Hq].
  - rewrite IH. destruct (timesClose w (snd a) (snd b)) eqn:Hc.
    + rewrite !setAdd_In. split.
      * intros [[->|[->|Hq]]|(b' & Hin & Hc' & Hl)].
        -- right. exists b. auto.
        -- right. exists b. auto.
        -- now left.
        -- right. exists b'. auto.
      * intros [Hq|(b' & [<-|Hin] & Hc' & Hl)].
        -- left. auto.
        -- left. destruct Hl as [->| ->]; auto.
        -- right. exists b'. auto.
    + split.
      * intros [Hq|(b' & Hin & Hc' & Hl)]; [now left|]. right. exists b'. auto.
      * intros [Hq|(b' & [<-|Hin] & Hc' & Hl)]; [now left | congruence |].
        right. exists b'. auto.
Qed.

Lemma qualifyPairs_mono (w : Num) (ls : list (string * list (option Z)))
    (q : list string) (l : string) :
  In l q -> In l (qualifyPairs w ls q).
Proof.
  revert q. induction ls as [|a rest IH]; simpl; intros q Hq; [exact Hq|].
  apply IH. apply qualifyInner_In. now left.
Qed.

(** What the double loop adds comes in pairs of two distinct lenses whose
    times are close. *)
Lemma qualifyPairs_sound (w : Num) (ls : list (string * list (option Z)))
    (q : list string) (l : string) :
  List.NoDup (map fst ls) ->
  In l (qualifyPairs w ls q) ->
  In l q \/ exists a b, In a ls /\ In b ls /\ fst a = l /\ fst b <> l /\
                        timesClose w (snd a) (snd b) = true.
Proof.
  revert q. induction ls as [|a rest IH]; simpl; intros q Hnd Hin; [now left|].
  apply NoDup_cons_iff in Hnd as [Hnot Hnd].
  destruct (IH _ Hnd Hin) as [Hq|(x & y & Hx & Hy & Hl & Hne & Hc)].
  - apply qualifyInner_In in Hq as [Hq|(b & Hb & Hc & Hl)]; [now left|].
    right.
    assert (Hne : fst a <> fst b).
    { intros Heq. apply Hnot. rewrite Heq. apply in_map_iff. exists b. auto. }
    destruct Hl as [->| ->].
    + exists a, b. repeat split; auto.
    + exists b, a. repeat split; auto. now apply timesClose_sym.
  - right. exists x, y. repeat split; auto.
Qed.

Lemma qualifyPairs_complete (w : Num) (ls : list (string * list (option Z)))
    (q : list string) (a b : string * list (option Z)) :
  In a ls -> In b ls -> fst a <> fst b ->
  timesClose w (snd a) (snd b) = true ->
  In (fst a) (qualifyPairs w ls q).
Proof.
  revert q. induction ls as [|c rest IH]; simpl; intros q Ha Hb Hne Hc; [destruct Ha|].
  destruct Ha as [->|Ha]; destruct Hb as [Hb|Hb].
  - subst b. congruence.
  - apply qualifyPairs_mono. apply qualifyInner_In. right. exists b. auto.
  - subst c. apply qualifyPairs_mono. apply qualifyInner_In. right. exists a.
    split; [exact Ha|]. split; [now apply timesClose_sym | now right].
  - now apply IH.
Qed.

Lemma timesSet_fresh (key : string) (v : list (option Z))
    (m : list (string * list (option Z))) :
  ~ In key (map fst m) -> timesSet key v m = m ++ [(key, v)].
Proof.
  induction m as [|[k old] rest IH]; simpl; intros Hnot; [reflexivity|].
  destruct (String.eqb k key) eqn:E.
  - apply String.eqb_eq in E. exfalso. apply Hnot. now left.
  - rewrite IH; [reflexivity|]. intros Hin. apply Hnot. now right.
Qed.

(** The times of a lens result, as [lensTimes] holds them. *)
Lemma lensTimes_distinct (lrs : list LensResult) :
  List.NoDup (map lensId lrs) ->
  lensTimes lrs
  = map (fun lr => (lensId lr, map (fun si => Date_getTime (createdAt si)) (shapedItems lr)))
        (List.filter (fun lr => negb (Nat.eqb (length (shapedItems lr)) 0)) lrs).
Proof.
  unfold lensTimes.
  set (f := fun lr => (lensId lr, map (fun si => Date_getTime (createdAt si)) (shapedItems lr))).
  set (p := fun lr => negb (Nat.eqb (length (shapedItems lr)) 0)).
  assert (Hgen : forall (todo : list LensResult) (m : list (string * list (option Z))),
             List.NoDup (map lensId todo) ->
             (forall lr, In lr todo -> ~ In (lensId lr) (map fst m)) ->
             foldl (fun m lr =>
                      match shapedItems lr with
                      | [] => m
                      | items => timesSet (lensId lr)
                                   (map (fun si => Date_getTime (createdAt si)) items) m
                      end) m todo
             = m ++ map f (List.filter p todo)).
  { induction todo as [|lr rest IH]; simpl; intros m Hnd Hfresh;
      [now rewrite app_nil_r|].
    apply NoDup_cons_iff in Hnd as [Hnot Hnd].
    unfold p at 1. destruct (shapedItems lr) as [|si items] eqn:Hitems; simpl.
    - apply IH; [exact Hnd | intros lr' Hin; apply Hfresh; now right].
    - rewrite timesSet_fresh by (apply Hfresh; now left).
      rewrite IH; [|exact Hnd|].
      + rewrite <- app_assoc. simpl. unfold f at 2. rewrite Hitems. reflexivity.
      + intros lr' Hin. rewrite map_app, in_app_iff. simpl.
        intros [Hm|[Heq|[]]].
        * revert Hm. apply Hfresh. now right.
        * apply Hnot. rewrite Heq. apply in_map_iff. exists lr'. auto. }
  intros Hnd. rewrite (Hgen lrs [] Hnd); [reflexivity | intros lr _ []].
Qed.

Lemma NoDup_map_filter {A : Type} (g : A -> string) (p : A -> bool) (l : list A) :
  List.NoDup (map g l) -> List.NoDup (map g (List.filter p l)).
Proof.
  induction l as [|a rest IH]; simpl; intros Hnd; [constructor|].
  apply NoDup_cons_iff in Hnd as [Hnot Hnd].
  destruct (p a); simpl; [|now apply IH].
  apply NoDup_cons_iff. split; [|now apply IH].
  intros Hin. apply Hnot. apply in_map_iff in Hin as (x & Hx & Hin).
  apply filter_In in Hin as [Hin _]. apply in_map_iff. exists x. auto.
Qed.

(** X5. The temporal join, over lens results with pairwise distinct ids: a
    lens has evidence exactly when one of its shaped items and a shaped
    item of another lens have creation dates that both parse and lie at
    most [temporal.days] days apart (7 days when the configuration gives
    none): the absolute value of the difference of their times is at most
    [days * 86400000], both computed on doubles. The join returns no
    entity. For a whole number of days whose window does not exceed 2^53 ms
    and two times at most 2^53 ms apart, the test on doubles is the exact
    comparison. *)
Theorem temporal_join_evidence :
  forall (lrs : list LensResult) (cfg : JoinConfig) (l : string),
    by_ cfg = ByTemporal ->
    List.NoDup (map lensId lrs) ->
    entities (joinLensResults dice lrs cfg) = [] /\
    (In l (lensesWithEvidence (joinLensResults dice lrs cfg)) <->
     exists lr lr' si si' t t',
       In lr lrs /\ In lr' lrs /\ lensId lr = l /\ lensId lr' <> l /\
       In si (shapedItems lr) /\ In si' (shapedItems lr') /\
       Date_getTime (createdAt si) = Some t /\
       Date_getTime (createdAt si') = Some t' /\
       num_le (num_abs (timeDiff t t')) (windowMs (orDefault (temporalDays cfg) 7)) = true) /\
    (forall n t t',
       orDefault (temporalDays cfg) 7 = inject_Z n ->
       (Z.abs (n * 86400000) <= 2 ^ 53)%Z -> (Z.abs (t - t') <= 2 ^ 53)%Z ->
       (num_le (num_abs (timeDiff t t')) (windowMs (orDefault (temporalDays cfg) 7)) = true
        <-> (Z.abs (t - t') <= n * 86400000)%Z)).
Proof.
  intros lrs cfg l Hby Hnd.
  assert (Hexact : forall n t t',
            orDefault (temporalDays cfg) 7 = inject_Z n ->
            (Z.abs (n * 86400000) <= 2 ^ 53)%Z -> (Z.abs (t - t') <= 2 ^ 53)%Z ->
            (num_le (num_abs (timeDiff t t')) (windowMs (orDefault (temporalDays cfg) 7))
             = true
             <-> (Z.abs (t - t') <= n * 86400000)%Z)).
  { intros n t t' Hn Hsmall Hdiff. rewrite Hn.
    exact (proj2 (within_whole_days n t t' Hsmall Hdiff)). }
  split; [|split; [|exact Hexact]]; clear Hexact;
    unfold joinLensResults; rewrite Hby; unfold joinByTemporal;
    cbn [entities lensesWithEvidence]; [reflexivity|].
  set (W := windowMs (orDefault (temporalDays cfg) 7)).
  rewrite (lensTimes_distinct lrs Hnd).
  set (f := fun lr => (lensId lr, map (fun si => Date_getTime (createdAt si)) (shapedItems lr))).
  set (p := fun lr => negb (Nat.eqb (length (shapedItems lr)) 0)).
  assert (Hkeys : List.NoDup (map fst (map f (List.filter p lrs)))).
  { rewrite map_map. simpl. now apply NoDup_map_filter. }
  assert (Hmem : forall lr si, In lr lrs -> In si (shapedItems lr) ->
                               In (f lr) (map f (List.filter p lrs))).
  { intros lr si Hlr Hsi. apply in_map. apply filter_In. split; [exact Hlr|].
    unfold p. destruct (shapedItems lr); [destruct Hsi | reflexivity]. }
  split.
  - intros Hin.
    destruct (qualifyPairs_sound W _ [] l Hkeys Hin)
      as [[]|(a & b & Ha & Hb & Hl & Hne & Hc)].
    apply in_map_iff in Ha as (lr & <- & Ha). apply filter_In in Ha as [Hlr _].
    apply in_map_iff in Hb as (lr' & <- & Hb). apply filter_In in Hb as [Hlr' _].
    apply timesClose_spec in Hc as (t & t' & Ht & Ht' & Hle). simpl in *.
    apply in_map_iff in Ht as (si & Ht & Hsi).
    apply in_map_iff in Ht' as (si' & Ht' & Hsi').
    exists lr, lr', si, si', t, t'. repeat split; auto.
  - intros (lr & lr' & si & si' & t & t' & Hlr & Hlr' & Hl & Hne & Hsi & Hsi' & Ht & Ht' & Hle).
    subst l.
    apply (qualifyPairs_complete W _ [] (f lr) (f lr'));
      [now apply (Hmem lr si) | now apply (Hmem lr' si') | simpl; congruence |].
    apply timesClose_spec. exists t, t'. simpl.
    repeat split; [| | exact Hle]; apply in_map_iff; eauto.
Qed.

End EvidenceJoins.

(* ------------------------------------------------------------------ *)
(** ** The signal evaluator over the results of the join               *)
(* ------------------------------------------------------------------ *)

Section SignalCoverage.
Context `{DateParser}.
Variable dice : string -> string -> Num.
Import Cron.

Lemma firstUnknown_None (combos : list (list string)) (ids : list string) :
  firstUnknown combos ids = None <->
  forall combo l, In combo combos -> In l combo -> In l ids.
Proof.
  unfold firstUnknown. split.
  - intros Hnone combo l Hc Hl.
    assert (Hin : In l (concat combos)) by (apply in_concat; exists combo; auto).
    pose proof (find_none _ _ Hnone l Hin) as Hb. simpl in Hb.
    apply negb_false_iff in Hb. now apply inb_In.
  - intros Hall.
    destruct (List.find (fun lens => negb (inb lens ids)) (concat combos)) as [l|] eqn:Hf;
      [|reflexivity].
    apply find_some in Hf as [Hin Hb]. apply in_concat in Hin as (combo & Hc & Hl).
    apply negb_true_iff in Hb.
    assert (Hyes : inb l ids = true) by (apply inb_In; eauto).
    congruence.
Qed.

(** X6. [evaluateSignal] fails, with a non-recoverable error at step
    [validate], exactly when the rule is [combination] and its [sufficient]
    list is missing, empty or names a lens that is not among the lens ids;
    with any other configuration it returns a result. *)
Theorem evaluateSignal_validation :
  forall (jr : JoinResult) (cfg : SignalConfig) (ids : list string),
    let wellFormed :=
      requiresType cfg = RCombination ->
      exists combos,
        sufficient cfg = Some combos /\ combos <> [] /\
        forall combo l, In combo combos -> In l combo -> In l ids in
    (wellFormed <-> exists r, evaluateSignal jr cfg ids = Returns r) /\
    (~ wellFormed <->
     exists msg, evaluateSignal jr cfg ids = Throws (WorkflowError msg "validate" false)).
Proof.
  intros jr cfg ids wellFormed.
  assert (Hcases :
    (wellFormed /\ exists r, evaluateSignal jr cfg ids = Returns r) \/
    (~ wellFormed /\
     exists msg, evaluateSignal jr cfg ids = Throws (WorkflowError msg "validate" false))).
  { unfold wellFormed, evaluateSignal, validateCombination.
    destruct (requiresType cfg) eqn:Hty;
      try (left; split; [discriminate|];
           simpl; unfold evaluateSignalWithEntities, evaluateSignalWithEvidence;
           rewrite Hty; destruct (negb _); eexists; reflexivity).
    destruct (sufficient cfg) as [[|combo rest]|] eqn:Hs.
    - right. split; [|eexists; reflexivity].
      intros Hw. destruct (Hw eq_refl) as (combos & Heq & Hne & _). congruence.
    - destruct (firstUnknown (combo :: rest) ids) as [l|] eqn:Hu.
      + right. split; [|eexists; reflexivity].
        intros Hw. destruct (Hw eq_refl) as (combos & Heq & _ & Hall).
        injection Heq as <-. apply firstUnknown_None in Hall. congruence.
      + left. split.
        * intros _. exists (combo :: rest). split; [reflexivity|].
          split; [discriminate|]. now apply firstUnknown_None.
        * simpl. unfold evaluateSignalWithEntities, evaluateSignalWithEvidence.
          rewrite Hty, Hs. destruct (negb _).
          -- destruct (firstCombination (combo :: rest) (entities jr)).
             eexists; reflexivity.
          -- destruct (List.find _ (combo :: rest)); eexists; reflexivity.
    - right. split; [|eexists; reflexivity].
      intros Hw. destruct (Hw eq_refl) as (combos & Heq & _). congruence. }
  split; split.
  - intros Hw. destruct Hcases as [[_ Hr]|[Hn _]]; [exact Hr | contradiction].
  - intros (r & Hr). destruct Hcases as [[Hw _]|[_ (msg & Hm)]]; [exact Hw | congruence].
  - intros Hn. destruct Hcases as [[Hw _]|[_ Hm]]; [contradiction | exact Hm].
  - intros (msg & Hm). destruct Hcases as [[_ (r & Hr)]|[Hn _]]; [congruence | exact Hn].
Qed.

Lemma firstCombination_sub (combos : list (list string)) (ents : list JoinedEntity)
    (e : JoinedEntity) :
  In e (fst (firstCombination combos ents)) -> In e ents.
Proof.
  induction combos as [|combo rest IH]; simpl; [intros []|].
  destruct (List.filter (fun e => coversAll combo (presentInLenses e)) ents)
    as [|m ms] eqn:E; [exact IH|].
  cbn [fst]. intros Hin. rewrite <- E in Hin. now apply filter_In in Hin as [Hin _].
Qed.

(** The entities a rule is satisfied by are entities of the join result. *)
Lemma signal_of_entities (jr : JoinResult) (cfg : SignalConfig) (ids : list string)
    (r : SignalResult) :
  evaluateSignalWithEntities jr cfg ids = Returns r ->
  exists matching,
    (forall e, In e matching -> In e (entities jr)) /\
    satisfiedBy r = uniq (flat_map presentInLenses matching) /\
    signalEntities r = map entity matching.
Proof.
  unfold evaluateSignalWithEntities.
  destruct (requiresType cfg).
  - intros Hr. injection Hr as <-. eexists. split; [|split; reflexivity].
    intros e He. now apply filter_In in He as [He _].
  - intros Hr. injection Hr as <-. eexists. split; [|split; reflexivity]. auto.
  - intros Hr. injection Hr as <-. eexists. split; [|split; reflexivity].
    intros e He. now apply filter_In in He as [He _].
  - destruct (sufficient cfg) as [combos|]; [|discriminate].
    pose proof (firstCombination_sub combos (entities jr)) as Hsub.
    destruct (firstCombination combos (entities jr)) as [matching combo].
    intros Hr. injection Hr as <-. exists matching. split; [|split; reflexivity].
    exact Hsub.
Qed.

Lemma signal_of_evidence (jr : JoinResult) (cfg : SignalConfig) (ids : list string)
    (r : SignalResult) :
  evaluateSignalWithEvidence jr cfg ids = Returns r ->
  satisfiedBy r = lensesWithEvidence jr /\ signalEntities r = [].
Proof.
  unfold evaluateSignalWithEvidence.
  destruct (requiresType cfg); try (intros Hr; injection Hr as <-; split; reflexivity).
  destruct (sufficient cfg) as [combos|]; [|discriminate].
  destruct (List.find _ combos); intros Hr; injection Hr as <-; split; reflexivity.
Qed.

Lemma timesSet_keys (key : string) (v : list (option Z))
    (m : list (string * list (option Z))) (k : string) :
  In k (map fst (timesSet key v m)) <-> k = key \/ In k (map fst m).
Proof.
  induction m as [|[k0 old] rest IH]; simpl.
  - intuition.
  - destruct (String.eqb k0 key) eqn:E; simpl.
    + apply String.eqb_eq in E. subst k0. intuition.
    + rewrite IH. intuition.
Qed.

Lemma lensTimes_keys (lrs : list LensResult) (l : string) :
  In l (map fst (lensTimes lrs)) -> hasShapedItem lrs l.
Proof.
  unfold lensTimes.
  assert (Hgen : forall (done todo : list LensResult) (m : list (string * list (option Z))),
             lrs = done ++ todo ->
             (forall k, In k (map fst m) -> hasShapedItem lrs k) ->
             forall k,
               In k (map fst (foldl (fun m lr =>
                       match shapedItems lr with
                       | [] => m
                       | items => timesSet (lensId lr)
                                    (map (fun si => Date_getTime (createdAt si)) items) m
                       end) m todo)) ->
               hasShapedItem lrs k).
  { intros done todo. revert done.
    induction todo as [|lr rest IH]; simpl; intros done m Hsplit Hm; [exact Hm|].
    apply (IH (done ++ [lr])); [rewrite <- app_assoc; exact Hsplit|].
    destruct (shapedItems lr) as [|si items] eqn:Hitems; [exact Hm|].
    intros k Hk. apply timesSet_keys in Hk as [->|Hk]; [|now apply Hm].
    exists lr. split; [rewrite Hsplit; apply in_app_iff; right; now left|].
    split; [reflexivity | congruence]. }
  apply (Hgen [] lrs); [reflexivity | intros k []].
Qed.

Lemma qualifyPairs_keys (w : Num) (ls : list (string * list (option Z)))
    (q : list string) (l : string) :
  In l (qualifyPairs w ls q) -> In l q \/ In l (map fst ls).
Proof.
  revert q. induction ls as [|a rest IH]; simpl; intros q Hin; [now left|].
  destruct (IH _ Hin) as [Hq|Hrest]; [|right; now right].
  apply qualifyInner_In in Hq as [Hq|(b & Hb & _ & [->| ->])].
  - now left.
  - right. now left.
  - right. right. apply in_map_iff. exists b. auto.
Qed.

(** Whatever the join mode, a lens with evidence holds a shaped item. *)
Lemma evidence_has_shaped_item (lrs : list LensResult) (cfg : JoinConfig) (l : string) :
  In l (lensesWithEvidence (joinLensResults dice lrs cfg)) -> hasShapedItem lrs l.
Proof.
  intros Hin.
  assert (Hentity : forall ents,
             (forall e, In e ents -> In e (entities (joinLensResults dice lrs cfg))) ->
             In l (uniq (flat_map presentInLenses ents)) -> hasShapedItem lrs l).
  { intros ents Hsub Hl. rewrite uniq_In in Hl. apply in_flat_map in Hl as (e & He & Hl).
    destruct (joined_from_entry dice lrs cfg e (Hsub e He)) as (k & en & Hm & -> & _).
    destruct (buildEntityMap_entryInvariant dice _ lrs (k, en) Hm) as (_ & Hts & _).
    simpl in *. apply Hts in Hl as (t & Ht & <-).
    destruct (buildEntityMap_invariant dice (orDefault (nameThreshold cfg) (85 # 100)) lrs)
      as [_ Hall].
    destruct (Hall k en Hm) as (_ & _ & Hrec).
    destruct (Hrec t Ht) as (lr' & si' & Hlr' & Hsi' & Hid & _).
    exists lr'. repeat split; auto.
    intros Hnil. rewrite Hnil in Hsi'. destruct Hsi'. }
  unfold joinLensResults in Hin, Hentity.
  destruct (by_ cfg) eqn:Hby.
  - cbn [lensesWithEvidence entities] in *. apply (Hentity _ (fun e He => He) Hin).
  - unfold joinByTemporal in Hin. cbn [lensesWithEvidence] in Hin.
    apply qualifyPairs_keys in Hin as [[]|Hin]. now apply lensTimes_keys.
  - cbn [lensesWithEvidence entities] in *. apply (Hentity _ (fun e He => He) Hin).
  - unfold joinByCooccurrence in Hin.
    destruct (truthyDays (temporalDays cfg)).
    + destruct (allTimestamps lrs) as [|t0 rest] eqn:Hall; [destruct Hin|].
      rewrite <- Hall in Hin. cbn [lensesWithEvidence] in Hin.
      rewrite uniq_In in Hin. apply in_map_iff in Hin as ([l' ot] & Hl & Hq).
      simpl in Hl. subst l'. apply filter_In in Hq as [Hq _].
      apply allTimestamps_In in Hq as (lr & si & Hlr & Hsi & Hid & _).
      exists lr. repeat split; auto.
      intros Hnil. rewrite Hnil in Hsi. destruct Hsi.
    + cbn [lensesWithEvidence] in Hin. apply in_map_iff in Hin as (lr & Hid & Hf).
      apply filter_In in Hf as [Hlr Hne]. exists lr. repeat split; auto.
      intros Hnil. rewrite Hnil in Hne. discriminate.
Qed.

(** X7. The signal evaluated on the result of the join, whatever the join
    mode and the rule: every lens in [satisfiedBy] is a lens with evidence
    in the join result and the id of a lens result that holds at least one
    shaped item, and every name in [entities] is the name of an entity the
    join returned. *)
Theorem signal_rests_on_join :
  forall (lrs : list LensResult) (jcfg : JoinConfig) (scfg : SignalConfig)
         (ids : list string) (r : SignalResult),
    evaluateSignal (joinLensResults dice lrs jcfg) scfg ids = Returns r ->
    (forall l, In l (satisfiedBy r) ->
       In l (lensesWithEvidence (joinLensResults dice lrs jcfg)) /\
       hasShapedItem lrs l) /\
    (forall n, In n (signalEntities r) ->
       exists e, In e (entities (joinLensResults dice lrs jcfg)) /\ entity e = n).
Proof.
  intros lrs jcfg scfg ids r Hr.
  set (jr := joinLensResults dice lrs jcfg) in *.
  assert (Hev : forall e l, In e (entities jr) -> In l (presentInLenses e) ->
                            In l (lensesWithEvidence jr)).
  { intros e l He Hl. subst jr. unfold joinLensResults in *.
    destruct (by_ jcfg).
    - cbn [entities lensesWithEvidence] in *. rewrite uniq_In, in_flat_map. eauto.
    - destruct He.
    - cbn [entities lensesWithEvidence] in *. rewrite uniq_In, in_flat_map. eauto.
    - unfold joinByCooccurrence in He.
      destruct (truthyDays (temporalDays jcfg)); [destruct (allTimestamps lrs)|];
        destruct He. }
  unfold evaluateSignal in Hr.
  destruct (validateCombination scfg ids) as [[]|err]; [|discriminate]. simpl in Hr.
  destruct (negb (Nat.eqb (length (entities jr)) 0)).
  - destruct (signal_of_entities jr scfg ids r Hr) as (matching & Hsub & Hsat & Hnames).
    split.
    + intros l Hl. rewrite Hsat in Hl. rewrite uniq_In in Hl.
      apply in_flat_map in Hl as (e & He & Hl).
      assert (Hin : In l (lensesWithEvidence jr)) by (apply (Hev e); auto).
      split; [exact Hin | exact (evidence_has_shaped_item lrs jcfg l Hin)].
    + intros n Hn. rewrite Hnames in Hn. apply in_map_iff in Hn as (e & <- & He).
      exists e. auto.
  - destruct (signal_of_evidence jr scfg ids r Hr) as [Hsat Hnames]. split.
    + intros l Hl. rewrite Hsat in Hl.
      split; [exact Hl | exact (evidence_has_shaped_item lrs jcfg l Hl)].
    + intros n Hn. rewrite Hnames in Hn. destruct Hn.
Qed.

Lemma filter_keeps_all {A : Type} (p : A -> bool) (l : list A) :
  (forall x, In x l -> p x = true) -> List.filter p l = l.
Proof.
  induction l as [|a rest IH]; simpl; intros Hall; [reflexivity|].
  rewrite (Hall a) by now left. f_equal. apply IH. intros x Hx. apply Hall. now right.
Qed.

(** X8. A [threshold] rule whose [min] (2 when absent) is at most the
    join's [minLensOverlap] (2 when absent) adds nothing to the join: as
    soon as the join returns an entity the signal fires, and it lists every
    returned entity and every lens with evidence. *)
Theorem threshold_within_overlap_fires :
  forall (lrs : list LensResult) (jcfg : JoinConfig) (scfg : SignalConfig)
         (ids : list string),
    requiresType scfg = RThreshold ->
    (orDefault (requiresMin scfg) 2 <= orDefault (minLensOverlap jcfg) 2)%Q ->
    entities (joinLensResults dice lrs jcfg) <> [] ->
    exists r,
      evaluateSignal (joinLensResults dice lrs jcfg) scfg ids = Returns r /\
      fired r = true /\
      signalEntities r = map entity (entities (joinLensResults dice lrs jcfg)) /\
      satisfiedBy r = lensesWithEvidence (joinLensResults dice lrs jcfg).
Proof.
  intros lrs jcfg scfg ids Hty Hmin Hne.
  assert (Hall : forall e, In e (entities (joinLensResults dice lrs jcfg)) ->
             Qleb (orDefault (requiresMin scfg) 2) (inject_Z (Z.of_nat (lensCount e))) = true).
  { intros e He.
    destruct (joined_from_entry dice lrs jcfg e He) as (_ & _ & _ & _ & Hov).
    unfold overlapFilter, Qleb in *. apply Qle_bool_iff. apply Qle_bool_iff in Hov.
    exact (Qle_trans _ _ _ Hmin Hov). }
  assert (Hevidence : lensesWithEvidence (joinLensResults dice lrs jcfg)
                      = uniq (flat_map presentInLenses
                                (entities (joinLensResults dice lrs jcfg)))).
  { revert Hne. unfold joinLensResults. destruct (by_ jcfg); cbn [entities lensesWithEvidence].
    - reflexivity.
    - unfold joinByTemporal. cbn [entities]. congruence.
    - reflexivity.
    - unfold joinByCooccurrence.
      destruct (truthyDays (temporalDays jcfg)); [destruct (allTimestamps lrs)|];
        cbn [entities]; congruence. }
  unfold evaluateSignal, validateCombination. rewrite Hty. simpl.
  destruct (entities (joinLensResults dice lrs jcfg)) as [|e0 es] eqn:Hents; [congruence|].
  cbn [length Nat.eqb negb].
  unfold evaluateSignalWithEntities. rewrite Hty, Hents.
  rewrite (filter_keeps_all _ (e0 :: es) Hall).
  eexists. split; [reflexivity|]. cbn [fired satisfiedBy signalEntities resultOfEntities].
  split; [reflexivity|]. split; [reflexivity|]. now rewrite Hevidence.
Qed.

End SignalCoverage.

(* ------------------------------------------------------------------ *)
(** ** Enrichment resolution and shape evaluation                      *)
(* ------------------------------------------------------------------ *)

Section ShapingProperties.
Context `{Builtins} `{DateParser}.
Import Shape Shaping.

Lemma resolveOne_In (m : gmap string string) (raws : list RawEnrichment)
    (r : ResolvedEnrichment) :
  In r (resolveOne m (Some raws)) <->
  exists e, In e raws /\ m !! enrichmentId e = Some (description r) /\
            description r <> EmptyString /\
            result r = rawResult e /\ format r = rawFormat e.
Proof.
  unfold resolveOne. rewrite in_flat_map. split.
  - intros (e & He & Hr). exists e. split; [exact He|].
    destruct (m !! enrichmentId e) as [d|]; [|destruct Hr].
    destruct (truthy d) eqn:Ht; [|destruct Hr].
    destruct Hr as [<-|[]]. simpl. apply truthy_true in Ht. auto.
  - intros (e & He & Hm & Hne & Hres & Hfmt). exists e. split; [exact He|].
    rewrite Hm. apply truthy_true in Hne. rewrite Hne. left.
    destruct r; simpl in *. congruence.
Qed.

(** [resolveEnrichmentDescriptions] returns one entry per item, in
    order. An item without [enrichments] resolves to none; otherwise its
    resolved enrichments are exactly those of its raw enrichments whose id
    the map sends to a non-empty description, with that description and the
    raw result and format. An enrichment whose id is unknown to the map, or
    whose description is empty, is dropped. *)
Lemma resolveEnrichmentDescriptions_spec :
  forall (Item : Type) (enrichmentsOf : Item -> option (list RawEnrichment))
         (items : list Item) (m : gmap string string),
    let resolved := resolveEnrichmentDescriptions enrichmentsOf items m in
    map fst resolved = items /\
    forall item rs, In (item, rs) resolved ->
      (enrichmentsOf item = None -> rs = []) /\
      forall r, In r rs <->
        exists raws e,
          enrichmentsOf item = Some raws /\ In e raws /\
          m !! enrichmentId e = Some (description r) /\
          description r <> EmptyString /\
          result r = rawResult e /\ format r = rawFormat e.
Proof.
  intros Item enrichmentsOf items m resolved. subst resolved.
  unfold resolveEnrichmentDescriptions. split.
  - rewrite map_map. simpl. apply map_id.
  - intros item rs Hin. apply in_map_iff in Hin as (it & Heq & _).
    injection Heq as -> <-. split; [intros ->; reflexivity|].
    intros r. destruct (enrichmentsOf item) as [raws|].
    + rewrite resolveOne_In. split.
      * intros (e & He). exists raws, e. tauto.
      * intros (raws' & e & Heq & He). injection Heq as <-. exists e. exact He.
    + simpl. split; [intros [] | intros (raws & e & Hd & _); discriminate].
Qed.

Lemma evaluateCondition_null (now : Z) (c : Condition) :
  evaluateCondition now c None = Returns false.
Proof.
  unfold evaluateCondition. destruct (String.eqb (operator c) "exists"); reflexivity.
Qed.

(** The run of the conditions from index [i] on. *)
Lemma evaluateConditions_spec (clock : nat -> Z) (enrichments : list ResolvedEnrichment)
    (conds : list Condition) :
  forall i,
    match evaluateConditions clock enrichments i conds with
    | Returns bs =>
        length bs = length conds /\
        forall j c, conds !! j = Some c ->
          exists b, bs !! j = Some b /\
            evaluateCondition (clock (i + j)%nat) c (resultFor enrichments c) = Returns b
    | Throws e =>
        exists j c, conds !! j = Some c /\
          evaluateCondition (clock (i + j)%nat) c (resultFor enrichments c) = Throws e
    end.
Proof.
  induction conds as [|cond rest IH]; intros i; simpl.
  - split; [reflexivity | intros j c Hj; discriminate].
  - destruct (evaluateCondition (clock i) cond (resultFor enrichments cond))
      as [b|e] eqn:Hc; simpl.
    + specialize (IH (S i)).
      destruct (evaluateConditions clock enrichments (S i) rest) as [bs|e]; simpl.
      * destruct IH as [Hlen Hall]. split; [simpl; congruence|].
        intros [|j] c Hj; simpl in Hj.
        -- injection Hj as <-. exists b. rewrite Nat.add_0_r. auto.
        -- destruct (Hall j c Hj) as (b' & Hb' & Hr). exists b'.
           rewrite Nat.add_succ_r. auto.
      * destruct IH as (j & c & Hj & Hr). exists (S j), c.
        rewrite Nat.add_succ_r. auto.
    + exists 0%nat, cond. rewrite Nat.add_0_r. auto.
Qed.

Lemma forallb_id_lookup (bs : list bool) :
  forallb (fun b => b) bs = true <-> forall j b, bs !! j = Some b -> b = true.
Proof.
  rewrite forallb_forall. split.
  - intros Hall j b Hj. apply Hall. apply list_elem_of_In. eapply list_elem_of_lookup_2; eauto.
  - intros Hall b Hin. apply list_elem_of_In, list_elem_of_lookup_1 in Hin as [j Hj]. eauto.
Qed.

Lemma existsb_id_lookup (bs : list bool) :
  existsb (fun b => b) bs = true <-> exists j, bs !! j = Some true.
Proof.
  rewrite existsb_exists. split.
  - intros (b & Hin & ->). apply list_elem_of_In, list_elem_of_lookup_1 in Hin. exact Hin.
  - intros (j & Hj). exists true. split; [|reflexivity].
    apply list_elem_of_In. eapply list_elem_of_lookup_2; eauto.
Qed.

(** X9. [evaluateShape] evaluates every condition of the shape, in order,
    whatever the logic. When it returns, every condition has returned; with
    logic [all] the result is true exactly when every condition holds, with
    any other logic exactly when some condition holds (so a shape without
    conditions passes under [all] and fails otherwise). When a condition
    throws, the shape throws: an earlier condition that holds does not stop
    the evaluation, not even under [any]. *)
Theorem evaluateShape_evaluates_every_condition :
  forall (clock : nat -> Z) (shape : ShapeConfig) (enrichments : list ResolvedEnrichment),
    let run := fun (j : nat) (c : Condition) =>
                 evaluateCondition (clock j) c (resultFor enrichments c) in
    (forall b, evaluateShape clock shape enrichments = Returns b ->
       (forall j c, conditions shape !! j = Some c -> exists bj, run j c = Returns bj) /\
       (b = true <->
        if String.eqb (logic shape) "all"
        then forall j c, conditions shape !! j = Some c -> run j c = Returns true
        else exists j c, conditions shape !! j = Some c /\ run j c = Returns true)) /\
    (forall e, evaluateShape clock shape enrichments = Throws e ->
       exists j c, conditions shape !! j = Some c /\ run j c = Throws e) /\
    (forall j c e, conditions shape !! j = Some c -> run j c = Throws e ->
       exists e', evaluateShape clock shape enrichments = Throws e').
Proof.
  intros clock shape enrichments run. subst run. unfold evaluateShape.
  pose proof (evaluateConditions_spec clock enrichments (conditions shape) 0) as Hspec.
  destruct (evaluateConditions clock enrichments 0 (conditions shape)) as [bs|e0];
    simpl in *.
  - destruct Hspec as [Hlen Hall]. split; [|split].
    + intros b Hb. injection Hb as <-. split.
      * intros j c Hj. destruct (Hall j c Hj) as (b & _ & Hr). eauto.
      * destruct (String.eqb (logic shape) "all").
        -- rewrite forallb_id_lookup. split.
           ++ intros Htrue j c Hj. destruct (Hall j c Hj) as (b & Hb & Hr).
              rewrite Hr. f_equal. eauto.
           ++ intros Htrue j b Hb.
              assert (Hj : is_Some (conditions shape !! j)).
              { apply lookup_lt_is_Some. rewrite <- Hlen. eapply lookup_lt_Some; eauto. }
              destruct Hj as [c Hj]. destruct (Hall j c Hj) as (b' & Hb' & Hr).
              rewrite (Htrue j c Hj) in Hr. congruence.
        -- rewrite existsb_id_lookup. split.
           ++ intros (j & Hb).
              assert (Hj : is_Some (conditions shape !! j)).
              { apply lookup_lt_is_Some. rewrite <- Hlen. eapply lookup_lt_Some; eauto. }
              destruct Hj as [c Hj]. destruct (Hall j c Hj) as (b' & Hb' & Hr).
              exists j, c. split; [exact Hj|]. congruence.
           ++ intros (j & c & Hj & Hr). destruct (Hall j c Hj) as (b' & Hb' & Hr').
              exists j. congruence.
    + intros e He. discriminate.
    + intros j c e Hj Hr. destruct (Hall j c Hj) as (b & _ & Hr'). congruence.
  - destruct Hspec as (j & c & Hj & Hr). split; [|split].
    + intros b Hb. discriminate.
    + intros e He. injection He as <-. eauto.
    + intros j' c' e _ _. eauto.
Qed.

Lemma resultFor_missing (m : gmap string string) (rawEnrichments : option (list RawEnrichment))
    (c : Condition) :
  (forall raws e, rawEnrichments = Some raws -> In e raws ->
                  m !! enrichmentId e <> Some (enrichment c)) ->
  resultFor (resolveOne m rawEnrichments) c = None.
Proof.
  intros Hmiss. unfold resultFor.
  destruct (List.find _ (resolveOne m rawEnrichments)) as [r|] eqn:Hf; [|reflexivity].
  exfalso. apply find_some in Hf as [Hin Heq]. apply String.eqb_eq in Heq.
  destruct rawEnrichments as [raws|]; [|destruct Hin].
  apply resolveOne_In in Hin as (e & He & Hm & _).
  apply (Hmiss raws e eq_refl He). congruence.
Qed.

(** X10. A condition on an enrichment that the item does not carry under a
    known id is false, whatever its operator: when the item has no
    enrichments, or none of its enrichment ids is mapped to the description
    the condition names, the condition evaluates to false without
    throwing, a shape with logic [all] that holds this condition does not
    pass the item, and a shape all of whose conditions are of this kind
    returns false unless it has logic [all] and no condition at all. *)
Theorem missing_enrichment_fails_shape :
  forall (clock : nat -> Z) (m : gmap string string)
         (rawEnrichments : option (list RawEnrichment)) (shape : ShapeConfig),
    let missing := fun (c : Condition) =>
      forall raws e, rawEnrichments = Some raws -> In e raws ->
                     m !! enrichmentId e <> Some (enrichment c) in
    let resolved := resolveOne m rawEnrichments in
    (forall c i, missing c ->
       evaluateCondition (clock i) c (resultFor resolved c) = Returns false) /\
    (forall c, In c (conditions shape) -> missing c -> logic shape = "all" ->
       evaluateShape clock shape resolved <> Returns true) /\
    ((forall c, In c (conditions shape) -> missing c) ->
     evaluateShape clock shape resolved
     = Returns (String.eqb (logic shape) "all"
                && Nat.eqb (length (conditions shape)) 0)).
Proof.
  intros clock m rawEnrichments shape missing resolved.
  assert (Hfalse : forall c i, missing c ->
            evaluateCondition (clock i) c (resultFor resolved c) = Returns false).
  { intros c i Hm. subst resolved. rewrite (resultFor_missing m rawEnrichments c Hm).
    apply evaluateCondition_null. }
  split; [exact Hfalse|]. split.
  - intros c Hin Hm Hall Htrue.
    unfold evaluateShape in Htrue. rewrite Hall in Htrue. simpl in Htrue.
    pose proof (evaluateConditions_spec clock resolved (conditions shape) 0) as Hspec.
    destruct (evaluateConditions clock resolved 0 (conditions shape)) as [bs|e0];
      [|discriminate].
    simpl in Htrue. injection Htrue as Htrue. destruct Hspec as [_ Hspec].
    apply list_elem_of_In, list_elem_of_lookup_1 in Hin as [j Hj].
    destruct (Hspec j c Hj) as (b & Hb & Hr). simpl in Hr.
    rewrite (Hfalse c j Hm) in Hr. injection Hr as <-.
    pose proof (proj1 (forallb_id_lookup bs) Htrue j false Hb). discriminate.
  - intros Hall. unfold evaluateShape.
    assert (Hgen : forall conds i, (forall c, In c conds -> missing c) ->
               evaluateConditions clock resolved i conds
               = Returns (map (fun _ => false) conds)).
    { induction conds as [|c rest IH]; intros i Hm; simpl; [reflexivity|].
      rewrite (Hfalse c i) by (apply Hm; now left). simpl.
      rewrite IH by (intros c' Hc'; apply Hm; now right). reflexivity. }
    rewrite (Hgen _ 0%nat Hall). simpl. f_equal.
    destruct (String.eqb (logic shape) "all"); simpl.
    + destruct (conditions shape); reflexivity.
    + clear. induction (conditions shape) as [|c rest IH]; simpl; auto.
Qed.

End ShapingProperties.

(* ------------------------------------------------------------------ *)
(** ** Snapshot and delta                                              *)
(* ------------------------------------------------------------------ *)

Section DeltaProperties.
Context `{DateParser}.
Import Cron Snapshot.

Lemma setMinus_In (a b : list string) (k : string) :
  In k (setMinus a b) <-> In k a /\ ~ In k b.
Proof.
  unfold setMinus. rewrite filter_In. split.
  - intros [Ha Hb]. split; [exact Ha|]. intros Hin.
    apply inb_In in Hin. rewrite Hin in Hb. discriminate.
  - intros [Ha Hb]. split; [exact Ha|].
    destruct (inb k b) eqn:E; [apply inb_In in E; contradiction | reflexivity].
Qed.

Lemma setMinus_nil (a b : list string) :
  setMinus a b = [] <-> forall k, In k a -> In k b.
Proof.
  split.
  - intros Hnil k Hk. destruct (inb k b) eqn:Hb; [now apply inb_In|].
    assert (Hin : In k (setMinus a b))
      by (apply setMinus_In; split; [exact Hk | rewrite <- inb_In; congruence]).
    rewrite Hnil in Hin. destruct Hin.
  - intros Hall. destruct (setMinus a b) as [|k rest] eqn:E; [reflexivity|].
    assert (Hin : In k (setMinus a b)) by (rewrite E; now left).
    apply setMinus_In in Hin as [Ha Hb]. exfalso. apply Hb. now apply Hall.
Qed.

Lemma keys_In (ents : list JoinedEntity) (k : string) :
  In k (uniq (map entityKey ents)) <-> exists e, In e ents /\ entityKey e = k.
Proof.
  rewrite uniq_In, in_map_iff. split; intros (e & H1 & H2); exists e; auto.
Qed.

(** X11. The joins of a delta. [newJoins] lists, without repetition, the
    keys ([url], or the name when the URL is empty) of the current
    snapshot's joined entities that are the key of no joined entity of the
    previous snapshot, and [lostJoins] the converse; no key is in both; and
    [newJoins] is empty exactly when every current key is a previous key.
    The signal transition reports a change exactly when [fired] differs
    between the two snapshots. *)
Theorem computeDelta_joins :
  forall (current previous : SnapshotData),
    let d := computeDelta current previous in
    let keyIn := fun (s : SnapshotData) (k : string) =>
                   exists e, In e (entities (join s)) /\ entityKey e = k in
    (forall k, In k (newJoins d) <-> keyIn current k /\ ~ keyIn previous k) /\
    (forall k, In k (lostJoins d) <-> keyIn previous k /\ ~ keyIn current k) /\
    List.NoDup (newJoins d) /\ List.NoDup (lostJoins d) /\
    (forall k, In k (newJoins d) -> ~ In k (lostJoins d)) /\
    (newJoins d = [] <-> forall k, keyIn current k -> keyIn previous k) /\
    (lostJoins d = [] <-> forall k, keyIn previous k -> keyIn current k) /\
    (changed (signalTransition d) = true <->
     fired (signal previous) <> fired (signal current)).
Proof.
  intros current previous d keyIn. subst d keyIn. unfold computeDelta; simpl.
  split; [|split; [|split; [|split; [|split; [|split; [|split]]]]]].
  - intros k. now rewrite setMinus_In, !keys_In.
  - intros k. now rewrite setMinus_In, !keys_In.
  - apply List.NoDup_filter, uniq_NoDup.
  - apply List.NoDup_filter, uniq_NoDup.
  - intros k. rewrite !setMinus_In. tauto.
  - rewrite setMinus_nil. split; intros Hall k Hk.
    + apply keys_In, Hall, keys_In, Hk.
    + apply keys_In, Hall, keys_In, Hk.
  - rewrite setMinus_nil. split; intros Hall k Hk.
    + apply keys_In, Hall, keys_In, Hk.
    + apply keys_In, Hall, keys_In, Hk.
  - destruct (fired (signal previous)), (fired (signal current)); simpl;
      split; congruence.
Qed.

(** X12. The counts of a delta. [newShapedItems] has an entry for exactly
    the lenses of the current snapshot; the entry is never negative: it is
    the increase of the lens's shaped count since the previous snapshot, 0
    when the count went down, and the whole count (if positive) when the
    previous snapshot does not know the lens. A lens that only the previous
    snapshot knows is not reported. *)
Theorem computeDelta_new_shaped_items :
  forall (current previous : SnapshotData) (lensId : string),
    let d := computeDelta current previous in
    (lenses current !! lensId = None -> newShapedItems d !! lensId = None) /\
    (forall lens, lenses current !! lensId = Some lens ->
       exists n,
         newShapedItems d !! lensId = Some n /\ (0 <= n)%Z /\
         (forall prev, lenses previous !! lensId = Some prev ->
            n = Z.max 0 (shapedCount lens - shapedCount prev)) /\
         (lenses previous !! lensId = None -> n = Z.max 0 (shapedCount lens))).
Proof.
  intros current previous lensId d. subst d. unfold computeDelta; simpl.
  rewrite map_lookup_imap. split.
  - intros ->. reflexivity.
  - intros lens ->. simpl. eexists. split; [reflexivity|]. split; [lia|]. split.
    + intros prev ->. reflexivity.
    + intros ->. f_equal. lia.
Qed.

Lemma setMinus_self (a : list string) : setMinus a a = [].
Proof. apply setMinus_nil. auto. Qed.

(** X13. The delta of a snapshot against a snapshot with the same lenses,
    join and signal (itself, for one) is empty: every lens reports 0 new
    shaped items, no join and no signal entity is new or lost, and the
    signal has not changed. *)
Theorem computeDelta_same_state :
  forall (current previous : SnapshotData),
    lenses previous = lenses current ->
    join previous = join current ->
    signal previous = signal current ->
    let d := computeDelta current previous in
    newShapedItems d = (fun _ => 0%Z) <$> lenses current /\
    newJoins d = [] /\ lostJoins d = [] /\
    signalTransition d
    = {| was := fired (signal current); now := fired (signal current);
         changed := false; newEntities := []; lostEntities := [] |}.
Proof.
  intros current previous Hl Hj Hs d. subst d. unfold computeDelta; simpl.
  rewrite Hl, Hj, Hs, !setMinus_self. split; [|split; [|split]]; try reflexivity.
  - apply map_eq. intros l. rewrite map_lookup_imap, lookup_fmap.
    destruct (lenses current !! l) as [lens|]; simpl; [|reflexivity].
    f_equal. lia.
  - f_equal. destruct (fired (signal current)); reflexivity.
Qed.

Lemma append_nonempty (s : string) (c : ascii) (t : string) :
  s +:+ String c t <> EmptyString.
Proof. destruct s; discriminate. Qed.

Lemma join_nonempty (sep : string) (parts : list string) :
  parts <> [] -> (forall part, In part parts -> part <> EmptyString) ->
  JS.join sep parts <> EmptyString.
Proof.
  destruct parts as [|x rest]; [congruence|]. intros _ Hall.
  assert (Hx : x <> EmptyString) by (apply Hall; now left).
  unfold JS.join. simpl. destruct rest; [exact Hx|].
  destruct x; [congruence | discriminate].
Qed.

Lemma formatDuration_nonnegative (ms : Z) :
  (0 <= ms)%Z ->
  exists d h m,
    (ms / 60000 = d * 1440 + h * 60 + m)%Z /\
    (0 <= d)%Z /\ (0 <= h < 24)%Z /\ (0 <= m < 60)%Z /\
    formatDuration (Some ms)
    = JS.join " "
        ((if (0 <? d)%Z then [pretty d +:+ "d"] else [])
         ++ (if (0 <? h)%Z then [pretty h +:+ "h"] else [])
         ++ (if (0 <? m)%Z || ((d =? 0)%Z && (h =? 0)%Z)
             then [pretty m +:+ "m"] else [])) /\
    formatDuration (Some ms) <> EmptyString.
Proof.
  intros Hms.
  set (tm := (ms / 60000)%Z).
  assert (Htm : (0 <= tm)%Z) by (apply Z.div_pos; lia).
  exists (tm / 1440)%Z, (Z.rem tm 1440 / 60)%Z, (Z.rem tm 60).
  assert (Hrem1 : Z.rem tm 1440 = (tm mod 1440)%Z) by (apply Z.rem_mod_nonneg; lia).
  assert (Hrem2 : Z.rem tm 60 = (tm mod 60)%Z) by (apply Z.rem_mod_nonneg; lia).
  assert (Hd : (0 <= tm / 1440)%Z) by (apply Z.div_pos; lia).
  assert (Hh : (0 <= Z.rem tm 1440 / 60 < 24)%Z).
  { rewrite Hrem1. pose proof (Z.mod_pos_bound tm 1440 ltac:(lia)).
    split; [apply Z.div_pos; lia | apply Z.div_lt_upper_bound; lia]. }
  assert (Hm : (0 <= Z.rem tm 60 < 60)%Z)
    by (rewrite Hrem2; apply Z.mod_pos_bound; lia).
  assert (Hsum : (tm = tm / 1440 * 1440 + Z.rem tm 1440 / 60 * 60 + Z.rem tm 60)%Z).
  { rewrite Hrem1, Hrem2. clear. Z.div_mod_to_equations. lia. }
  split; [exact Hsum|]. split; [exact Hd|]. split; [exact Hh|]. split; [exact Hm|].
  unfold formatDuration. fold tm.
  assert (Hshape :
    JS.join " "
      (if (0 <? Z.rem tm 60)%Z
          || Nat.eqb (length (if (0 <? Z.rem tm 1440 / 60)%Z
                              then (if (0 <? tm / 1440)%Z
                                    then [pretty (tm / 1440)%Z +:+ "d"] else [])
                                   ++ [pretty (Z.rem tm 1440 / 60)%Z +:+ "h"]
                              else if (0 <? tm / 1440)%Z
                                   then [pretty (tm / 1440)%Z +:+ "d"] else [])) 0
       then (if (0 <? Z.rem tm 1440 / 60)%Z
             then (if (0 <? tm / 1440)%Z
                   then [pretty (tm / 1440)%Z +:+ "d"] else [])
                  ++ [pretty (Z.rem tm 1440 / 60)%Z +:+ "h"]
             else if (0 <? tm / 1440)%Z
                  then [pretty (tm / 1440)%Z +:+ "d"] else [])
            ++ [pretty (Z.rem tm 60) +:+ "m"]
       else if (0 <? Z.rem tm 1440 / 60)%Z
            then (if (0 <? tm / 1440)%Z
                  then [pretty (tm / 1440)%Z +:+ "d"] else [])
                 ++ [pretty (Z.rem tm 1440 / 60)%Z +:+ "h"]
            else if (0 <? tm / 1440)%Z
                 then [pretty (tm / 1440)%Z +:+ "d"] else [])
    = JS.join " "
        ((if (0 <? tm / 1440)%Z then [pretty (tm / 1440)%Z +:+ "d"] else [])
         ++ (if (0 <? Z.rem tm 1440 / 60)%Z
             then [pretty (Z.rem tm 1440 / 60)%Z +:+ "h"] else [])
         ++ (if (0 <? Z.rem tm 60)%Z
                || ((tm / 1440 =? 0)%Z && (Z.rem tm 1440 / 60 =? 0)%Z)
             then [pretty (Z.rem tm 60) +:+ "m"] else []))).
  { destruct (0 <? tm / 1440)%Z eqn:E1; destruct (0 <? Z.rem tm 1440 / 60)%Z eqn:E2;
      destruct (0 <? Z.rem tm 60)%Z eqn:E3; simpl;
      try (apply Z.ltb_lt in E1); try (apply Z.ltb_ge in E1);
      try (apply Z.ltb_lt in E2); try (apply Z.ltb_ge in E2);
      repeat match goal with
      | |- context [(?x =? 0)%Z] =>
          let E := fresh "E" in destruct (x =? 0)%Z eqn:E;
          [apply Z.eqb_eq in E | apply Z.eqb_neq in E]; try lia
      end; simpl; reflexivity. }
  split; [exact Hshape|].
  rewrite Hshape. apply join_nonempty.
  - destruct (0 <? tm / 1440)%Z eqn:E1; [discriminate|].
    destruct (0 <? Z.rem tm 1440 / 60)%Z eqn:E2; [discriminate|].
    apply Z.ltb_ge in E1. apply Z.ltb_ge in E2.
    replace (tm / 1440 =? 0)%Z with true by (symmetry; apply Z.eqb_eq; lia).
    replace (Z.rem tm 1440 / 60 =? 0)%Z with true by (symmetry; apply Z.eqb_eq; lia).
    rewrite orb_true_r. discriminate.
  - intros part Hin.
    repeat (apply in_app_iff in Hin as [Hin|Hin]);
      match type of Hin with
      | In _ (if ?b then _ else _) => destruct b
      end;
      try destruct Hin as [<-|[]]; try destruct Hin; apply append_nonempty.
Qed.

Lemma formatDuration_below_zero (ms : Z) :
  (ms < 0)%Z ->
  (-60 < Z.rem (ms / 60000) 60 <= 0)%Z /\
  formatDuration (Some ms) = pretty (Z.rem (ms / 60000) 60) +:+ "m".
Proof.
  intros Hms.
  set (tm := (ms / 60000)%Z).
  assert (Htm : (tm < 0)%Z) by (apply Z.div_lt_upper_bound; lia).
  assert (Hr60 : (-60 < Z.rem tm 60 <= 0)%Z)
    by (clearbody tm; clear -Htm; Z.to_euclidean_division_equations; lia).
  assert (Hr1440 : (Z.rem tm 1440 <= 0)%Z)
    by (clearbody tm; clear -Htm; Z.to_euclidean_division_equations; lia).
  assert (Hd : (tm / 1440 < 0)%Z) by (apply Z.div_lt_upper_bound; lia).
  assert (Hh : (Z.rem tm 1440 / 60 <= 0)%Z).
  { apply Z.lt_succ_r. apply Z.div_lt_upper_bound; lia. }
  split; [exact Hr60|].
  unfold formatDuration. fold tm.
  replace (0 <? tm / 1440)%Z with false by (symmetry; apply Z.ltb_ge; lia).
  replace (0 <? Z.rem tm 1440 / 60)%Z with false by (symmetry; apply Z.ltb_ge; lia).
  replace (0 <? Z.rem tm 60)%Z with false by (symmetry; apply Z.ltb_ge; lia).
  reflexivity.
Qed.

(** X14. [formatDuration] never returns the empty string. On a duration
    that is not negative it splits the whole minutes into days, hours below
    24 and minutes below 60, exactly, and prints the parts that are not
    zero, in this order, separated by spaces; a duration below one minute
    prints as [0m]. On a negative duration (a previous snapshot dated after
    the current one) it prints a single minutes part, between [-59m] and
    [0m]: the days and hours of the gap are dropped. On a duration that is
    not a number it prints [NaNm]. *)
Theorem formatDuration_parts :
  forall (ms : Z),
    ((0 <= ms)%Z ->
     exists d h m,
       (ms / 60000 = d * 1440 + h * 60 + m)%Z /\
       (0 <= d)%Z /\ (0 <= h < 24)%Z /\ (0 <= m < 60)%Z /\
       formatDuration (Some ms)
       = JS.join " "
           ((if (0 <? d)%Z then [pretty d +:+ "d"] else [])
            ++ (if (0 <? h)%Z then [pretty h +:+ "h"] else [])
            ++ (if (0 <? m)%Z || ((d =? 0)%Z && (h =? 0)%Z)
                then [pretty m +:+ "m"] else []))) /\
    ((ms < 0)%Z ->
     (-60 < Z.rem (ms / 60000) 60 <= 0)%Z /\
     formatDuration (Some ms) = pretty (Z.rem (ms / 60000) 60) +:+ "m") /\
    formatDuration (Some ms) <> EmptyString /\
    formatDuration None = "NaNm".
Proof.
  intros ms. split; [|split; [|split; [|reflexivity]]].
  - intros Hms.
    destruct (formatDuration_nonnegative ms Hms) as (d & h & m & H1 & H2 & H3 & H4 & H5 & _).
    exists d, h, m. auto.
  - apply formatDuration_below_zero.
  - destruct (Z.le_gt_cases 0 ms) as [Hms|Hms].
    + destruct (formatDuration_nonnegative ms Hms) as (d & h & m & _ & _ & _ & _ & _ & Hne).
      exact Hne.
    + destruct (formatDuration_below_zero ms Hms) as [_ ->]. apply append_nonempty.
Qed.






End DeltaProperties.

(* ------------------------------------------------------------------ *)
(** ** The poll loop and the item collector                            *)
(* ------------------------------------------------------------------ *)

Section PollingProperties.
Import Value Helpers.

(** X17. The item collector returns the longest prefix of the listing that
    holds at most [cap] items (one item when [cap] is below one). It stops
    reading as soon as the cap is reached, so that a failure of the listing
    behind the cap is never seen; when the listing ends before the cap,
    every item is returned; when it fails before the cap, the failure is
    thrown. *)
Theorem collectFrom_prefix :
  forall (cap : Z) (s : ItemStream),
    let n := Z.to_nat (Z.max 1 cap) in
    collectFrom cap [] s
    = if (n <=? length (streamItems s))%nat
      then Returns (take n (streamItems s))
      else match streamFailure s with
           | None => Returns (streamItems s)
           | Some e => Throws e
           end.
Proof.
  intros cap s n. subst n.
  assert (Hgen : forall (s : ItemStream) (acc : list Value),
            let m := Z.to_nat (Z.max 1 (cap - Z.of_nat (length acc))) in
            collectFrom cap acc s
            = if (m <=? length (streamItems s))%nat
              then Returns (acc ++ take m (streamItems s))
              else match streamFailure s with
                   | None => Returns (acc ++ streamItems s)
                   | Some e => Throws e
                   end).
  { clear s. induction s as [|item rest IH|e]; intros acc m; subst m; simpl.
    - destruct (Z.to_nat _) eqn:E; [lia|]. simpl. now rewrite app_nil_r.
    - rewrite length_app. simpl.
      destruct (cap <=? Z.of_nat (length acc + 1))%Z eqn:Hfull.
      + apply Z.leb_le in Hfull.
        replace (Z.to_nat (Z.max 1 (cap - Z.of_nat (length acc)))) with 1%nat by lia.
        simpl. rewrite take_0. reflexivity.
      + apply Z.leb_gt in Hfull. rewrite IH. rewrite length_app. simpl.
        replace (Z.to_nat (Z.max 1 (cap - Z.of_nat (length acc))))
          with (S (Z.to_nat (Z.max 1 (cap - Z.of_nat (length acc + 1))))) by lia.
        simpl. rewrite <- !app_assoc. simpl.
        destruct (Z.to_nat (Z.max 1 (cap - Z.of_nat (length acc + 1)))
                  <=? length (streamItems rest))%nat; reflexivity.
    - destruct (Z.to_nat _) eqn:E; [lia|]. reflexivity. }
  rewrite (Hgen s []). simpl. rewrite Z.sub_0_r. reflexivity.
Qed.

(** What the poll loop does to the world, however it ends: [k] rounds of a
    fetch and a sleep, one more fetch, and at most one cancel after it. *)
Lemma pollLoop_calls (env : Env) (fuel : nat) :
  forall (ws : string) (deadline stepNum totalSteps : Z) (w : World)
         (o : Outcome (Webset * bool)) (w' : World),
    pollLoop env fuel ws deadline stepNum totalSteps w = Some (o, w') ->
    exists (k : nat) (c : bool),
      calls w' = calls w ++ rounds k ws ++ GetWebset ws
                           :: (if c then [CancelWebset ws] else []) /\
      gets w' = (gets w + S k)%nat /\
      cancels w' = (cancels w + if c then 1 else 0)%nat /\
      creates w' = creates w /\ deletes w' = deletes w /\ listings w' = listings w /\
      (c = true -> forall webset, o <> Returns (webset, true)).
Proof.
  induction fuel as [|fuel IH]; intros ws deadline stepNum totalSteps w o w' Hrun;
    [discriminate|].
  cbn [pollLoop] in Hrun. unfold bind at 1 in Hrun. unfold websetsGet at 1 in Hrun.
  destruct (onGet env (gets w)) as [webset|e] eqn:Hget.
  2:{ injection Hrun as <- <-. exists 0%nat, false. cbn.
      repeat split; try lia; try reflexivity; try discriminate. }
  destruct (String.eqb (status webset) "idle").
  { unfold ret in Hrun. injection Hrun as <- <-. exists 0%nat, false. cbn.
    repeat split; try lia; try reflexivity; try discriminate. }
  destruct (String.eqb (status webset) "paused").
  { unfold throw in Hrun. injection Hrun as <- <-. exists 0%nat, false. cbn.
    repeat split; try lia; try reflexivity; try discriminate. }
  unfold bind at 1 in Hrun. unfold now at 1 in Hrun. cbn [clockReads] in Hrun.
  destruct (deadline <=? clock env (clockReads w))%Z.
  { unfold ret in Hrun. injection Hrun as <- <-. exists 0%nat, false. cbn.
    repeat split; try lia; try reflexivity; try discriminate. }
  unfold bind at 1 in Hrun.
  assert (Hprog : exists w1,
             match lastProgress webset with
             | Some prog => updateProgress (searchingUpdate stepNum totalSteps prog)
             | None => ret tt
             end
               (tick {| clockReads := clockReads w; cancelChecks := cancelChecks w;
                        creates := creates w; gets := S (gets w); cancels := cancels w;
                        deletes := deletes w; listings := listings w;
                        calls := calls w ++ [GetWebset ws];
                        progressLog := progressLog w |})
             = Some (Returns tt, w1) /\
             calls w1 = calls w ++ [GetWebset ws] /\ gets w1 = S (gets w) /\
             cancels w1 = cancels w /\ creates w1 = creates w /\
             deletes w1 = deletes w /\ listings w1 = listings w).
  { destruct (lastProgress webset); eexists; (split; [reflexivity|]);
      cbn; repeat split; reflexivity. }
  destruct Hprog as (w1 & Hp & Hc1 & Hg1 & Hx1 & Hr1 & Hd1 & Hl1).
  rewrite Hp in Hrun.
  unfold bind at 1 in Hrun. unfold isCancelled at 1 in Hrun.
  destruct (cancelled env (cancelChecks w1)).
  - unfold bind, websetsCancel, ret in Hrun. cbn in Hrun.
    exists 0%nat, true.
    destruct (onCancel env (cancels w1)); injection Hrun as <- <-; cbn;
      rewrite Hc1, Hg1, Hx1, Hr1, Hd1, Hl1, <- app_assoc;
      repeat split; try lia; try reflexivity; intros _ ws'; discriminate.
  - unfold bind at 1 in Hrun. unfold sleep at 1 in Hrun.
    apply IH in Hrun as (k & c & Hcalls & Hgets & Hcancels & Hcr & Hde & Hli & Hto).
    cbn in Hcalls, Hgets, Hcancels, Hcr, Hde, Hli.
    exists (S k), c. rewrite Hcalls, Hgets, Hcancels, Hcr, Hde, Hli.
    rewrite Hc1, Hg1, Hx1, Hr1, Hd1, Hl1. cbn [rounds].
    rewrite <- !app_assoc. cbn.
    repeat split; try lia; try reflexivity. exact Hto.
Qed.

(** X18. Whatever the upstream, the clock and the task store answer, and
    however the poll ends, [pollUntilIdle] only ever fetches the webset it
    polls and sleeps two seconds between two fetches; it cancels at most
    once, that webset and as its last call; it never creates, deletes or
    lists; and a poll that returns [timedOut: true] has not cancelled. *)
Theorem pollUntilIdle_call_discipline :
  forall (env : Env) (fuel : nat) (ws : string) (timeoutMs stepNum totalSteps : Z)
         (w : World) (o : Outcome (Webset * bool)) (w' : World),
    pollUntilIdle env fuel ws timeoutMs stepNum totalSteps w = Some (o, w') ->
    exists (k : nat) (c : bool),
      calls w' = calls w ++ rounds k ws ++ GetWebset ws
                           :: (if c then [CancelWebset ws] else []) /\
      gets w' = (gets w + S k)%nat /\
      cancels w' = (cancels w + if c then 1 else 0)%nat /\
      creates w' = creates w /\ deletes w' = deletes w /\ listings w' = listings w /\
      (c = true -> forall webset, o <> Returns (webset, true)).
Proof.
  intros env fuel ws timeoutMs stepNum totalSteps w o w' Hrun.
  unfold pollUntilIdle, bind, now in Hrun.
  apply pollLoop_calls in Hrun. exact Hrun.
Qed.

(** One round of the poll loop that goes round again, with its calls. *)
Lemma pollLoop_round (env : Env) (fuel : nat) (ws : string)
    (deadline stepNum totalSteps : Z) (w : World) :
  keepsPolling env deadline w 0 ->
  exists w2,
    pollLoop env (S fuel) ws deadline stepNum totalSteps w
    = pollLoop env fuel ws deadline stepNum totalSteps w2 /\
    clockReads w2 = S (clockReads w) /\
    cancelChecks w2 = S (cancelChecks w) /\
    gets w2 = S (gets w) /\
    cancels w2 = cancels w /\
    calls w2 = calls w ++ [GetWebset ws; Sleep 2000].
Proof.
  intros (webset & Hget & Hidle & Hpaused & Hearly & Hnot).
  rewrite Nat.add_0_r in Hget, Hearly, Hnot.
  cbn [pollLoop]. unfold bind at 1. unfold websetsGet at 1. rewrite Hget.
  rewrite (eqb_ne _ _ Hidle), (eqb_ne _ _ Hpaused).
  unfold bind at 1. unfold now at 1. cbn [clockReads].
  apply Z.leb_gt in Hearly. rewrite Hearly.
  destruct (lastProgress webset) as [prog|];
    unfold bind, updateProgress, ret, isCancelled, sleep, logCall; cbn;
    rewrite Hnot; eexists; (split; [reflexivity|]); cbn; rewrite <- app_assoc;
    repeat split.
Qed.

Lemma pollLoop_rounds (env : Env) (k : nat) :
  forall (fuel : nat) (ws : string) (deadline stepNum totalSteps : Z) (w : World),
    (forall i, (i < k)%nat -> keepsPolling env deadline w i) ->
    exists wk,
      pollLoop env (k + fuel) ws deadline stepNum totalSteps w
      = pollLoop env fuel ws deadline stepNum totalSteps wk /\
      clockReads wk = (clockReads w + k)%nat /\
      cancelChecks wk = (cancelChecks w + k)%nat /\
      gets wk = (gets w + k)%nat /\
      cancels wk = cancels w /\
      calls wk = calls w ++ rounds k ws.
Proof.
  induction k as [|k IH]; intros fuel ws deadline stepNum totalSteps w Hkeep.
  - exists w. rewrite !Nat.add_0_r, app_nil_r. repeat split.
  - destruct (pollLoop_round env (k + fuel) ws deadline stepNum totalSteps w
                (Hkeep 0%nat ltac:(lia)))
      as (w2 & Hstep & Hc2 & Hk2 & Hg2 & Hx2 & Hcalls2).
    change (S k + fuel)%nat with (S (k + fuel)). rewrite Hstep.
    destruct (IH fuel ws deadline stepNum totalSteps w2) as (wk & Hrun & Hc & Hk & Hg & Hx & Hcalls).
    + intros i Hi. destruct (Hkeep (S i) ltac:(lia)) as (wi & H1 & H2 & H3 & H4 & H5).
      exists wi. rewrite Hg2, Hc2, Hk2. rewrite !Nat.add_succ_comm.
      repeat split; assumption.
    + exists wk. split; [exact Hrun|].
      rewrite Hc, Hk, Hg, Hx, Hcalls, Hc2, Hk2, Hg2, Hx2, Hcalls2.
      cbn [rounds]. rewrite <- app_assoc. cbn.
      repeat split; lia.
Qed.

(** X19. The exits of [pollUntilIdle] other than the timeout. After any
    number of rounds that go round again, with fuel for them: a fetch that
    fails makes the poll fail with that error; an idle webset is returned
    with [timedOut: false], nothing being cancelled; a paused webset makes
    the poll fail with a plain error (not a workflow error); and when the
    task is found cancelled, before the deadline, the webset is cancelled
    upstream and returned with [timedOut: false], or the failure of the
    cancel call is thrown. *)
Theorem pollUntilIdle_exits :
  forall (env : Env) (k fuel : nat) (ws : string) (timeoutMs stepNum totalSteps : Z)
         (w : World),
    let deadline := (clock env (clockReads w) + timeoutMs)%Z in
    let poll := pollUntilIdle env (S k + fuel) ws timeoutMs stepNum totalSteps w in
    (forall i, (i < k)%nat -> keepsPolling env deadline (tick w) i) ->
    (forall e, onGet env (gets w + k) = Throws e ->
       exists w', poll = Some (Throws e, w')) /\
    (forall webset,
       onGet env (gets w + k) = Returns webset -> status webset = "idle" ->
       exists w',
         poll = Some (Returns (webset, false), w') /\
         cancels w' = cancels w /\
         calls w' = calls w ++ rounds k ws ++ [GetWebset ws]) /\
    (forall webset,
       onGet env (gets w + k) = Returns webset -> status webset = "paused" ->
       exists w',
         poll = Some (Throws (PlainError "Webset was paused unexpectedly"), w') /\
         cancels w' = cancels w) /\
    (forall webset,
       onGet env (gets w + k) = Returns webset ->
       status webset <> "idle" -> status webset <> "paused" ->
       (clock env (S (clockReads w + k)) < deadline)%Z ->
       cancelled env (cancelChecks w + k) = true ->
       exists w',
         poll = Some (match onCancel env (cancels w) with
                     | Returns _ => Returns (webset, false)
                     | Throws e => Throws e
                     end, w') /\
         cancels w' = S (cancels w) /\
         calls w' = calls w ++ rounds k ws ++ [GetWebset ws; CancelWebset ws]).
Proof.
  intros env k fuel ws timeoutMs stepNum totalSteps w deadline poll Hkeep.
  destruct (pollLoop_rounds env k (S fuel) ws deadline stepNum totalSteps (tick w) Hkeep)
    as (wk & Hrun & Hc & Hk & Hg & Hx & Hcalls).
  assert (Hpoll : poll = pollLoop env (S fuel) ws deadline stepNum totalSteps wk).
  { subst poll. unfold pollUntilIdle, bind, now. fold deadline.
    replace (S k + fuel)%nat with (k + S fuel)%nat by lia. exact Hrun. }
  clearbody poll. subst poll. clear Hrun. cbn in Hc, Hk, Hg, Hx, Hcalls.
  cbn [pollLoop].
  split; [|split; [|split]].
  - intros e Hget. unfold bind at 1. unfold websetsGet at 1. rewrite Hg, Hget.
    eexists. reflexivity.
  - intros webset Hget Hidle. unfold bind at 1. unfold websetsGet at 1.
    rewrite Hg, Hget, Hidle. cbn.
    eexists. split; [reflexivity|]. cbn. rewrite Hx, Hcalls, <- app_assoc. split; reflexivity.
  - intros webset Hget Hpaused. unfold bind at 1. unfold websetsGet at 1.
    rewrite Hg, Hget, Hpaused. cbn.
    eexists. split; [reflexivity|]. cbn. exact Hx.
  - intros webset Hget Hidle Hpaused Hearly Hstop.
    unfold bind at 1. unfold websetsGet at 1. rewrite Hg, Hget.
    rewrite (eqb_ne _ _ Hidle), (eqb_ne _ _ Hpaused).
    unfold bind at 1. unfold now at 1. cbn [clockReads]. rewrite Hc.
    apply Z.leb_gt in Hearly. rewrite Hearly.
    destruct (lastProgress webset) as [prog|];
      unfold bind, updateProgress, ret, isCancelled, websetsCancel; cbn;
      rewrite Hk, Hstop; cbn; rewrite ?Hx, ?Hcalls;
      destruct (onCancel env (cancels w));
      (eexists; split; [reflexivity|]; cbn; rewrite ?Hx, ?Hcalls, <- ?app_assoc;
       split; reflexivity).
Qed.

End PollingProperties.

(* ------------------------------------------------------------------ *)
(** ** lifecycle.harvest, step by step                                 *)
(* ------------------------------------------------------------------ *)

Section HarvestProperties.
Import Value Helpers Lifecycle.

(** The parameters [lifecycle.harvest] creates its webset with. *)
Lemma beforePoll_inv (env : Env) (args : Args) (w : World) (st : Started) (w1 : World) :
  beforePoll env args w = Some (Returns (Some st), w1) ->
  exists webset,
    onCreate env (creates w) = Returns webset /\
    createdWebset st = websetId webset /\
    map stepName (trackedSoFar st) = ["validate"; "create"] /\
    calls w1 = calls w ++ [CreateWebset
                             {| searchQuery := query args;
                                searchCount := orElse (count args) 25%Z;
                                searchEntity := Some (entity args);
                                searchCriteria := criteria args;
                                createEnrichments := enrichments args |}] /\
    creates w1 = S (creates w) /\ cancels w1 = cancels w /\
    gets w1 = gets w /\ deletes w1 = deletes w /\ listings w1 = listings w.
Proof.
  intros Hrun.
  unfold beforePoll, track, isCancelled, now, updateProgress, websetsCreate,
    websetsCancel, lift, bind, ret in Hrun.
  cbn -[validateRequired validateEntity] in Hrun.
  destruct (validateRequired (query args) "query" queryHint) as [[]|e];
    cbn -[validateRequired validateEntity] in Hrun; [|discriminate].
  destruct (validateEntity (entity args)) as [ent|e] eqn:Hent;
    cbn -[validateRequired validateEntity] in Hrun; [|discriminate].
  assert (Hsame : ent = entity args).
  { unfold validateEntity in Hent.
    destruct (match entity args with VObject fields => hasKey "type" fields | _ => false end);
      [injection Hent as <-; reflexivity | discriminate]. }
  subst ent.
  destruct (cancelled env (cancelChecks w));
    cbn -[validateRequired validateEntity] in Hrun; [discriminate|].
  destruct (onCreate env (creates w)) as [webset|e];
    cbn -[validateRequired validateEntity] in Hrun; [|discriminate].
  destruct (cancelled env (S (cancelChecks w)));
    cbn -[validateRequired validateEntity] in Hrun.
  - destruct (onCancel env (cancels w)); discriminate.
  - injection Hrun as <- <-. exists webset. cbn. repeat split; reflexivity.
Qed.

Lemma afterPoll_inv (env : Env) (args : Args) (start : Z) (ws : string)
    (tracked : list StepTiming) (finalWebset : Webset) (pollTimedOut : bool)
    (w : World) (r : HarvestResult) (w' : World) :
  afterPoll env args start ws tracked finalWebset pollTimedOut w
  = Some (Returns (Some r), w') ->
  map stepName (steps r) = map stepName tracked ++ ["collect"] /\
  itemCount r = length (items r) /\
  resultWebsetId r = ws /\
  enrichmentCount r = match enrichments args with Some l => length l | None => 0%nat end /\
  collectFrom (orElse (count args) 25 * 2)%Z [] (onListAll env (listings w))
  = Returns (items r) /\
  calls w' = calls w ++ ListAll ws
                        :: (if orElse (cleanup args) false then [DeleteWebset ws] else []) /\
  creates w' = creates w /\ cancels w' = cancels w.
Proof.
  intros Hrun.
  unfold afterPoll, track, collectItems, listAll, isCancelled, now, updateProgress,
    lift, bind, ret in Hrun. cbn in Hrun.
  destruct (cancelled env (cancelChecks w)); cbn in Hrun; [discriminate|].
  destruct (collectFrom (orElse (count args) 25 * 2)%Z [] (onListAll env (listings w)))
    as [got|e] eqn:Hgot; cbn in Hrun; [|discriminate].
  destruct (orElse (cleanup args) false); cbn in Hrun.
  - unfold attempt, websetsDelete in Hrun. cbn in Hrun.
    destruct (onDelete env (deletes w)); injection Hrun as <- <-; cbn;
      rewrite map_app, <- app_assoc; repeat split; reflexivity.
  - injection Hrun as <- <-. cbn. rewrite map_app.
    repeat split; reflexivity.
Qed.

(** X20. [lifecycle.harvest] does nothing upstream before its arguments
    are valid and the first cancellation check has passed. With a missing
    query, or an entity that is not an object with a [type] key, it fails
    with a non-recoverable error at step [validate]; with valid arguments
    and a task found cancelled at the first check it returns null. In both
    cases no upstream call has been made and no progress reported. *)
Theorem harvest_stops_before_create :
  forall (env : Env) (fuel : nat) (args : Args) (w : World),
    let valid :=
      isNullish (query args) = false /\
      exists fields, entity args = VObject fields /\ hasKey "type" fields = true in
    (~ valid ->
     exists msg w',
       lifecycleHarvestWorkflow env fuel args w
       = Some (Throws (WorkflowError msg "validate" false), w') /\
       calls w' = calls w /\ progressLog w' = progressLog w /\
       cancelChecks w' = cancelChecks w) /\
    (valid -> cancelled env (cancelChecks w) = true ->
     exists w',
       lifecycleHarvestWorkflow env fuel args w = Some (Returns None, w') /\
       calls w' = calls w /\ progressLog w' = progressLog w).
Proof.
  intros env fuel args w valid. subst valid.
  unfold lifecycleHarvestWorkflow, beforePoll, track, isCancelled, now, updateProgress,
    lift, bind, ret, validateRequired, validateEntity.
  split.
  - intros Hinvalid. cbn.
    destruct (isNullish (query args)) eqn:Hq; cbn.
    + eexists. eexists. split; [reflexivity|]. cbn. repeat split; reflexivity.
    + destruct (entity args) as [| | | | | |fields] eqn:He; cbn;
        try (eexists; eexists; split; [reflexivity|]; cbn; repeat split; reflexivity).
      destruct (hasKey "type" fields) eqn:Hk; cbn.
      * exfalso. apply Hinvalid. split; [reflexivity|]. exists fields. auto.
      * eexists. eexists. split; [reflexivity|]. cbn. repeat split; reflexivity.
  - intros (Hq & fields & He & Hk) Hstop. cbn. rewrite Hq, He, Hk. cbn.
    rewrite Hstop. cbn. eexists. split; [reflexivity|]. cbn. split; reflexivity.
Qed.

(** X21. The checkpoint after the creation of the webset. With valid
    arguments and a task that is not cancelled at the first check,
    [lifecycle.harvest] calls [websets.create] once, with the query, the
    entity, the criteria, the enrichments and the count (25 when absent) of
    its arguments. When that call fails, the failure is thrown and nothing
    else is called. When the task is found cancelled at the check after the
    creation, the webset just created is cancelled upstream and the run
    returns null, or throws the failure of the cancel call. *)
Theorem harvest_cancel_after_create :
  forall (env : Env) (fuel : nat) (args : Args) (w : World) (fields : list (string * Value)),
    isNullish (query args) = false ->
    entity args = VObject fields -> hasKey "type" fields = true ->
    cancelled env (cancelChecks w) = false ->
    let params := {| searchQuery := query args;
                     searchCount := orElse (count args) 25%Z;
                     searchEntity := Some (entity args);
                     searchCriteria := criteria args;
                     createEnrichments := enrichments args |} in
    (forall e, onCreate env (creates w) = Throws e ->
       exists w',
         lifecycleHarvestWorkflow env fuel args w = Some (Throws e, w') /\
         calls w' = calls w ++ [CreateWebset params]) /\
    (forall webset,
       onCreate env (creates w) = Returns webset ->
       cancelled env (S (cancelChecks w)) = true ->
       exists w',
         lifecycleHarvestWorkflow env fuel args w
         = Some (match onCancel env (cancels w) with
                 | Returns _ => Returns None
                 | Throws e => Throws e
                 end, w') /\
         calls w' = calls w ++ [CreateWebset params; CancelWebset (websetId webset)]).
Proof.
  intros env fuel args w fields Hq He Hk Hgo params. subst params.
  unfold lifecycleHarvestWorkflow, beforePoll, track, isCancelled, now, updateProgress,
    websetsCreate, websetsCancel, lift, bind, ret, validateRequired, validateEntity.
  cbn. rewrite Hq, He, Hk. cbn. rewrite Hgo. cbn. split.
  - intros e Hcreate. rewrite Hcreate. cbn. eexists. split; reflexivity.
  - intros webset Hcreate Hstop. rewrite Hcreate. cbn. rewrite Hstop. cbn.
    destruct (onCancel env (cancels w)); cbn;
      (eexists; split; [reflexivity|]; cbn; rewrite <- app_assoc; reflexivity).
Qed.

(** X22. The cleanup of [lifecycle.harvest] is best effort. Once the poll
    has returned, the task is not found cancelled and the items are
    collected, the run completes with these items whatever
    [websets.delete] answers: the webset is deleted upstream exactly when
    [cleanup] is true, after the listing and as the last call, and a
    failure of the deletion is swallowed. *)
Theorem harvest_cleanup_is_best_effort :
  forall (env : Env) (args : Args) (start : Z) (ws : string) (tracked : list StepTiming)
         (finalWebset : Webset) (pollTimedOut : bool) (w : World) (collected : list Value),
    cancelled env (cancelChecks w) = false ->
    collectFrom (orElse (count args) 25 * 2)%Z [] (onListAll env (listings w))
    = Returns collected ->
    exists r w',
      afterPoll env args start ws tracked finalWebset pollTimedOut w
      = Some (Returns (Some r), w') /\
      items r = collected /\ itemCount r = length collected /\
      resultWebsetId r = ws /\
      calls w' = calls w ++ ListAll ws
                            :: (if orElse (cleanup args) false
                                then [DeleteWebset ws] else []) /\
      deletes w' = (deletes w + if orElse (cleanup args) false then 1 else 0)%nat.
Proof.
  intros env args start ws tracked finalWebset pollTimedOut w collected Hgo Hcollect.
  unfold afterPoll, track, collectItems, listAll, isCancelled, now, updateProgress,
    lift, bind, ret. cbn. rewrite Hgo. cbn. rewrite Hcollect. cbn.
  destruct (orElse (cleanup args) false); cbn.
  - unfold attempt, websetsDelete. cbn.
    destruct (onDelete env (deletes w));
      (eexists; eexists; split; [reflexivity|]; cbn; rewrite <- app_assoc;
       repeat split; try reflexivity; lia).
  - eexists; eexists; split; [reflexivity|]; cbn. repeat split; try reflexivity; lia.
Qed.

(** X23. A run of [lifecycle.harvest] that completes has gone through the
    four steps [validate], [create], [poll] and [collect], in this order;
    it has created exactly one webset, polled that webset only, listed its
    items once, after the poll, and deleted it last if [cleanup] is true;
    its result names that webset and counts the items it lists. *)
Theorem harvest_completed_run :
  forall (env : Env) (fuel : nat) (args : Args) (w : World) (r : HarvestResult)
         (w' : World),
    lifecycleHarvestWorkflow env fuel args w = Some (Returns (Some r), w') ->
    map stepName (steps r) = ["validate"; "create"; "poll"; "collect"] /\
    itemCount r = length (items r) /\
    exists (webset : Webset) (k : nat) (c : bool),
      onCreate env (creates w) = Returns webset /\
      resultWebsetId r = websetId webset /\
      creates w' = S (creates w) /\
      calls w'
      = calls w
        ++ [CreateWebset {| searchQuery := query args;
                            searchCount := orElse (count args) 25%Z;
                            searchEntity := Some (entity args);
                            searchCriteria := criteria args;
                            createEnrichments := enrichments args |}]
        ++ rounds k (websetId webset)
        ++ GetWebset (websetId webset)
           :: (if c then [CancelWebset (websetId webset)] else [])
        ++ ListAll (websetId webset)
           :: (if orElse (cleanup args) false
               then [DeleteWebset (websetId webset)] else []).
Proof.
  intros env fuel args w r w' Hrun.
  unfold lifecycleHarvestWorkflow in Hrun. unfold bind at 1 in Hrun.
  destruct (beforePoll env args w) as [[[[st|]|e] w1]|] eqn:Hbefore; try discriminate.
  destruct (beforePoll_inv env args w st w1 Hbefore)
    as (webset & Hcreate & Hws & Hnames & Hcalls1 & Hcr1 & Hx1 & Hg1 & Hd1 & Hl1).
  unfold bind at 1 in Hrun.
  destruct (pollUntilIdle env fuel (createdWebset st) (orElse (timeout args) 300000%Z)
              2%Z 4%Z w1) as [[[polled|e] w2]|] eqn:Hpoll; try discriminate.
  assert (Hloop : exists (k : nat) (c : bool),
             calls w2 = calls w1 ++ rounds k (createdWebset st)
                        ++ GetWebset (createdWebset st)
                           :: (if c then [CancelWebset (createdWebset st)] else []) /\
             creates w2 = creates w1).
  { unfold pollUntilIdle, bind, now in Hpoll.
    apply pollLoop_calls in Hpoll as (k & c & Hc & _ & _ & Hcr & _).
    exists k, c. split; [exact Hc | exact Hcr]. }
  destruct Hloop as (k & c & Hcalls2 & Hcr2).
  unfold bind at 1, track at 1, bind at 1, now at 1, ret at 1 in Hrun.
  apply afterPoll_inv in Hrun
    as (Hsteps & Hcount & Hid & _ & _ & Hcalls3 & Hcr3 & _).
  split; [|split; [exact Hcount|]].
  - rewrite Hsteps, map_app, Hnames. reflexivity.
  - exists webset, k, c. split; [exact Hcreate|]. split; [congruence|].
    split; [cbn in Hcr3; congruence|].
    rewrite Hcalls3. cbn [calls tick]. rewrite Hcalls2, Hcalls1, Hws.
    rewrite <- !app_assoc. reflexivity.
Qed.

End HarvestProperties.

(* ------------------------------------------------------------------ *)
(** ** semantic.cron: what a run calls upstream                        *)
(* ------------------------------------------------------------------ *)

Section CronRunProperties.
Import Value Helpers CronWorkflow.
Variable env : Env.
Variable shape : Shaping.

(** The shaping of the collected items calls nothing upstream. *)
Lemma shaping_is_local :
  forall lens defs items w o w',
    shapingOf env shape lens defs items w = Some (o, w') -> calls w' = calls w.
Proof.
  intros lens defs items w o w' Hrun. unfold shapingOf, sync in Hrun.
  destruct (shape lens defs items (clock env) (clockReads w)) as [o' reads].
  injection Hrun as _ <-. reflexivity.
Qed.

Lemma fetchLoop_calls (lenses : list LensConfig) :
  forall (totalLenses i : nat) (st : Progressed) (w : World)
         (o : Outcome Progressed) (w' : World),
    fetchLoop env totalLenses i lenses st w = Some (o, w') ->
    exists new,
      calls w' = calls w ++ new /\
      (forall c, In c new ->
         exists lens ws, In lens lenses /\
           getKey (lensConfigId lens) (websetIds st) = Some ws /\ c = GetWebset ws) /\
      (forall st', o = Returns st' ->
         websetIds st' = websetIds st /\
         forall lens, In lens lenses ->
           exists ws, getKey (lensConfigId lens) (websetIds st) = Some ws).
Proof.
  induction lenses as [|lens rest IH]; intros totalLenses i st w o w' Hrun.
  - cbn in Hrun. unfold ret in Hrun. injection Hrun as <- <-.
    exists []. rewrite app_nil_r. split; [reflexivity|]. split; [intros c []|].
    intros st' Hst. injection Hst as <-. split; [reflexivity | intros lens []].
  - cbn [fetchLoop] in Hrun.
    destruct (getKey (lensConfigId lens) (websetIds st)) as [ws|] eqn:Hkey.
    2:{ unfold throw in Hrun. injection Hrun as <- <-. exists [].
        rewrite app_nil_r. split; [reflexivity|]. split; [intros c []|].
        intros st' Hst. discriminate. }
    destruct (truthy ws).
    2:{ unfold throw in Hrun. injection Hrun as <- <-. exists [].
        rewrite app_nil_r. split; [reflexivity|]. split; [intros c []|].
        intros st' Hst. discriminate. }
    unfold bind at 1, updateProgress at 1 in Hrun.
    unfold bind at 1, websetsGet at 1 in Hrun. cbn in Hrun.
    destruct (onGet env (gets w)) as [webset|e].
    + apply IH in Hrun as (new & Hcalls & Hnew & Hret). cbn in Hcalls, Hnew, Hret.
      exists (GetWebset ws :: new). split; [rewrite Hcalls, <- app_assoc; reflexivity|].
      split.
      * intros c [<-|Hc].
        -- exists lens, ws. split; [now left | auto].
        -- destruct (Hnew c Hc) as (lens' & ws' & Hin & Hk & Heq).
           exists lens', ws'. split; [now right | auto].
      * intros st' Hst. destruct (Hret st' Hst) as [Hids Hall].
        split; [exact Hids|]. intros lens' [<-|Hin]; [eauto | now apply Hall].
    + injection Hrun as <- <-. exists [GetWebset ws]. cbn.
      split; [reflexivity|]. split.
      * intros c [<-|[]]. exists lens, ws. split; [now left | auto].
      * intros st' Hst. discriminate.
Qed.

Lemma collectLenses_calls (lenses : list LensConfig) (st : Progressed) :
  forall (acc : list Cron.LensResult) (w : World)
         (o : Outcome (list Cron.LensResult)) (w' : World),
    collectLenses env (shapingOf env shape) lenses st acc w = Some (o, w') ->
    exists new,
      calls w' = calls w ++ new /\
      forall c, In c new ->
        exists lens, In lens lenses /\ c = ListAll (idOf lens (websetIds st)).
Proof.
  induction lenses as [|lens rest IH]; intros acc w o w' Hrun.
  - cbn in Hrun. unfold ret in Hrun. injection Hrun as <- <-.
    exists []. rewrite app_nil_r. split; [reflexivity | intros c []].
  - cbn [collectLenses] in Hrun. unfold bind at 1 in Hrun.
    unfold collectItems, bind, listAll, lift in Hrun. cbn in Hrun.
    destruct (collectFrom defaultCap [] (onListAll env (listings w))) as [rawItems|e].
    + match type of Hrun with
      | match shapingOf env shape ?l ?d ?items ?w1 with _ => _ end = _ =>
          destruct (shapingOf env shape l d items w1) as [[[shaped|e] w2]|] eqn:Hshape
      end; try discriminate.
      * apply shaping_is_local in Hshape. cbn in Hshape.
        apply IH in Hrun as (new & Hcalls & Hnew).
        exists (ListAll (idOf lens (websetIds st)) :: new).
        split; [rewrite Hcalls, Hshape, <- app_assoc; reflexivity|].
        intros c [<-|Hc]; [exists lens; split; [now left | reflexivity]|].
        destruct (Hnew c Hc) as (lens' & Hin & Heq). exists lens'. split; [now right | auto].
      * apply shaping_is_local in Hshape. cbn in Hshape.
        injection Hrun as <- <-. exists [ListAll (idOf lens (websetIds st))].
        split; [exact Hshape|].
        intros c [<-|[]]. exists lens. split; [now left | reflexivity].
    + injection Hrun as <- <-. exists [ListAll (idOf lens (websetIds st))]. cbn.
      split; [reflexivity|].
      intros c [<-|[]]. exists lens. split; [now left | reflexivity].
Qed.

(** X24. A re-evaluation ([existingWebsets] given) only reads. Let every
    lens id that [existingWebsets] does not hold be a name that objects do
    not inherit, so that the lookup of such an id finds nothing. Then,
    however the run ends, every upstream call it has made is a fetch or an
    item listing of a webset id that [existingWebsets] gives for a
    configured lens. It never creates, cancels or deletes a webset and
    never sleeps, not even when the task is found cancelled. The shaping
    of the collected items is any synchronous computation. *)
Theorem reevaluation_only_reads :
  forall (fuel : nat) (lenses : list LensConfig) (ids : WebsetIds)
         (timeoutArg : option Z) (w : World) (o : Outcome (option Collected)) (w' : World),
    (forall lens, In lens lenses -> getKey (lensConfigId lens) ids = None ->
                  inherited (lensConfigId lens) = false) ->
    collectPhase env (shapingOf env shape) fuel lenses (Some ids) timeoutArg w
    = Some (o, w') ->
    exists new,
      calls w' = calls w ++ new /\
      forall c, In c new ->
        exists lens ws,
          In lens lenses /\ getKey (lensConfigId lens) ids = Some ws /\
          (c = GetWebset ws \/ c = ListAll ws).
Proof.
  intros fuel lenses ids timeoutArg w o w' _ Hrun.
  unfold collectPhase in Hrun. unfold bind at 1, isCancelled at 1 in Hrun.
  destruct (cancelled env (cancelChecks w)).
  { unfold ret in Hrun. injection Hrun as <- <-. exists []. cbn.
    rewrite app_nil_r. split; [reflexivity | intros c []]. }
  cbn [Lifecycle.orElse] in Hrun. unfold bind at 1 in Hrun. unfold bind at 1 in Hrun.
  match type of Hrun with
  | match match fetchLoop env ?t ?i ?ls ?st ?w0 with _ => _ end with _ => _ end = _ =>
      destruct (fetchLoop env t i ls st w0) as [[[st1|e] w1]|] eqn:Hfetch
  end; try discriminate.
  2:{ injection Hrun as <- <-.
      apply fetchLoop_calls in Hfetch as (new & Hcalls & Hnew & _). cbn in Hcalls, Hnew.
      exists new. split; [exact Hcalls|].
      intros c Hc. destruct (Hnew c Hc) as (lens & ws & Hin & Hk & ->). eauto 6. }
  apply fetchLoop_calls in Hfetch as (new1 & Hcalls1 & Hnew1 & Hret).
  cbn in Hcalls1, Hnew1, Hret. destruct (Hret st1 eq_refl) as [Hids Hall].
  unfold ret at 1 in Hrun.
  unfold bind at 1, isCancelled at 1 in Hrun.
  destruct (cancelled env (cancelChecks w1)).
  { unfold bind, ret in Hrun. injection Hrun as <- <-. cbn.
    exists new1. split; [exact Hcalls1|].
    intros c Hc. destruct (Hnew1 c Hc) as (lens & ws & Hin & Hk & ->). eauto 6. }
  unfold bind at 1, ret at 1 in Hrun.
  unfold bind at 1, now at 1 in Hrun.
  unfold bind at 1, updateProgress at 1 in Hrun.
  unfold bind at 1 in Hrun.
  match type of Hrun with
  | match collectLenses env (shapingOf env shape) ?ls ?st ?acc ?w0 with _ => _ end = _ =>
      destruct (collectLenses env (shapingOf env shape) ls st acc w0)
        as [[[results|e] w2]|] eqn:Hcollect
  end; try discriminate.
  - apply collectLenses_calls in Hcollect as (new2 & Hcalls2 & Hnew2).
    cbn in Hcalls2. rewrite Hids in Hnew2.
    assert (Hw' : calls w' = calls w2).
    { unfold bind, track, now, isCancelled, ret in Hrun. cbn in Hrun.
      destruct (cancelled env (cancelChecks w2)); injection Hrun as <- <-; reflexivity. }
    exists (new1 ++ new2). split; [rewrite Hw', Hcalls2, Hcalls1, <- app_assoc; reflexivity|].
    intros c Hc. apply in_app_iff in Hc as [Hc|Hc].
    + destruct (Hnew1 c Hc) as (lens & ws & Hin & Hk & ->). eauto 6.
    + destruct (Hnew2 c Hc) as (lens & Hin & ->).
      destruct (Hall lens Hin) as (ws & Hk). exists lens, ws.
      split; [exact Hin|]. split; [exact Hk|]. right. unfold idOf. now rewrite Hk.
  - apply collectLenses_calls in Hcollect as (new2 & Hcalls2 & Hnew2).
    cbn in Hcalls2. rewrite Hids in Hnew2. injection Hrun as <- <-.
    exists (new1 ++ new2). split; [rewrite Hcalls2, Hcalls1, <- app_assoc; reflexivity|].
    intros c Hc. apply in_app_iff in Hc as [Hc|Hc].
    + destruct (Hnew1 c Hc) as (lens & ws & Hin & Hk & ->). eauto 6.
    + destruct (Hnew2 c Hc) as (lens & Hin & ->).
      destruct (Hall lens Hin) as (ws & Hk). exists lens, ws.
      split; [exact Hin|]. split; [exact Hk|]. right. unfold idOf. now rewrite Hk.
Qed.


Lemma cancelAll_succeeds (ids : list string) :
  forall (w : World),
    (forall j, (j < length ids)%nat -> onCancel env (cancels w + j) = Returns tt) ->
    exists w',
      cancelAll env ids w = Some (Returns tt, w') /\
      calls w' = calls w ++ map CancelWebset ids /\
      creates w' = creates w.
Proof.
  induction ids as [|ws rest IH]; intros w Hok.
  - exists w. cbn. rewrite app_nil_r. repeat split.
  - cbn [cancelAll]. unfold bind at 1, websetsCancel at 1.
    rewrite <- (Nat.add_0_r (cancels w)), (Hok 0%nat) by (simpl; lia).
    edestruct IH as (w' & Hrun & Hcalls & Hcr); [|rewrite Hrun].
    + intros j Hj. cbn. rewrite Nat.add_0_r, <- Nat.add_succ_r. apply Hok. simpl. lia.
    + exists w'. split; [reflexivity|]. rewrite Hcalls, Hcr. cbn.
      rewrite <- app_assoc. split; reflexivity.
Qed.










End CronRunProperties.

(* ------------------------------------------------------------------ *)
(** ** Filtering, projecting and summarising items                     *)
(* ------------------------------------------------------------------ *)

Section ItemProperties.
Import Value Projections Summaries.

Lemma filterO_spec {A : Type} (f : A -> Outcome bool) (l kept : list A) :
  filterO f l = Returns kept ->
  (forall x, In x l -> exists b, f x = Returns b) /\
  kept = List.filter (fun x => match f x with Returns true => true | _ => false end) l.
Proof.
  revert kept. induction l as [|x rest IH]; simpl; intros kept Hrun.
  - injection Hrun as <-. split; [intros x [] | reflexivity].
  - destruct (f x) as [b|e] eqn:Hfx; [|discriminate]. simpl in Hrun.
    destruct (filterO f rest) as [kept'|e]; [|discriminate]. simpl in Hrun.
    injection Hrun as <-. destruct (IH kept' eq_refl) as [Hall ->]. split.
    + intros y [<-|Hy]; [eauto | now apply Hall].
    + destruct b; reflexivity.
Qed.

Lemma mapO_spec {A B : Type} (f : A -> Outcome B) (l : list A) (ys : list B) :
  mapO f l = Returns ys ->
  length ys = length l /\
  (forall y, In y ys -> exists x, In x l /\ f x = Returns y) /\
  (forall x, In x l -> exists y, In y ys /\ f x = Returns y).
Proof.
  revert ys. induction l as [|x rest IH]; simpl; intros ys Hrun.
  - injection Hrun as <-. split; [reflexivity|]. split; intros z [].
  - destruct (f x) as [y|e] eqn:Hfx; [|discriminate]. simpl in Hrun.
    destruct (mapO f rest) as [ys'|e]; [|discriminate]. simpl in Hrun.
    injection Hrun as <-. destruct (IH ys' eq_refl) as (Hlen & Hback & Hforth).
    split; [simpl; congruence|]. split.
    + intros z [<-|Hz]; [exists x; split; [now left | exact Hfx]|].
      destruct (Hback z Hz) as (x' & Hx' & Hf). exists x'. split; [now right | exact Hf].
    + intros z [<-|Hz]; [exists y; split; [now left | exact Hfx]|].
      destruct (Hforth z Hz) as (y' & Hy' & Hf). exists y'. split; [now right | exact Hf].
Qed.

Lemma filter_length_le {A : Type} (p : A -> bool) (l : list A) :
  (length (List.filter p l) <= length l)%nat.
Proof. induction l as [|a rest IH]; simpl; [lia|]. destruct (p a); simpl; lia. Qed.

(** X27. [filterAndProjectItems] accounts for every item. When it
    returns, [total] is the number of items given, [included] the number of
    projections returned, [excluded] their difference, which is never
    negative; the projections returned are those of the items that have a
    satisfied evaluation, in the order given; and an item without
    evaluations (absent, null or an empty list) is always among them. *)
Theorem filterAndProjectItems_accounts :
  forall (items : list Value) (r : Filtered),
    filterAndProjectItems items = Returns r ->
    let passes := fun x => match hasSatisfiedEvaluation x with
                           | Returns true => true
                           | _ => false
                           end in
    total r = length items /\
    included r = length (data r) /\
    (0 <= excluded r)%Z /\
    (Z.of_nat (included r) + excluded r = Z.of_nat (total r))%Z /\
    mapO projectItem (List.filter passes items) = Returns (data r) /\
    (forall x, In x items ->
       getProp x "evaluations" = VUndefined \/ getProp x "evaluations" = VNull \/
       getProp x "evaluations" = VArray [] ->
       exists y, In y (data r) /\ projectItem x = Returns y).
Proof.
  intros items r Hrun passes. unfold filterAndProjectItems in Hrun.
  destruct (filterO hasSatisfiedEvaluation items) as [passing|e] eqn:Hfilter;
    [|discriminate].
  simpl in Hrun.
  destruct (mapO projectItem passing) as [projections|e] eqn:Hmap; [|discriminate].
  simpl in Hrun. injection Hrun as <-. simpl.
  destruct (filterO_spec _ _ _ Hfilter) as [Hall Hkept]. fold passes in Hkept.
  destruct (mapO_spec _ _ _ Hmap) as (Hlen & _ & Hforth).
  assert (Hle : (length projections <= length items)%nat)
    by (rewrite Hlen, Hkept; apply filter_length_le).
  split; [reflexivity|]. split; [reflexivity|]. split; [lia|]. split; [lia|].
  split; [rewrite <- Hkept; exact Hmap|].
  intros x Hx Hnone. apply Hforth. rewrite Hkept. apply filter_In. split; [exact Hx|].
  destruct (Hall x Hx) as [b Hb]. subst passes. simpl. rewrite Hb.
  unfold hasSatisfiedEvaluation in Hb.
  destruct (isNullish x); [discriminate|].
  destruct Hnone as [Hn|[Hn|Hn]]; rewrite Hn in Hb; simpl in Hb;
    injection Hb as <-; reflexivity.
Qed.

Lemma lookup_dropProp (k c : string) (fields : list (string * Value)) :
  k <> c -> lookup k (dropProp c fields) = lookup k fields.
Proof.
  intros Hne. unfold dropProp.
  induction fields as [|[k' v] rest IH]; simpl; [reflexivity|].
  destruct (String.eqb k' c) eqn:Ec; simpl.
  - apply String.eqb_eq in Ec. subst k'.
    rewrite (proj2 (String.eqb_neq c k)) by congruence. exact IH.
  - destruct (String.eqb k' k); [reflexivity | exact IH].
Qed.

Lemma lookup_withoutContent (k : string) (fields : list (string * Value)) :
  getProp (withoutContent (VObject fields)) k = stripped k (lookup k fields).
Proof.
  simpl.
  induction fields as [|[k' v] rest IH]; simpl.
  - unfold stripped. destruct (String.eqb k "properties"); reflexivity.
  - destruct (String.eqb k' k) eqn:Ek; [|exact IH].
    apply String.eqb_eq in Ek. subst k'. reflexivity.
Qed.

Lemma getProp_stripped (v : Value) (k : string) :
  k <> "content" -> getProp (stripped "properties" v) k = getProp v k.
Proof.
  intros Hne. unfold stripped. simpl. destruct v; try reflexivity.
  simpl. now apply lookup_dropProp.
Qed.

Lemma isTruthy_stripped (v : Value) :
  isTruthy (stripped "properties" v) = isTruthy v.
Proof. destruct v; reflexivity. Qed.

Lemma extractItemFields_withoutContent (item : Value) :
  extractItemFields (withoutContent item) = extractItemFields item.
Proof.
  destruct item as [| | | | | |fields]; try reflexivity.
  unfold extractItemFields. rewrite lookup_withoutContent.
  change (lookup "properties" fields) with (getProp (VObject fields) "properties").
  set (props := getProp (VObject fields) "properties").
  rewrite isTruthy_stripped.
  destruct (negb (isTruthy props)); [reflexivity|].
  rewrite !getProp_stripped by discriminate. reflexivity.
Qed.

(** X28. The content of an item never reaches a projection: removing
    [properties.content] from an item changes neither whether the item has
    a satisfied evaluation nor its projection, so that
    [filterAndProjectItems] returns the same for items with and without
    their content. *)
Theorem projection_ignores_content :
  forall (items : list Value),
    (forall item, projectItem (withoutContent item) = projectItem item) /\
    (forall item, hasSatisfiedEvaluation (withoutContent item)
                  = hasSatisfiedEvaluation item) /\
    filterAndProjectItems (map withoutContent items) = filterAndProjectItems items.
Proof.
  intros items.
  assert (Hkeys : forall fields k, k <> "properties" ->
            getProp (withoutContent (VObject fields)) k = getProp (VObject fields) k).
  { intros fields k Hne. rewrite lookup_withoutContent. unfold stripped.
    now rewrite (proj2 (String.eqb_neq k "properties") Hne). }
  assert (Hproject : forall item, projectItem (withoutContent item) = projectItem item).
  { intros item. unfold projectItem. rewrite extractItemFields_withoutContent.
    destruct item as [| | | | | |fields]; try reflexivity.
    rewrite !Hkeys by discriminate. reflexivity. }
  assert (Hsat : forall item, hasSatisfiedEvaluation (withoutContent item)
                              = hasSatisfiedEvaluation item).
  { intros item. unfold hasSatisfiedEvaluation.
    destruct item as [| | | | | |fields]; try reflexivity.
    rewrite !Hkeys by discriminate. reflexivity. }
  split; [exact Hproject|]. split; [exact Hsat|].
  unfold filterAndProjectItems. rewrite length_map.
  assert (Hfilter : forall l,
            filterO hasSatisfiedEvaluation (map withoutContent l)
            = bindO (filterO hasSatisfiedEvaluation l)
                    (fun kept => Returns (map withoutContent kept))).
  { induction l as [|x rest IH]; simpl; [reflexivity|].
    rewrite Hsat, IH. destruct (hasSatisfiedEvaluation x) as [b|e]; simpl; [|reflexivity].
    destruct (filterO hasSatisfiedEvaluation rest); simpl; [|reflexivity].
    destruct b; reflexivity. }
  assert (Hmap : forall l, mapO projectItem (map withoutContent l) = mapO projectItem l).
  { induction l as [|x rest IH]; simpl; [reflexivity|]. now rewrite Hproject, IH. }
  rewrite Hfilter.
  destruct (filterO hasSatisfiedEvaluation items) as [kept|e]; simpl; [|reflexivity].
  now rewrite Hmap.
Qed.

Lemma coalesce_nullish (a b : Value) : isNullish a = true -> coalesce a b = b.
Proof. unfold coalesce. now intros ->. Qed.

(** X29. [summarizeItem] and the projection name an item alike, except for
    research papers and custom entities. For an item without a research
    paper title and without a custom title the summary is the projected
    name, followed by the projected URL in brackets when there is one. For
    an item that has only a research paper title or a custom title, the
    summary does not use it: it falls back to the description, or to
    [unknown]. *)
Theorem summarizeItem_and_projection :
  forall (item : Value),
    let props := getProp item "properties" in
    let fields := extractItemFields item in
    let label := fun (name url : Value) =>
                   if isTruthy url
                   then VString (toStr name +:+ " (" +:+ toStr url +:+ ")")
                   else name in
    (isNullish (getPropOpt (getProp props "researchPaper") "title") = true ->
     isNullish (getPropOpt (getProp props "custom") "title") = true ->
     summarizeItem item = label (f_name fields) (f_url fields)) /\
    (isTruthy props = true ->
     isNullish (getPropOpt (getProp props "company") "name") = true ->
     isNullish (getPropOpt (getProp props "person") "name") = true ->
     isNullish (getPropOpt (getProp props "article") "title") = true ->
     summarizeItem item
     = label (coalesce (getProp props "description") (VString "unknown")) (f_url fields)).
Proof.
  intros item props fields label. subst props fields label.
  unfold summarizeItem, extractItemFields.
  set (props := getProp item "properties").
  split.
  - intros Hpaper Hcustom. destruct (negb (isTruthy props)); [reflexivity|].
    cbn [f_name f_url].
    rewrite (coalesce_nullish _ (coalesce (getPropOpt (getProp props "custom") "title") _)
               Hpaper).
    rewrite (coalesce_nullish _ _ Hcustom). reflexivity.
  - intros Hprops Hcompany Hperson Harticle. rewrite Hprops. cbn [negb f_url].
    rewrite (coalesce_nullish _ _ Hcompany), (coalesce_nullish _ _ Hperson),
      (coalesce_nullish _ _ Harticle).
    reflexivity.
Qed.

End ItemProperties.

(* ------------------------------------------------------------------ *)
(** ** Template variables that the configuration does not mention      *)
(* ------------------------------------------------------------------ *)

Section TemplateCoverage.
Import Value Templates.

Lemma replaceFrom_absent (pattern replacement : string) (s : string) :
  forall before,
    includes s pattern = false ->
    replaceFrom pattern replacement before 0 s = s.
Proof.
  induction s as [|c rest IH]; intros before Habsent; [reflexivity|].
  cbn [includes] in Habsent. apply orb_false_iff in Habsent as [Hhere Hrest].
  cbn [replaceFrom]. rewrite Hhere. f_equal. now apply IH.
Qed.

Lemma substituteAll_absent (json : string) (variables : Variables) :
  (forall kv, In kv variables -> includes json ("{{" +:+ fst kv +:+ "}}") = false) ->
  substituteAll json variables = json.
Proof.
  unfold substituteAll. induction variables as [|kv rest IH]; simpl; intros Habsent;
    [reflexivity|].
  unfold replaceAll at 2. rewrite replaceFrom_absent by (apply Habsent; now left).
  apply IH. intros kv' Hin. apply Habsent. now right.
Qed.

(** X30. Variables whose token does not occur in the text of the
    configuration change nothing: template expansion with them has the
    outcome of template expansion with no variable at all, be it the
    parsed configuration or the validation error for the tokens that the
    configuration holds. *)
Theorem unused_variables_change_nothing :
  forall (JSON_parse : string -> option Value) (config : Value) (variables : Variables)
         (json : string),
    stringify config = Some json ->
    (forall kv, In kv variables -> includes json ("{{" +:+ fst kv +:+ "}}") = false) ->
    expandTemplates JSON_parse config variables = expandTemplates JSON_parse config [].
Proof.
  intros JSON_parse config variables json Hjson Habsent.
  unfold expandTemplates. rewrite Hjson.
  rewrite (substituteAll_absent json variables Habsent). reflexivity.
Qed.

End TemplateCoverage.

(* ------------------------------------------------------------------ *)
(** ** The further properties on the sample data                       *)
(* ------------------------------------------------------------------ *)

Section JoinCoverageExamples.
Import Cron Samples.


Lemma entity_join_provenance_witness :
  let cfg := defaults ByEntity in
  In acmeJoined (entities (joinLensResults Convergent.diceCoefficient acmeLenses cfg)) /\
  (exists lr si,
     In lr acmeLenses /\ In si (shapedItems lr) /\
     entity acmeJoined = name si /\ entityUrl acmeJoined = url si /\
     In (lensId lr) (presentInLenses acmeJoined)) /\
  (forall l, In l (presentInLenses acmeJoined) -> hasShapedItem acmeLenses l).
Proof.
  intros cfg.
  assert (Hin : In acmeJoined
                   (entities (joinLensResults Convergent.diceCoefficient acmeLenses cfg)))
    by (vm_compute; left; reflexivity).
  split; [exact Hin|].
  exact (entity_join_provenance Convergent.diceCoefficient acmeLenses cfg acmeJoined Hin).
Defined.

Lemma cooccurrence_window_evidence_witness :
  let lrs := [lens "A" [acmeA]; lens "B" [acmeLate]] in
  let jr := joinLensResults Convergent.diceCoefficient lrs cooccurrenceSevenDays in
  by_ cooccurrenceSevenDays = ByCooccurrence /\
  truthyDays (temporalDays cooccurrenceSevenDays) = true /\
  lensesWithEvidence jr = ["A"] /\
  entities jr = [] /\
  (In "A" (lensesWithEvidence jr) <->
   (forall lr si, In lr lrs -> In si (shapedItems lr) ->
                  Date_getTime (createdAt si) <> None) /\
   exists lr si t lr0 si0 earliest,
     In lr lrs /\ In si (shapedItems lr) /\ lensId lr = "A" /\
     Date_getTime (createdAt si) = Some t /\
     In lr0 lrs /\ In si0 (shapedItems lr0) /\
     Date_getTime (createdAt si0) = Some earliest /\
     (forall lr' si' t',
        In lr' lrs -> In si' (shapedItems lr') ->
        Date_getTime (createdAt si') = Some t' -> (earliest <= t')%Z) /\
     num_le (timeDiff t earliest)
            (windowMs (orDefault (temporalDays cooccurrenceSevenDays) 0)) = true) /\
  (num_le (timeDiff 1709251200000 1704067200000)
          (windowMs (orDefault (temporalDays cooccurrenceSevenDays) 0)) = true
   <-> (1709251200000 - 1704067200000 <= 7 * 86400000)%Z).
Proof.
  intros lrs jr.
  split; [reflexivity|]. split; [vm_compute; reflexivity|].
  split; [vm_compute; reflexivity|].
  destruct (cooccurrence_window_evidence Convergent.diceCoefficient lrs
              cooccurrenceSevenDays "A" eq_refl eq_refl) as (Hents & Hiff & Hexact).
  split; [exact Hents|]. split; [exact Hiff|].
  apply (Hexact 7%Z); [reflexivity | |]; vm_compute; discriminate.
Defined.

Lemma temporal_join_evidence_witness :
  let cfg := defaults ByTemporal in
  let jr := joinLensResults Convergent.diceCoefficient acmeLenses cfg in
  by_ cfg = ByTemporal /\
  List.NoDup (map lensId acmeLenses) /\
  lensesWithEvidence jr = ["A"; "B"] /\
  entities jr = [] /\
  (In "A" (lensesWithEvidence jr) <->
   exists lr lr' si si' t t',
     In lr acmeLenses /\ In lr' acmeLenses /\ lensId lr = "A" /\ lensId lr' <> "A" /\
     In si (shapedItems lr) /\ In si' (shapedItems lr') /\
     Date_getTime (createdAt si) = Some t /\
     Date_getTime (createdAt si') = Some t' /\
     num_le (num_abs (timeDiff t t')) (windowMs (orDefault (temporalDays cfg) 7)) = true) /\
  (num_le (num_abs (timeDiff 1704067200000 1704153600000))
          (windowMs (orDefault (temporalDays cfg) 7)) = true
   <-> (Z.abs (1704067200000 - 1704153600000) <= 7 * 86400000)%Z).
Proof.
  intros cfg jr.
  assert (Hnd : List.NoDup (map lensId acmeLenses)).
  { simpl. constructor; [intros [Heq|[]]; discriminate|].
    constructor; [intros [] | constructor]. }
  split; [reflexivity|]. split; [exact Hnd|]. split; [vm_compute; reflexivity|].
  destruct (temporal_join_evidence Convergent.diceCoefficient acmeLenses cfg "A" eq_refl Hnd)
    as (Hents & Hiff & Hexact).
  split; [exact Hents|]. split; [exact Hiff|].
  apply (Hexact 7%Z); [reflexivity | |]; vm_compute; discriminate.
Defined.

(** The edge of the window. [0.7 * 86400000] is 60479999.99999999 on
    doubles, so two items exactly 60480000 ms apart are not within a window
    of 0.7 days, in the temporal join and in the co-occurrence join alike;
    one millisecond less and they are. *)
Example window_edge_is_rounded :
  let atEdge := [lens "A" [createdOn "2024-01-01T00:00:00.000Z"];
                 lens "B" [createdOn "2024-01-01T16:48:00.000Z"]] in
  let inside := [lens "A" [createdOn "2024-01-01T00:00:00.000Z"];
                 lens "B" [createdOn "2024-01-01T16:47:59.999Z"]] in
  num_lt (windowMs (7 # 10)) (Fin 60480000) = true /\
  num_lt (Fin (604799999999 # 10000)) (windowMs (7 # 10)) = true /\
  timeDiff 1704127680000 1704067200000 = Fin 60480000 /\
  lensesWithEvidence
    (joinLensResults (H := edgeDates) Convergent.diceCoefficient atEdge (sevenTenths ByTemporal))
  = [] /\
  lensesWithEvidence
    (joinLensResults (H := edgeDates) Convergent.diceCoefficient inside (sevenTenths ByTemporal))
  = ["A"; "B"] /\
  lensesWithEvidence
    (joinLensResults (H := edgeDates) Convergent.diceCoefficient atEdge
       (sevenTenths ByCooccurrence))
  = ["A"] /\
  lensesWithEvidence
    (joinLensResults (H := edgeDates) Convergent.diceCoefficient inside
       (sevenTenths ByCooccurrence))
  = ["A"; "B"].
Proof. vm_compute. repeat split; reflexivity. Qed.

Lemma signal_rests_on_join_witness :
  let lrs := [lens "A" [acmeA]; lens "B" [acmeLate]; lens "C" []] in
  let jr := joinLensResults Convergent.diceCoefficient lrs (defaults ByEntity) in
  evaluateSignal jr combinationAB ["A"; "B"; "C"] = Returns oneEntitySignal /\
  (forall l, In l (satisfiedBy oneEntitySignal) ->
     In l (lensesWithEvidence jr) /\ hasShapedItem lrs l) /\
  (forall n, In n (signalEntities oneEntitySignal) ->
     exists e, In e (entities jr) /\ entity e = n).
Proof.
  intros lrs jr.
  assert (Hr : evaluateSignal jr combinationAB ["A"; "B"; "C"] = Returns oneEntitySignal)
    by (vm_compute; reflexivity).
  split; [exact Hr|].
  exact (signal_rests_on_join Convergent.diceCoefficient lrs (defaults ByEntity)
           combinationAB ["A"; "B"; "C"] oneEntitySignal Hr).
Defined.

Lemma threshold_within_overlap_fires_witness :
  let jcfg := defaults ByEntity in
  let jr := joinLensResults Convergent.diceCoefficient acmeLenses jcfg in
  requiresType thresholdDefault = RThreshold /\
  (orDefault (requiresMin thresholdDefault) 2 <= orDefault (minLensOverlap jcfg) 2)%Q /\
  entities jr <> [] /\
  exists r,
    evaluateSignal jr thresholdDefault ["A"; "B"] = Returns r /\
    fired r = true /\
    signalEntities r = map entity (entities jr) /\
    satisfiedBy r = lensesWithEvidence jr.
Proof.
  intros jcfg jr.
  assert (Hmin : (orDefault (requiresMin thresholdDefault) 2
                  <= orDefault (minLensOverlap jcfg) 2)%Q) by apply Qle_refl.
  assert (Hne : entities jr <> []) by (vm_compute; discriminate).
  split; [reflexivity|]. split; [exact Hmin|]. split; [exact Hne|].
  exact (threshold_within_overlap_fires Convergent.diceCoefficient acmeLenses jcfg
           thresholdDefault ["A"; "B"] eq_refl Hmin Hne).
Defined.

Lemma computeDelta_same_state_witness :
  let d := Snapshot.computeDelta acmeSnapshot acmeSnapshot in
  Snapshot.newShapedItems d = (fun _ => 0%Z) <$> Snapshot.lenses acmeSnapshot /\
  Snapshot.newJoins d = [] /\ Snapshot.lostJoins d = [] /\
  Snapshot.signalTransition d
  = {| Snapshot.was := true; Snapshot.now := true; Snapshot.changed := false;
       Snapshot.newEntities := []; Snapshot.lostEntities := [] |}.
Proof.
  exact (computeDelta_same_state acmeSnapshot acmeSnapshot eq_refl eq_refl eq_refl).
Defined.


End JoinCoverageExamples.

Section RunCoverageExamples.
Import Value Helpers Lifecycle CronWorkflow Samples.

Lemma pollUntilIdle_call_discipline_witness :
  exists o w',
    pollUntilIdle (stuckUpstream None StreamEnd) 5 "ws_1" 250 2 4 initialWorld
    = Some (o, w') /\
    calls w' = [GetWebset "ws_1"; Sleep 2000; GetWebset "ws_1"; Sleep 2000;
                GetWebset "ws_1"] /\
    exists (k : nat) (c : bool),
      calls w' = calls initialWorld ++ rounds k "ws_1" ++ GetWebset "ws_1"
                                       :: (if c then [CancelWebset "ws_1"] else []) /\
      gets w' = (gets initialWorld + S k)%nat /\
      cancels w' = (cancels initialWorld + if c then 1 else 0)%nat /\
      creates w' = creates initialWorld /\ deletes w' = deletes initialWorld /\
      listings w' = listings initialWorld /\
      (c = true -> forall webset, o <> Returns (webset, true)).
Proof.
  eexists. eexists. split; [vm_compute; reflexivity|]. split; [reflexivity|].
  apply (pollUntilIdle_call_discipline (stuckUpstream None StreamEnd) 5 "ws_1" 250 2 4
           initialWorld).
  vm_compute. reflexivity.
Defined.

Lemma pollUntilIdle_exits_witness :
  let env := turnsIdle StreamEnd in
  let deadline := (clock env (clockReads initialWorld) + 300000)%Z in
  (forall i, (i < 1)%nat -> keepsPolling env deadline (tick initialWorld) i) /\
  exists w',
    pollUntilIdle env 2 "ws_1" 300000 2 4 initialWorld
    = Some (Returns (idleWebset, false), w') /\
    cancels w' = cancels initialWorld /\
    calls w' = calls initialWorld ++ rounds 1 "ws_1" ++ [GetWebset "ws_1"].
Proof.
  intros env deadline.
  assert (Hkeep : forall i, (i < 1)%nat ->
                            keepsPolling env deadline (tick initialWorld) i).
  { intros i Hi. assert (i = 0%nat) by lia. subst i.
    exists runningWebset. repeat split; try discriminate; reflexivity. }
  split; [exact Hkeep|].
  destruct (pollUntilIdle_exits env 1 0 "ws_1" 300000 2 4 initialWorld Hkeep)
    as (_ & Hidle & _).
  exact (Hidle idleWebset eq_refl eq_refl).
Defined.

Lemma harvest_cancel_after_create_witness :
  let env := stuckUpstream (Some 1%nat) StreamEnd in
  isNullish (query harvestArgs) = false /\
  cancelled env (cancelChecks initialWorld) = false /\
  cancelled env (S (cancelChecks initialWorld)) = true /\
  exists w',
    lifecycleHarvestWorkflow env 5 harvestArgs initialWorld = Some (Returns None, w') /\
    calls w' = calls initialWorld
               ++ [CreateWebset harvestParams; CancelWebset (websetId runningWebset)].
Proof.
  intros env.
  split; [reflexivity|]. split; [reflexivity|]. split; [reflexivity|].
  destruct (harvest_cancel_after_create env 5 harvestArgs initialWorld
              [("type", VString "company")] eq_refl eq_refl eq_refl eq_refl)
    as [_ Hcancel].
  exact (Hcancel runningWebset eq_refl eq_refl).
Defined.

Lemma harvest_cleanup_is_best_effort_witness :
  let env := turnsIdle threeItems in
  onDelete env 0 = Throws UpstreamError /\
  cancelled env (cancelChecks initialWorld) = false /\
  exists r w',
    afterPoll env harvestCleanupArgs 0 "ws_1" [] idleWebset false initialWorld
    = Some (Returns (Some r), w') /\
    length (items r) = 3%nat /\ itemCount r = 3%nat /\
    resultWebsetId r = "ws_1" /\
    calls w' = [ListAll "ws_1"; DeleteWebset "ws_1"] /\
    deletes w' = 1%nat.
Proof.
  intros env. split; [reflexivity|]. split; [reflexivity|].
  destruct (harvest_cleanup_is_best_effort env harvestCleanupArgs 0 "ws_1" [] idleWebset
              false initialWorld (streamItems threeItems) eq_refl eq_refl)
    as (r & w' & Hrun & Hitems & Hcount & Hid & Hcalls & Hdel).
  exists r, w'. split; [exact Hrun|]. rewrite Hitems.
  split; [reflexivity|]. split; [exact Hcount|]. split; [exact Hid|].
  split; [exact Hcalls | exact Hdel].
Defined.

Lemma harvest_completed_run_witness :
  exists r w',
    lifecycleHarvestWorkflow (turnsIdle threeItems) 5 harvestCleanupArgs initialWorld
    = Some (Returns (Some r), w') /\
    map stepName (steps r) = ["validate"; "create"; "poll"; "collect"] /\
    itemCount r = length (items r) /\
    calls w' = [CreateWebset harvestParams; GetWebset "ws_1"; Sleep 2000; GetWebset "ws_1";
                ListAll "ws_1"; DeleteWebset "ws_1"].
Proof.
  eexists. eexists. split; [vm_compute; reflexivity|].
  edestruct (harvest_completed_run (turnsIdle threeItems) 5 harvestCleanupArgs initialWorld)
    as (Hsteps & Hcount & _); [vm_compute; reflexivity|].
  split; [exact Hsteps|]. split; [exact Hcount|]. reflexivity.
Defined.

(** The order in which the websets of a cancelled run are cancelled is the
    order in which [Object.values] enumerates the record: lens ids that are
    array indices come first, by ascending index. *)
Example values_follow_enumeration :
  valuesOf [("b", "ws_b"); ("10", "ws_10"); ("2", "ws_2"); ("01", "ws_01");
            ("4294967295", "ws_big"); ("0", "ws_0")]
  = ["ws_0"; "ws_2"; "ws_10"; "ws_b"; "ws_01"; "ws_big"].
Proof. vm_compute. reflexivity. Qed.

Lemma reevaluation_only_reads_witness :
  let env := stuckUpstream None threeItems in
  let ids := [("hiring", "ws_1")] in
  (forall lens, In lens [singleItemLens] -> getKey (lensConfigId lens) ids = None ->
                inherited (lensConfigId lens) = false) /\
  exists o w',
    collectPhase env (shapingOf env shapeNothing) 5 [singleItemLens] (Some ids) None
                 initialWorld
    = Some (o, w') /\
    calls w' = [GetWebset "ws_1"; ListAll "ws_1"] /\
    exists new,
      calls w' = calls initialWorld ++ new /\
      forall c, In c new ->
        exists lens ws,
          In lens [singleItemLens] /\ getKey (lensConfigId lens) ids = Some ws /\
          (c = GetWebset ws \/ c = ListAll ws).
Proof.
  intros env ids.
  assert (Hkeys : forall lens, In lens [singleItemLens] ->
                    getKey (lensConfigId lens) ids = None ->
                    inherited (lensConfigId lens) = false).
  { intros lens [<-|[]] _. reflexivity. }
  split; [exact Hkeys|].
  eexists. eexists. split; [vm_compute; reflexivity|]. split; [reflexivity|].
  eapply (reevaluation_only_reads env shapeNothing 5 [singleItemLens] ids None
            initialWorld _ _ Hkeys).
  vm_compute. reflexivity.
Defined.



Lemma filterAndProjectItems_accounts_witness :
  exists r,
    Projections.filterAndProjectItems [rawItem; VObject [("id", VString "bare")]]
    = Returns r /\
    Projections.total r = 2%nat /\
    Projections.included r = length (Projections.data r) /\
    (0 <= Projections.excluded r)%Z /\
    (Z.of_nat (Projections.included r) + Projections.excluded r
     = Z.of_nat (Projections.total r))%Z.
Proof.
  eexists. split; [vm_compute; reflexivity|].
  edestruct (filterAndProjectItems_accounts [rawItem; VObject [("id", VString "bare")]])
    as (Ht & Hi & He & Hs & _); [vm_compute; reflexivity|].
  split; [exact Ht|]. split; [exact Hi|]. split; [exact He | exact Hs].
Defined.

Lemma unused_variables_change_nothing_witness :
  let config := oneLensConfig "AI hiring" in
  let variables := [("topic", "security")] in
  Templates.stringify config = Some (textOf config) /\
  (forall kv, In kv variables ->
     includes (textOf config) ("{{" +:+ fst kv +:+ "}}") = false) /\
  Templates.expandTemplates (fun _ => None) config variables
  = Templates.expandTemplates (fun _ => None) config [].
Proof.
  intros config variables.
  assert (Hjson : Templates.stringify config = Some (textOf config))
    by (vm_compute; reflexivity).
  assert (Habsent : forall kv, In kv variables ->
            includes (textOf config) ("{{" +:+ fst kv +:+ "}}") = false).
  { intros kv [<-|[]]. vm_compute. reflexivity. }
  split; [exact Hjson|]. split; [exact Habsent|].
  exact (unused_variables_change_nothing (fun _ => None) config variables (textOf config)
           Hjson Habsent).
Defined.

End RunCoverageExamples.
